(** * Refire theme: quick-view drawer and header mega-menu

    A shallow embedding of the two browser components of the theme,
    [QuickViewDrawer] (the quick-view drawer custom element) and
    [HeaderMenu] (assets/header-menu.js), together with the properties of
    their cache, toggle and debounce logic.

    Conventions of the embedding:
    - a JavaScript value coming out of [JSON.parse] is a [jsval];
      [undefined] is added for absent properties;
    - numbers are exact integers ([Z]); this is exact below 2^53, which
      covers ids, prices in cents and quantities;
    - a thrown exception is the [Throw] case of [result];
    - a [Map] keyed by strings is a [gmap string _];
    - calls that leave the component ([fetch], [console.error],
      [preventDefault], [showDialog], ...) are recorded in a trace;
    - timers are a queue of pending callbacks over a logical clock in
      milliseconds;
    - an asynchronous function is split where it awaits the network: what
      waits is part of the state, and the answers arrive in any order;
    - rectangles are exact rationals ([Q]) and are rounded where the code
      rounds them; touch positions are numbers of the platform. *)

From Stdlib Require Import ZArith QArith Qround List Ascii String Bool.
From Stdlib Require Import DecimalString DecimalPos DecimalFacts.
From stdpp Require Import base option list gmap strings.
Import ListNotations.

Local Open Scope string_scope.
Local Open Scope Z_scope.

(** ** JavaScript primitives used by the components *)

Module JS.

(** Values and exceptions. *)
#[warnings="-register-all"]
Inductive jsval :=
| JUndefined
| JNull
| JBool (b : bool)
| JNum (n : Z)
| JStr (s : string)
| JArr (items : list jsval)
| JObj (fields : list (string * jsval)).

Inductive result (A : Type) :=
| Ok (a : A)
| Throw (message : string).
Arguments Ok {A} a.
Arguments Throw {A} message.

#[global] Instance result_ret : MRet result := fun A a => Ok a.
#[global] Instance result_bind : MBind result := fun A B k r =>
  match r with
  | Ok a => k a
  | Throw e => Throw e
  end.

(** [!!v] *)
Definition truthy (v : jsval) : bool :=
  match v with
  | JUndefined | JNull => false
  | JBool b => b
  | JNum n => negb (n =? 0)
  | JStr s => negb (String.eqb s EmptyString)
  | JArr _ | JObj _ => true
  end.

(** [a || b] *)
Definition or_else (a b : jsval) : jsval := if truthy a then a else b.

Fixpoint assoc (k : string) (fields : list (string * jsval)) : jsval :=
  match fields with
  | [] => JUndefined
  | (k', v) :: rest => if String.eqb k k' then v else assoc k rest
  end.

(** [v.k] for a property name [k]; reading a property of [null] or
    [undefined] throws a TypeError. *)
Definition get_prop (v : jsval) (k : string) : result jsval :=
  match v with
  | JUndefined | JNull => Throw "TypeError"
  | JObj fields => Ok (assoc k fields)
  | JArr items =>
      Ok (if String.eqb k "length" then JNum (Z.of_nat (length items)) else JUndefined)
  | JStr s =>
      Ok (if String.eqb k "length" then JNum (Z.of_nat (String.length s)) else JUndefined)
  | JBool _ | JNum _ => Ok JUndefined
  end.

(** [String(n)] for an integer number. *)
Definition string_of_Z (n : Z) : string :=
  NilZero.string_of_int (Z.to_int n).

(** [v[i]] for an index [i]. *)
Definition get_index (v : jsval) (i : nat) : result jsval :=
  match v with
  | JUndefined | JNull => Throw "TypeError"
  | JArr items => Ok (nth i items JUndefined)
  | JStr s =>
      Ok (match String.get i s with
          | Some c => JStr (String c EmptyString)
          | None => JUndefined
          end)
  | JObj fields => Ok (assoc (string_of_Z (Z.of_nat i)) fields)
  | JBool _ | JNum _ => Ok JUndefined
  end.

(** [a === b] when [b] is a string. *)
Definition strict_eq_string (a : jsval) (b : string) : bool :=
  match a with
  | JStr s => String.eqb s b
  | _ => false
  end.

(** [v.map(f)]: only arrays have a [map] method. *)
Definition array_map {B : Type} (f : jsval -> nat -> result B) (v : jsval)
  : result (list B) :=
  match v with
  | JUndefined | JNull => Throw "TypeError"
  | JArr items =>
      (fix go (l : list jsval) (i : nat) : result (list B) :=
         match l with
         | [] => Ok []
         | x :: r => y ← f x i; ys ← go r (S i); Ok (y :: ys)
         end) items 0%nat
  | _ => Throw "TypeError"
  end.

(** [`${v}`]: the string a value is interpolated as. *)
Fixpoint ToString (v : jsval) : string :=
  match v with
  | JUndefined => "undefined"
  | JNull => "null"
  | JBool true => "true"
  | JBool false => "false"
  | JNum n => string_of_Z n
  | JStr s => s
  | JArr items =>
      String.concat ","
        (map (fun x => match x with
                       | JUndefined | JNull => EmptyString
                       | _ => ToString x
                       end) items)
  | JObj _ => "[object Object]"
  end.

(** White space skipped by [parseInt]: TAB, LF, VT, FF, CR and SP. *)
Definition is_space (c : ascii) : bool :=
  let n := nat_of_ascii c in
  ((9 <=? n)%nat && (n <=? 13)%nat) || (n =? 32)%nat.

Fixpoint skip_spaces (s : string) : string :=
  match s with
  | String c r => if is_space c then skip_spaces r else s
  | EmptyString => s
  end.

(** Value of a digit in the given radix (10 or 16), if it is one. *)
Definition digit_val (radix : Z) (c : ascii) : option Z :=
  let n := Z.of_nat (nat_of_ascii c) in
  let v :=
    if (48 <=? n) && (n <=? 57) then Some (n - 48)
    else if (97 <=? n) && (n <=? 122) then Some (n - 87)
    else if (65 <=? n) && (n <=? 90) then Some (n - 55)
    else None in
  match v with
  | Some d => if d <? radix then Some d else None
  | None => None
  end.

(** Longest prefix of digits; [None] when there is no digit at all. *)
Fixpoint parse_digits (radix : Z) (s : string) (acc : option Z) : option Z :=
  match s with
  | String c r =>
      match digit_val radix c with
      | Some d => parse_digits radix r (Some (radix * default 0 acc + d))
      | None => acc
      end
  | EmptyString => acc
  end.

(** [parseInt(s)] and [parseInt(s, 10)]; [None] is [NaN].  Without a
    radix argument a [0x] prefix selects base 16. *)
Definition parseInt_radix (radix10 : bool) (s : string) : option Z :=
  let s1 := skip_spaces s in
  let '(neg, s2) :=
    match s1 with
    | String "-" r => (true, r)
    | String "+" r => (false, r)
    | _ => (false, s1)
    end in
  let '(radix, s3) :=
    match s2 with
    | String "0" (String "x" r) => if radix10 then (10, s2) else (16, r)
    | String "0" (String "X" r) => if radix10 then (10, s2) else (16, r)
    | _ => (10, s2)
    end in
  match parse_digits radix s3 None with
  | Some n => Some (if neg then - n else n)
  | None => None
  end.

Definition parseInt (s : string) : option Z := parseInt_radix false s.

(** [x || 1] for a number [x]: [NaN] and [0] are falsy. *)
Definition or_one (x : option Z) : Z :=
  match x with
  | Some 0 | None => 1
  | Some n => n
  end.

(** Markup literals are written with an apostrophe where the source has
    a double quote; [tpl] puts the double quotes back.  No literal of the
    components contains an apostrophe. *)
Fixpoint tpl (s : string) : string :=
  match s with
  | EmptyString => EmptyString
  | String c r => String (if Ascii.eqb c "'" then "034"%char else c) (tpl r)
  end.


(** [String.prefix m (s ++ t)] when [s] alone decides it. *)
Fixpoint decided_prefix (m s : string) : option bool :=
  match m, s with
  | EmptyString, _ => Some true
  | String a m', String b s' =>
      if Ascii.eqb a b then decided_prefix m' s' else Some false
  | String _ _, EmptyString => None
  end.



End JS.

(** ** Quick-view drawer: loading, caching and rendering *)

Module QuickView.
Import JS.

(** The object literal returned by [#extractProductData]. *)
Record ProductData := {
  id : jsval;
  title : jsval;
  description : jsval;
  price : jsval;
  compare_at_price : jsval;
  available : jsval;
  images : jsval;
  variants : jsval;
  options : jsval;
  handle : jsval
}.

(** What [#extractProductData] reads of a parsed document: the
    [textContent] of the first element matching [[data-product-json]],
    if there is one. *)
Record Document := {
  data_product_json : option string
}.

(** What [#loadProductData] reads of a [fetch] response; [body] is the
    document [DOMParser] builds from [response.text()], or [None] when
    reading the text fails. *)
Record Response := {
  ok : bool;
  body : option Document
}.

(** The server as seen by one load: a response per URL, or [None] when
    the [fetch] promise is rejected. *)
Definition Network := string -> option Response.

(** Calls that leave the component. *)
Inductive Call :=
| Fetch (url : string)
| ConsoleError
| PreventDefault
| StopPropagation
| ShowDialog.

(** [#cachedContent], [refs.drawerContent.innerHTML] and the calls made
    so far, oldest first. *)
Record State := {
  cachedContent : gmap string ProductData;
  drawerContent : string;
  calls : list Call
}.

Definition set_drawerContent (html : string) (s : State) : State :=
  {| cachedContent := cachedContent s; drawerContent := html; calls := calls s |}.

Definition set_cachedContent (c : gmap string ProductData) (s : State) : State :=
  {| cachedContent := c; drawerContent := drawerContent s; calls := calls s |}.

Definition call (c : Call) (s : State) : State :=
  {| cachedContent := cachedContent s; drawerContent := drawerContent s;
     calls := calls s ++ [c] |}.

(** Platform functions the component relies on: [JSON.parse], and the
    floating point operations of [#formatPrice]. *)
Record Platform := {
  JSON_parse : string -> result jsval;
  (** [(x / 100).toFixed(2)] *)
  cents_toFixed2 : jsval -> string;
  (** [a > b] *)
  greater : jsval -> jsval -> bool
}.

Section Drawer.
Variable P : Platform.

Definition extractProductData (doc : Document) : result ProductData :=
  product ← match data_product_json doc with
            | Some textContent => JSON_parse P textContent
            | None => Ok JNull
            end;
  if negb (truthy product) then Throw "Product data not found" else
  p_id ← get_prop product "id";
  p_title ← get_prop product "title";
  p_description ← get_prop product "description";
  p_price ← get_prop product "price";
  p_compare ← get_prop product "compare_at_price";
  p_available ← get_prop product "available";
  p_images ← get_prop product "images";
  p_variants ← get_prop product "variants";
  p_options ← get_prop product "options";
  p_handle ← get_prop product "handle";
  Ok {| id := p_id;
        title := p_title;
        description := p_description;
        price := p_price;
        compare_at_price := p_compare;
        available := p_available;
        images := or_else p_images (JArr []);
        variants := or_else p_variants (JArr []);
        options := or_else p_options (JArr []);
        handle := p_handle |}.

(** One item of the gallery ([#buildMediaGallery], the [map] callback). *)
Definition media_item (image : jsval) : string :=
  tpl "
      <div class='quick-view-media-item'>
        <img src='" +:+ ToString image +:+ tpl "' alt='Product image' loading='lazy'>
      </div>
    ".



Definition media_gallery (imageItems : string) : string :=
  tpl "
      <div class='quick-view-media-gallery'>
        <div class='quick-view-media-scroll'>
          " +:+ imageItems +:+ tpl "
        </div>
      </div>
    ".

(** [v.length === 0] *)
Definition length_is_zero (v : jsval) : result bool :=
  len ← get_prop v "length";
  Ok match len with
     | JNum n => n =? 0
     | _ => false
     end.

(** [#buildMediaGallery(images)]; [slice] and [map] exist together on
    arrays only. *)
Definition buildMediaGallery (images : jsval) : result string :=
  if negb (truthy images) then Ok EmptyString else
  empty ← length_is_zero images;
  if (empty : bool) then Ok EmptyString else
  match images with
  | JArr items =>
      let imageItems := String.concat EmptyString (map media_item (firstn 5 items)) in
      Ok (media_gallery imageItems)
  | _ => Throw "TypeError"
  end.

Definition variant_option (value : jsval) : string :=
  tpl "
                <button type='button' class='quick-view-variant-option' data-value='"
  +:+ ToString value +:+ tpl "'>
                  " +:+ ToString value +:+ tpl "
                </button>
              ".

Definition variant_group (option : jsval) (index : nat) : result string :=
  name ← get_prop option "name";
  values ← get_prop option "values";
  buttons ← array_map (fun value _ => Ok (variant_option value)) values;
  Ok (tpl "
          <div class='quick-view-variant-group' data-option-index='"
      +:+ string_of_Z (Z.of_nat index) +:+ tpl "'>
            <div class='quick-view-variant-label'>" +:+ ToString name +:+ tpl "</div>
            <div class='quick-view-variant-options'>
              " +:+ String.concat EmptyString buttons +:+ tpl "
            </div>
          </div>
        ").

(** [#buildVariantOptions(product)] *)
Definition buildVariantOptions (product : ProductData) : result string :=
  if negb (truthy (options product)) then Ok EmptyString else
  empty ← length_is_zero (options product);
  if (empty : bool) then Ok EmptyString else
  groups ← array_map variant_group (options product);
  Ok (tpl "
      <div class='quick-view-variants'>
        " +:+ String.concat EmptyString groups +:+ tpl "
      </div>
    ").

(** [#formatPrice(price, comparePrice)] *)
Definition formatPrice (price comparePrice : jsval) : string :=
  let currentPrice := cents_toFixed2 P price in
  if truthy comparePrice && greater P comparePrice price then
    let originalPrice := cents_toFixed2 P comparePrice in
    tpl "
        <span class='price-current'>$" +:+ currentPrice +:+ tpl "</span>
        <span class='price-compare'>$" +:+ originalPrice +:+ tpl "</span>
      "
  else
    tpl "<span class='price-current'>$" +:+ currentPrice +:+ tpl "</span>".

(** [#buildProductContent(product)] *)
Definition buildProductContent (product : ProductData) : result string :=
  let priceDisplay := formatPrice (price product) (compare_at_price product) in
  mediaGallery ← buildMediaGallery (images product);
  variantOptions ← buildVariantOptions product;
  Ok (tpl "
      <div class='quick-view-product-header'>
        <h2 class='quick-view-product-title'>" +:+ ToString (title product) +:+ tpl "</h2>
        <div class='quick-view-product-price'>" +:+ priceDisplay +:+ tpl "</div>
        " +:+
      (if truthy (description product)
       then tpl "<div class='quick-view-product-description'>"
            +:+ ToString (description product) +:+ tpl "</div>"
       else EmptyString) +:+ tpl "
      </div>
      
      " +:+ mediaGallery +:+ tpl "
      
      <div class='quick-view-product-content'>
        " +:+ variantOptions +:+ tpl "
        
        <div class='quick-view-actions'>
          <div class='quick-view-quantity-cart'>
            <div class='quick-view-quantity'>
              <button type='button' class='quantity-btn quantity-minus' aria-label='Decrease quantity'>
                <svg width='16' height='16' viewBox='0 0 16 16' fill='none'>
                  <path d='M3 8h10' stroke='currentColor' stroke-width='1.5' stroke-linecap='round'/>
                </svg>
              </button>
              <input type='number' class='quantity-input' value='1' min='1' max='999'>
              <button type='button' class='quantity-btn quantity-plus' aria-label='Increase quantity'>
                <svg width='16' height='16' viewBox='0 0 16 16' fill='none'>
                  <path d='M8 3v10M3 8h10' stroke='currentColor' stroke-width='1.5' stroke-linecap='round'/>
                </svg>
              </button>
            </div>
            <button type='button' class='quick-view-add-to-cart' data-product-id='"
      +:+ ToString (id product) +:+ tpl "'>
              <span class='add-to-cart-text'>Add to Cart</span>
              <svg width='20' height='20' viewBox='0 0 20 20' fill='none' class='cart-icon'>
                <path d='M3 3h1.5l1.7 9.4a1 1 0 001 .8h8.4a1 1 0 001-.8L17.5 5H5' stroke='currentColor' stroke-width='1.5' stroke-linecap='round' stroke-linejoin='round'/>
                <circle cx='7.5' cy='16.5' r='0.5' fill='currentColor'/>
                <circle cx='14.5' cy='16.5' r='0.5' fill='currentColor'/>
              </svg>
            </button>
          </div>
        </div>
      </div>
    ").

(** Markup written by [#showLoading]. *)
Definition loading_markup : string :=
  tpl "
      <div class='quick-view-drawer__loading'>
        <div class='loading-spinner'>
          <svg width='24' height='24' viewBox='0 0 24 24' fill='none' xmlns='http://www.w3.org/2000/svg'>
            <circle cx='12' cy='12' r='10' stroke='currentColor' stroke-width='2' stroke-linecap='round' stroke-dasharray='32' stroke-dashoffset='32'>
              <animate attributeName='stroke-dasharray' dur='2s' values='0 32;16 16;0 32;0 32' repeatCount='indefinite'/>
              <animate attributeName='stroke-dashoffset' dur='2s' values='0;-16;-32;-32' repeatCount='indefinite'/>
            </circle>
          </svg>
          <span>Loading product details...</span>
        </div>
      </div>
    ".

(** Markup written by [#showError]. *)
Definition error_markup : string :=
  tpl "
      <div class='quick-view-drawer__loading'>
        <div class='loading-spinner'>
          <svg width='24' height='24' viewBox='0 0 24 24' fill='none'>
            <circle cx='12' cy='12' r='10' stroke='currentColor' stroke-width='2'/>
            <line x1='12' y1='8' x2='12' y2='12' stroke='currentColor' stroke-width='2' stroke-linecap='round'/>
            <line x1='12' y1='16' x2='12.01' y2='16' stroke='currentColor' stroke-width='2' stroke-linecap='round'/>
          </svg>
          <span>Error loading product. Please try again.</span>
        </div>
      </div>
    ".

Definition showLoading (s : State) : State := set_drawerContent loading_markup s.

Definition showError (s : State) : State := set_drawerContent error_markup s.

(** [#updateDrawerContent(productData)].  The initialisers that follow
    the assignment to [innerHTML] attach listeners to the new elements
    and do not throw; the state they act on is modelled in [Quantity]
    and [VariantPicker]. *)
Definition updateDrawerContent (productData : ProductData) (s : State)
  : result State :=
  content ← buildProductContent productData;
  Ok (set_drawerContent content s).

Definition product_url (productHandle : string) : string :=
  "/products/" +:+ productHandle +:+ "?view=quick-view".

(** The fetch branch of [#loadProductData], from [fetch] to
    [#extractProductData]. *)
Definition fetchProductData (productHandle : string) (net : Network)
  : result ProductData :=
  match net (product_url productHandle) with
  | None => Throw "fetch rejected"
  | Some response =>
      if negb (ok response) then Throw "Failed to fetch product data" else
      match body response with
      | None => Throw "response.text() rejected"
      | Some doc => extractProductData doc
      end
  end.

(** The [catch] block of [#loadProductData]. *)
Definition catch_error (s : State) : State :=
  showError (call ConsoleError s).

(** [#loadProductData(productHandle)], run to completion against the
    network [net].  A value stored in [#cachedContent] is an object, hence
    truthy: the cache is hit exactly when the map has the key. *)
Definition loadProductData (productHandle : string) (net : Network) (s : State)
  : State :=
  let s := showLoading s in
  match cachedContent s !! productHandle with
  | Some productData =>
      match updateDrawerContent productData s with
      | Ok s' => s'
      | Throw _ => catch_error s
      end
  | None =>
      let s := call (Fetch (product_url productHandle)) s in
      match fetchProductData productHandle net with
      | Throw _ => catch_error s
      | Ok productData =>
          let s :=
            set_cachedContent
              (<[productHandle := productData]> (cachedContent s)) s in
          match updateDrawerContent productData s with
          | Ok s' => s'
          | Throw _ => catch_error s
          end
      end
  end.

(** The [dataset] of a [.product-card__quick-view-btn] element. *)
Record Button := {
  dataset_productId : option string;
  dataset_productHandle : option string
}.

(** What [#handleQuickViewClick] reads of a click: the closest
    [.product-card__quick-view-btn] ancestor of the target, if any. *)
Record ClickEvent := {
  quickViewBtn : option Button
}.

(** Truthiness of a [dataset] entry: present and not empty. *)
Definition present (v : option string) : bool :=
  match v with
  | Some x => negb (String.eqb x EmptyString)
  | None => false
  end.

(** [#handleQuickViewClick(event)] *)
Definition handleQuickViewClick (event : ClickEvent) (net : Network) (s : State)
  : State :=
  match quickViewBtn event with
  | None => s
  | Some btn =>
      let s := call PreventDefault s in
      let s := call StopPropagation s in
      let productId := dataset_productId btn in
      let productHandle := dataset_productHandle btn in
      if negb (present productId) || negb (present productHandle) then s else
      let s := loadProductData (default EmptyString productHandle) net s in
      call ShowDialog s
  end.

(** What the drawer shows for a product: its markup, or the error state
    when building the markup throws. *)
Definition rendered (productData : ProductData) : string :=
  match buildProductContent productData with
  | Ok content => content
  | Throw _ => error_markup
  end.

(** The [console.error] call of the [catch] block when building the
    markup throws. *)
Definition render_errors (productData : ProductData) : list Call :=
  match buildProductContent productData with
  | Ok _ => []
  | Throw _ => [ConsoleError]
  end.

End Drawer.

(** The URLs fetched so far, oldest first. *)
Definition fetches (s : State) : list string :=
  omap (fun c => match c with
                 | Fetch url => Some url
                 | _ => None
                 end) (calls s).

End QuickView.

(** ** Quick-view quantity selector ([#initializeQuantitySelector]) *)

Module Quantity.

(** The state is the [value] of the [.quantity-input] element, a string.
    [#buildProductContent] renders it with [value="1" min="1" max="999"]. *)
Definition initial_value : string := "1".

(** Click listener of the [.quantity-minus] button. *)
Definition minus_click (value : string) : string :=
  let currentValue := JS.or_one (JS.parseInt value) in
  if 1 <? currentValue then JS.string_of_Z (currentValue - 1) else value.

(** Click listener of the [.quantity-plus] button. *)
Definition plus_click (value : string) : string :=
  let currentValue := JS.or_one (JS.parseInt value) in
  if currentValue <? 999 then JS.string_of_Z (currentValue + 1) else value.

Inductive Click := Minus | Plus.

Definition click (c : Click) (value : string) : string :=
  match c with
  | Minus => minus_click value
  | Plus => plus_click value
  end.

(** The clicks are handled one after the other, oldest first. *)
Definition clicks (cs : list Click) (value : string) : string :=
  fold_left (fun v c => click c v) cs value.

(** The number the input holds after a click, when it held [n]. *)
Definition step_number (c : Click) (n : Z) : Z :=
  match c with
  | Minus => if n =? 1 then 1 else n - 1
  | Plus => if n =? 999 then 999 else n + 1
  end.

(** The quantities in range, and whether [parseInt] reads back the
    string of a number. *)
Definition in_range_numbers : list Z := map Z.of_nat (seq 1 999).

Definition reads_back (n : Z) : bool :=
  match JS.parseInt (JS.string_of_Z n) with
  | Some m => m =? n
  | None => false
  end.

End Quantity.

(** ** Quick-view variant picker ([#getSelectedVariant]) *)

Module VariantPicker.
Import JS.

(** A [.quick-view-variant-option] button: its [dataset.value] and
    whether its class list has [selected]. *)
Record OptionButton := {
  data_value : string;
  selected : bool
}.

(** A [.quick-view-variant-group] element: its option buttons in
    document order. *)
Definition Group := list OptionButton.

(** [group.querySelector('.quick-view-variant-option.selected')] *)
Definition selected_option (group : Group) : option OptionButton :=
  List.find selected group.

(** The [forEach] loop filling [selectedOptions]. *)
Definition selectedOptions (variantGroups : list Group) : list string :=
  omap (fun group => data_value <$> selected_option group) variantGroups.

(** [variant.options[index] === option] *)
Definition option_agrees (variant : jsval) (option : string) (index : nat)
  : result bool :=
  opts ← get_prop variant "options";
  x ← get_index opts index;
  Ok (strict_eq_string x option).

(** [selectedOptions.every(...)], from position [index] on. *)
Fixpoint every_from (variant : jsval) (selected : list string) (index : nat)
  : result bool :=
  match selected with
  | [] => Ok true
  | option :: rest =>
      b ← option_agrees variant option index;
      if (b : bool) then every_from variant rest (S index) else Ok false
  end.

(** [variants.find(...)]; [undefined] when no element passes. *)
Fixpoint find_variant (selected : list string) (variants : list jsval)
  : result jsval :=
  match variants with
  | [] => Ok JUndefined
  | variant :: rest =>
      b ← every_from variant selected 0%nat;
      if (b : bool) then Ok variant else find_variant selected rest
  end.

(** [#getSelectedVariant(product)], with the variant groups of the
    drawer; only arrays have a [find] method. *)
Definition getSelectedVariant (variantGroups : list Group)
    (product : QuickView.ProductData) : result jsval :=
  match QuickView.variants product with
  | JArr vs =>
      found ← find_variant (selectedOptions variantGroups) vs;
      Ok (or_else found (nth 0%nat vs JUndefined))
  | _ => Throw "TypeError"
  end.

(** The form [#handleAddToCart] posts to [/cart/add.js]: the id of the
    selected variant and the quantity; [None] when no variant is
    selected. *)
Definition handleAddToCart_form (quantityValue : string)
    (variantGroups : list Group) (product : QuickView.ProductData)
  : result (option (jsval * Z)) :=
  let quantity := or_one (parseInt quantityValue) in
  selectedVariant ← getSelectedVariant variantGroups product;
  if negb (truthy selectedVariant) then Ok None else
  variant_id ← get_prop selectedVariant "id";
  Ok (Some (variant_id, quantity)).

(** The options of a variant object, when it has an array of them. *)
Definition options_of (variant : jsval) : option (list jsval) :=
  match variant with
  | JObj fields =>
      match assoc "options" fields with
      | JArr opts => Some opts
      | _ => None
      end
  | _ => None
  end.

(** A variant object with an array of options. *)
Definition well_formed (variant : jsval) : Prop := is_Some (options_of variant).

(** The variant agrees with the selection at every selected index. *)
Definition agrees (selected : list string) (variant : jsval) : Prop :=
  exists opts, options_of variant = Some opts /\
    forall (index : nat) (option : string),
      selected !! index = Some option -> opts !! index = Some (JStr option).

End VariantPicker.

(** ** Submenu toggle (click listener of [HeaderMenu.connectedCallback]) *)

Module SubmenuToggle.

(** What the listener reads and writes for a clicked
    [.menu-list__link--has-submenu] link: the link's [aria-expanded]
    attribute and, when the link's parent contains a
    [.menu-list__submenu] element, that element's [hidden] attribute.
    An absent attribute is [None]. *)
Record Dom := {
  aria_expanded : option string;
  submenu : option (option string)
}.

Definition string_of_bool (b : bool) : string :=
  if b then "true" else "false".

(** [link.getAttribute('aria-expanded') === 'true'] *)
Definition isExpanded (d : Dom) : bool :=
  match aria_expanded d with
  | Some v => String.eqb v "true"
  | None => false
  end.

(** Whether a submenu is there and carries [hidden]. *)
Definition isHidden (d : Dom) : bool :=
  match submenu d with
  | Some (Some _) => true
  | _ => false
  end.

(** The click listener, for a click inside such a link. *)
Definition click (d : Dom) : Dom :=
  let expanded := isExpanded d in
  {| aria_expanded := Some (string_of_bool (negb expanded));
     submenu :=
       match submenu d with
       | Some hidden => Some (if expanded then Some EmptyString else None)
       | None => None
       end |}.

(** The submenu is hidden exactly when the link is not expanded. *)
Definition consistent (d : Dom) : Prop :=
  match submenu d with
  | Some _ => isHidden d = negb (isExpanded d)
  | None => True
  end.

End SubmenuToggle.

(** ** Header mega-menu: active item and debounced handlers *)

Module MegaMenu.

Definition ACTIVATE_DELAY : Z := 0.
Definition DEACTIVATE_DELAY : Z := 350.

(** A [ref="menuitem"] element, by identity. *)
Definition Item := nat.

(** What [findMenuItem] reads of an element: its [slot], the result of
    [querySelector('[ref="menuitem"]')] on it, and the result of
    [parentElement?.querySelector('[slot="overflow"]')]. *)
#[warnings="-register-all"]
Inductive Element :=
| mkElement (slot : string) (menuitem : option Item) (overflow : option Element).

Definition slot_of (element : Element) : string :=
  match element with
  | mkElement slot _ _ => slot
  end.

(** What [deactivate] reads of [event.relatedTarget]: whether the submenu
    found for an item contains it, and whether it has a
    [.mega-menu__nested] ancestor. *)
Record Related := {
  in_submenu_of : Item -> bool;
  in_nested : bool
}.

(** [target] and [relatedTarget] are [None] when they are not elements. *)
Record Event := {
  target : option Element;
  relatedTarget : option Related
}.

(** The document as a handler finds it when it runs. *)
Record Dom := {
  (** the [offsetHeight] of the [ref="submenu[]"] element found from the
      parent of an item *)
  submenu_offsetHeight : Item -> option Z;
  (** [this.overflowMenu?.offsetHeight] *)
  overflowMenu_offsetHeight : option Z;
  overflowHovered : bool;
  (** [this.dataset.animationDelay] *)
  dataset_animationDelay : option string
}.

(** The host element: attributes, dataset and style properties written
    by the handlers, and the number of [MegaMenuHoverEvent]s dispatched. *)
Record Host := {
  host_ariaExpanded : option string;
  host_animating : bool;
  overflowExpanded : option string;
  submenu_height : option string;
  submenu_opacity : option string;
  hover_events : nat
}.

(** [#state.activeItem], and per item its [ariaExpanded] and whether it
    carries [data-animating]. *)
Record Menu := {
  activeItem : option Item;
  ariaExpanded : gmap Item string;
  animating : gset Item;
  host : Host
}.

Inductive Callback :=
| RunActivateHandler (event : Event)
| RunDeactivate
| StopAnimating (item : Item).

Record Timer := {
  timer_id : nat;
  due : Z;
  callback : Callback
}.

(** The component with the timers of its window: the clock, the pending
    timers, the [timeout] variables of the two debounced functions, and
    the timers that have run, newest first. *)
Record State := {
  menu : Menu;
  now : Z;
  next_timer : nat;
  timers : list Timer;
  activate_timeout : option nat;
  deactivate_timeout : option nat;
  fired : list Timer
}.

Definition set_menu (m : Menu) (s : State) : State :=
  {| menu := m; now := now s; next_timer := next_timer s; timers := timers s;
     activate_timeout := activate_timeout s;
     deactivate_timeout := deactivate_timeout s; fired := fired s |}.

Definition set_timers (ts : list Timer) (s : State) : State :=
  {| menu := menu s; now := now s; next_timer := next_timer s; timers := ts;
     activate_timeout := activate_timeout s;
     deactivate_timeout := deactivate_timeout s; fired := fired s |}.

(** [setTimeout(callback, delay)]: the new timer gets the next id. *)
Definition setTimeout (cb : Callback) (delay : Z) (s : State) : nat * State :=
  let t := {| timer_id := next_timer s; due := now s + delay; callback := cb |} in
  (next_timer s,
   {| menu := menu s; now := now s; next_timer := S (next_timer s);
      timers := timers s ++ [t];
      activate_timeout := activate_timeout s;
      deactivate_timeout := deactivate_timeout s; fired := fired s |}).

(** [clearTimeout(timeout)]: nothing happens for [undefined] or for the
    id of a timer that has run. *)
Definition clearTimeout (timeout : option nat) (s : State) : State :=
  match timeout with
  | Some i =>
      set_timers (List.filter (fun t => negb (timer_id t =? i)%nat) (timers s)) s
  | None => s
  end.

(** Modelled from the spec: [debounce] of [@theme/utilities] is not part
    of the sources; the spec speaks of handlers driven by debounce
    timers.  A debounced function keeps one [timeout] variable; calling
    it clears the pending timer and sets a new one that runs the function
    after the delay, and [cancel] clears the pending timer.  This is the
    debounced [#activateHandler]. *)
Definition debouncedActivateHandler (event : Event) (s : State) : State :=
  let s := clearTimeout (activate_timeout s) s in
  let '(i, s) := setTimeout (RunActivateHandler event) ACTIVATE_DELAY s in
  {| menu := menu s; now := now s; next_timer := next_timer s; timers := timers s;
     activate_timeout := Some i;
     deactivate_timeout := deactivate_timeout s; fired := fired s |}.

(** Modelled from the spec: [cancel] of the debounced
    [#activateHandler] ([debounce] is not part of the sources). *)
Definition debouncedActivateHandler_cancel (s : State) : State :=
  clearTimeout (activate_timeout s) s.

(** Modelled from the spec: the debounced [#deactivate], called without
    argument ([debounce] is not part of the sources). *)
Definition debouncedDeactivate (s : State) : State :=
  let s := clearTimeout (deactivate_timeout s) s in
  let '(i, s) := setTimeout RunDeactivate DEACTIVATE_DELAY s in
  {| menu := menu s; now := now s; next_timer := next_timer s; timers := timers s;
     activate_timeout := activate_timeout s;
     deactivate_timeout := Some i; fired := fired s |}.

(** Modelled from the spec: [cancel] of the debounced [#deactivate]
    ([debounce] is not part of the sources). *)
Definition debouncedDeactivate_cancel (s : State) : State :=
  clearTimeout (deactivate_timeout s) s.

(** [findMenuItem(element)] for an element. *)
Fixpoint findMenuItem_in (element : Element) : option Item :=
  match element with
  | mkElement slot menuitem overflow =>
      if String.eqb slot "more" then
        match overflow with
        | Some e => findMenuItem_in e
        | None => None
        end
      else menuitem
  end.

Definition findMenuItem (element : option Element) : option Item :=
  match element with
  | Some e => findMenuItem_in e
  | None => None
  end.

(** [findSubmenu(element)]: what the handlers use of the submenu found
    for a menu item, its [offsetHeight]; [None] when there is no item or
    no submenu. *)
Definition findSubmenu (dom : Dom) (element : option Item) : option Z :=
  match element with
  | Some item => submenu_offsetHeight dom item
  | None => None
  end.

Definition px (n : Z) : string := JS.string_of_Z n +:+ "px".

(** [activate(event)] *)
Definition activate (event : Event) (s : State) : State :=
  let s := debouncedDeactivate_cancel s in
  let s := debouncedActivateHandler_cancel s in
  debouncedActivateHandler event s.

(** [#activateHandler(event)] *)
Definition activateHandler (event : Event) (dom : Dom) (s : State) : State :=
  let s := debouncedDeactivate_cancel s in
  let m := menu s in
  let h := host m in
  let h1 := {| host_ariaExpanded := host_ariaExpanded h;
               host_animating := false;
               overflowExpanded := overflowExpanded h;
               submenu_height := submenu_height h;
               submenu_opacity := submenu_opacity h;
               hover_events := S (hover_events h) |} in
  let m1 := {| activeItem := activeItem m; ariaExpanded := ariaExpanded m;
               animating := animating m; host := h1 |} in
  match target event with
  | None => set_menu m1 s
  | Some element =>
      match findMenuItem (Some element) with
      | None => set_menu m1 s
      | Some item =>
          if decide (Some item = activeItem m) then set_menu m1 s else
          let isDefaultSlot := String.eqb (slot_of element) EmptyString in
          let previouslyActiveItem := activeItem m in
          let aria1 :=
            match previouslyActiveItem with
            | Some prev => <[prev := "false"]> (ariaExpanded m)
            | None => ariaExpanded m
            end in
          let submenu := findSubmenu dom (Some item) in
          let overflowMenuHeight := default 0 (overflowMenu_offsetHeight dom) in
          let submenu :=
            match submenu with
            | None => if negb isDefaultSlot then overflowMenu_offsetHeight dom else None
            | Some _ => submenu
            end in
          let submenuHeight :=
            match submenu with
            | Some offsetHeight => Z.max offsetHeight overflowMenuHeight
            | None => 0
            end in
          set_menu
            {| activeItem := Some item;
               ariaExpanded := <[item := "true"]> aria1;
               animating := animating m;
               host := {| host_ariaExpanded := Some "true";
                          host_animating := false;
                          overflowExpanded :=
                            Some (SubmenuToggle.string_of_bool (negb isDefaultSlot));
                          submenu_height := Some (px submenuHeight);
                          submenu_opacity := Some "1";
                          hover_events := S (hover_events h) |} |} s
      end
  end.

(** [deactivate(event)] *)
Definition deactivate (event : Event) (dom : Dom) (s : State) : State :=
  let s := debouncedActivateHandler_cancel s in
  match target event with
  | None => s
  | Some element =>
      let item := findMenuItem (Some element) in
      let submenu := findSubmenu dom item in
      let related := relatedTarget event in
      let in_submenu :=
        match item, submenu, related with
        | Some i, Some _, Some r => in_submenu_of r i
        | _, _, _ => false
        end in
      let nested :=
        match related with
        | Some r => in_nested r
        | None => false
        end in
      if in_submenu || nested then s else
      if decide (item = activeItem (menu s)) then debouncedDeactivate s else s
  end.

(** The [animationDelay] getter; [None] is [NaN]. *)
Definition animationDelay (dom : Dom) : option Z :=
  match dataset_animationDelay dom with
  | Some value =>
      if String.eqb value EmptyString then Some 0 else JS.parseInt_radix true value
  | None => Some 0
  end.

(** [#deactivate(item)]; the debounced function calls it without
    argument, so [item] defaults to the active item. *)
Definition deactivate_now (item : option Item) (dom : Dom) (s : State) : State :=
  match item with
  | None => s
  | Some i =>
      if decide (item = activeItem (menu s)) then
        if overflowHovered dom then s else
        let m := menu s in
        let h := host m in
        let s :=
          set_menu
            {| activeItem := None;
               ariaExpanded := <[i := "false"]> (ariaExpanded m);
               animating := {[i]} ∪ animating m;
               host := {| host_ariaExpanded := Some "false";
                          host_animating := host_animating h;
                          overflowExpanded := Some "false";
                          submenu_height := Some "0px";
                          submenu_opacity := Some "0";
                          hover_events := hover_events h |} |} s in
        let delay :=
          match animationDelay dom with
          | Some d => Z.max 0 (d - 150)
          | None => 0
          end in
        (setTimeout (StopAnimating i) delay s).2
      else s
  end.

(** The callback of the timer set by [#deactivate]. *)
Definition stop_animating (item : Item) (s : State) : State :=
  let m := menu s in
  set_menu {| activeItem := activeItem m; ariaExpanded := ariaExpanded m;
              animating := animating m ∖ {[item]}; host := host m |} s.

Definition run_callback (cb : Callback) (dom : Dom) (s : State) : State :=
  match cb with
  | RunActivateHandler event => activateHandler event dom s
  | RunDeactivate => deactivate_now (activeItem (menu s)) dom s
  | StopAnimating item => stop_animating item s
  end.

(** A pending timer starts running: it leaves the pending timers and
    is recorded as run. *)
Definition firing (t : Timer) (s : State) : State :=
  {| menu := menu s; now := now s; next_timer := next_timer s;
     timers := List.filter (fun t' => negb (timer_id t' =? timer_id t)%nat) (timers s);
     activate_timeout := activate_timeout s;
     deactivate_timeout := deactivate_timeout s;
     fired := t :: fired s |}.

(** What happens to the component: calls of its public methods, the
    pointer listeners of [connectedCallback] running (with whether the
    target has a [.menu-list__submenu] ancestor; which events run them
    is the matter of [PointerDispatch] below), the passing of time, and
    a pending timer running. *)
Inductive Input :=
| CallActivate (event : Event)
| CallDeactivate (event : Event)
| OverflowPointerLeave
| PointerEnter (in_submenu : bool)
| PointerLeave (in_submenu : bool)
| Elapse (ms : Z)
| Fire (id : nat).

Definition is_fire (i : Input) : bool :=
  match i with
  | Fire _ => true
  | _ => false
  end.

Definition is_call (i : Input) : bool :=
  match i with
  | Elapse _ | Fire _ => false
  | _ => true
  end.

(** One step; [None] when the input cannot happen: time does not go
    back, and a timer runs only when it is pending and due.  Due timers
    may run late and in any order. *)
Definition step (dom : Dom) (i : Input) (s : State) : option State :=
  match i with
  | CallActivate event => Some (activate event s)
  | CallDeactivate event => Some (deactivate event dom s)
  | OverflowPointerLeave => Some (debouncedDeactivate s)
  | PointerEnter in_submenu =>
      Some (if in_submenu then debouncedDeactivate_cancel s else s)
  | PointerLeave in_submenu =>
      Some (if in_submenu then debouncedDeactivate s else s)
  | Elapse ms =>
      if 0 <=? ms then
        Some {| menu := menu s; now := now s + ms; next_timer := next_timer s;
                timers := timers s;
                activate_timeout := activate_timeout s;
                deactivate_timeout := deactivate_timeout s; fired := fired s |}
      else None
  | Fire i =>
      match List.find (fun t => (timer_id t =? i)%nat) (timers s) with
      | Some t =>
          if due t <=? now s then Some (run_callback (callback t) dom (firing t s))
          else None
      | None => None
      end
  end.

(** A run: each input with the document of its time. *)
Fixpoint run (inputs : list (Dom * Input)) (s : State) : option State :=
  match inputs with
  | [] => Some s
  | (dom, i) :: rest =>
      match step dom i s with
      | Some s' => run rest s'
      | None => None
      end
  end.

(** The component when it is connected: no active item, no item
    expanded, no timer. *)
Definition initial (s : State) : Prop :=
  activeItem (menu s) = None /\
  (forall i : Item, ariaExpanded (menu s) !! i <> Some "true") /\
  timers s = [] /\ fired s = [].

Inductive reachable : State -> Prop :=
| reachable_initial s : initial s -> reachable s
| reachable_step s dom i s' :
    reachable s -> step dom i s = Some s' -> reachable s'.

(** At most one item has [ariaExpanded] ['true']. *)
Definition at_most_one_expanded (m : Menu) : Prop :=
  forall i j : Item,
    ariaExpanded m !! i = Some "true" ->
    ariaExpanded m !! j = Some "true" -> i = j.

(** An item with [ariaExpanded] ['true'] is the active item. *)
Definition menu_ok (m : Menu) : Prop :=
  forall i : Item, ariaExpanded m !! i = Some "true" -> activeItem m = Some i.

(** A timer is known to the window: pending or already run. *)
Definition known (t : Timer) (s : State) : Prop :=
  In t (timers s) \/ In t (fired s).

(** The timers of a state are consistent: ids are below the next id, a
    pending timer has not run, the pending timer of a debounced function
    is the one its [timeout] variable names, and a timer that has run was
    due. *)
Record timers_ok (s : State) : Prop := {
  ids_below : forall t, known t s -> (timer_id t < next_timer s)%nat;
  pending_not_fired :
    forall t t', In t (timers s) -> In t' (fired s) -> timer_id t <> timer_id t';
  activate_pending :
    forall t event, In t (timers s) -> callback t = RunActivateHandler event ->
      activate_timeout s = Some (timer_id t);
  deactivate_pending :
    forall t, In t (timers s) -> callback t = RunDeactivate ->
      deactivate_timeout s = Some (timer_id t);
  fired_due : forall t, In t (fired s) -> due t <= now s
}.

(** From [s] to [s'] no timer has run, and every new pending timer has a
    fresh id and a callback in [A]. *)
Definition grows (A : Callback -> Prop) (s s' : State) : Prop :=
  (next_timer s <= next_timer s')%nat /\
  fired s' = fired s /\
  now s' = now s /\
  forall t, In t (timers s') ->
    In t (timers s) \/
    ((next_timer s <= timer_id t)%nat /\ A (callback t)).

(** The callbacks of the two debounced functions. *)
Definition debounced (cb : Callback) : bool :=
  match cb with
  | StopAnimating _ => false
  | _ => true
  end.

Definition is_stop_animating (cb : Callback) : Prop :=
  exists item, cb = StopAnimating item.


End MegaMenu.

(** ** Concrete documents and states used in the examples *)

Module Examples.
Import JS.

(** A link marked as collapsed whose submenu is shown. *)
Definition collapsed_but_shown : SubmenuToggle.Dom :=
  {| SubmenuToggle.aria_expanded := Some "false";
     SubmenuToggle.submenu := Some None |}.

(** A collapsed link with a hidden submenu. *)
Definition collapsed_and_hidden : SubmenuToggle.Dom :=
  {| SubmenuToggle.aria_expanded := Some "false";
     SubmenuToggle.submenu := Some (Some EmptyString) |}.

Definition variant_small : jsval :=
  JObj [("id", JNum 101); ("options", JArr [JStr "S"; JStr "Red"])].

Definition variant_large : jsval :=
  JObj [("id", JNum 102); ("options", JArr [JStr "L"; JStr "Red"])].

(** Two option groups, with L and Blue selected. *)
Definition groups_L_Blue : list VariantPicker.Group :=
  [ [ {| VariantPicker.data_value := "S"; VariantPicker.selected := false |};
      {| VariantPicker.data_value := "L"; VariantPicker.selected := true |} ];
    [ {| VariantPicker.data_value := "Red"; VariantPicker.selected := false |};
      {| VariantPicker.data_value := "Blue"; VariantPicker.selected := true |} ] ].

Definition mug : jsval :=
  JObj [("id", JNum 7); ("title", JStr "Mug"); ("price", JNum 1999);
        ("images", JArr [JStr "/mug-front.png"; JStr "/mug-back.png"]);
        ("variants", JArr [variant_small; variant_large]);
        ("handle", JStr "mug")].


(** What [#extractProductData] makes of [mug]. *)
Definition mug_data : QuickView.ProductData :=
  {| QuickView.id := JNum 7;
     QuickView.title := JStr "Mug";
     QuickView.description := JUndefined;
     QuickView.price := JNum 1999;
     QuickView.compare_at_price := JUndefined;
     QuickView.available := JUndefined;
     QuickView.images := JArr [JStr "/mug-front.png"; JStr "/mug-back.png"];
     QuickView.variants := JArr [variant_small; variant_large];
     QuickView.options := JArr [];
     QuickView.handle := JStr "mug" |}.

(** A platform that parses one JSON text and prints whole cents. *)
Definition platform : QuickView.Platform :=
  {| QuickView.JSON_parse := fun text =>
       if String.eqb text "mug.json" then Ok mug else Throw "SyntaxError";
     QuickView.cents_toFixed2 := fun v =>
       match v with
       | JNum n =>
           string_of_Z (n / 100) +:+ "." +:+
           string_of_Z (n mod 100 / 10) +:+ string_of_Z (n mod 10)
       | _ => "NaN"
       end;
     QuickView.greater := fun a b =>
       match a, b with
       | JNum x, JNum y => y <? x
       | _, _ => false
       end |}.

Definition mug_page : QuickView.Document :=
  {| QuickView.data_product_json := Some "mug.json" |}.

Definition bare_page : QuickView.Document :=
  {| QuickView.data_product_json := None |}.

(** A shop that serves the mug, a page without product data for the
    handle [bare], and answers 404 otherwise. *)
Definition shop : QuickView.Network := fun url =>
  if String.eqb url "/products/mug?view=quick-view" then
    Some {| QuickView.ok := true; QuickView.body := Some mug_page |}
  else if String.eqb url "/products/bare?view=quick-view" then
    Some {| QuickView.ok := true; QuickView.body := Some bare_page |}
  else Some {| QuickView.ok := false; QuickView.body := None |}.

(** A network that is down. *)
Definition offline : QuickView.Network := fun _ => None.

Definition closed_drawer : QuickView.State :=
  {| QuickView.cachedContent := ∅;
     QuickView.drawerContent := EmptyString;
     QuickView.calls := [] |}.

(** A quick-view button that carries a product id and no handle. *)
Definition button_without_handle : QuickView.Button :=
  {| QuickView.dataset_productId := Some "7";
     QuickView.dataset_productHandle := None |}.

Definition mug_button : QuickView.Button :=
  {| QuickView.dataset_productId := Some "7";
     QuickView.dataset_productHandle := Some "mug" |}.

Definition quiet_dom : MegaMenu.Dom :=
  {| MegaMenu.submenu_offsetHeight := fun _ => Some 120;
     MegaMenu.overflowMenu_offsetHeight := None;
     MegaMenu.overflowHovered := false;
     MegaMenu.dataset_animationDelay := None |}.

(** The same document with the pointer over the overflow menu. *)
Definition hovered_dom : MegaMenu.Dom :=
  {| MegaMenu.submenu_offsetHeight := fun _ => Some 120;
     MegaMenu.overflowMenu_offsetHeight := None;
     MegaMenu.overflowHovered := true;
     MegaMenu.dataset_animationDelay := None |}.

(** A pointer event on the list item of menu item [i]. *)
Definition pointer_on (i : MegaMenu.Item) : MegaMenu.Event :=
  {| MegaMenu.target := Some (MegaMenu.mkElement EmptyString (Some i) None);
     MegaMenu.relatedTarget := None |}.

Definition closed_menu : MegaMenu.State :=
  {| MegaMenu.menu :=
       {| MegaMenu.activeItem := None;
          MegaMenu.ariaExpanded := ∅;
          MegaMenu.animating := ∅;
          MegaMenu.host :=
            {| MegaMenu.host_ariaExpanded := None;
               MegaMenu.host_animating := false;
               MegaMenu.overflowExpanded := None;
               MegaMenu.submenu_height := None;
               MegaMenu.submenu_opacity := None;
               MegaMenu.hover_events := 0%nat |} |};
     MegaMenu.now := 0;
     MegaMenu.next_timer := 0%nat;
     MegaMenu.timers := [];
     MegaMenu.activate_timeout := None;
     MegaMenu.deactivate_timeout := None;
     MegaMenu.fired := [] |}.

(** The menu after the pointer entered item 1 and the activation ran. *)
Definition first_item_open : MegaMenu.State :=
  default closed_menu
    (MegaMenu.run [(quiet_dom, MegaMenu.CallActivate (pointer_on 1%nat));
                   (quiet_dom, MegaMenu.Fire 0%nat)] closed_menu).

(** Item 1 is open and the pointer has just left the overflow menu: a
    deactivation is pending. *)
Definition pointer_left : MegaMenu.State :=
  MegaMenu.debouncedDeactivate first_item_open.

Definition pending_deactivation : MegaMenu.Timer :=
  {| MegaMenu.timer_id := 1;
     MegaMenu.due := 350;
     MegaMenu.callback := MegaMenu.RunDeactivate |}.

End Examples.

(** ** Decimal strings *)

Module Decimal10.

(** The number a string of decimal digits denotes, read after [acc]. *)
Fixpoint uint_value (d : Decimal.uint) (acc : Z) : Z :=
  match d with
  | Decimal.Nil => acc
  | Decimal.D0 l => uint_value l (10 * acc + 0)
  | Decimal.D1 l => uint_value l (10 * acc + 1)
  | Decimal.D2 l => uint_value l (10 * acc + 2)
  | Decimal.D3 l => uint_value l (10 * acc + 3)
  | Decimal.D4 l => uint_value l (10 * acc + 4)
  | Decimal.D5 l => uint_value l (10 * acc + 5)
  | Decimal.D6 l => uint_value l (10 * acc + 6)
  | Decimal.D7 l => uint_value l (10 * acc + 7)
  | Decimal.D8 l => uint_value l (10 * acc + 8)
  | Decimal.D9 l => uint_value l (10 * acc + 9)
  end.

(** The string does not go on with a decimal digit. *)
Definition stops (rest : string) : Prop :=
  match rest with
  | EmptyString => True
  | String c _ => JS.digit_val 10 c = None
  end.

End Decimal10.

(** ** Quick-view drawer: what can be rendered, and what a click leaves behind *)

Module QuickViewMore.
Import JS QuickView.

(** The images [#buildMediaGallery] can handle: falsy, of length zero, or
    an array. *)
Definition renderable_images (images : jsval) : Prop :=
  truthy images = false \/ length_is_zero images = Ok true \/
  exists items, images = JArr items.

(** An option [#buildVariantOptions] can handle: not [null], with an
    array of values. *)
Definition renderable_option (option : jsval) : Prop :=
  exists values, get_prop option "values" = Ok (JArr values).

Definition renderable_options (options : jsval) : Prop :=
  truthy options = false \/ length_is_zero options = Ok true \/
  exists opts, options = JArr opts /\ Forall renderable_option opts.

(** The click reaches a quick-view button with a product id and a
    product handle. *)
Definition complete (event : ClickEvent) : bool :=
  match quickViewBtn event with
  | Some btn => present (dataset_productId btn) && present (dataset_productHandle btn)
  | None => false
  end.

Definition is_ShowDialog (c : Call) : bool :=
  match c with
  | ShowDialog => true
  | _ => false
  end.

(** How often the dialog has been shown. *)
Definition shown (s : State) : nat := length (List.filter is_ShowDialog (calls s)).

(** Every cached handle has been fetched. *)
Definition cache_fetched (s : State) : Prop :=
  forall h : string,
    is_Some (cachedContent s !! h) -> In (product_url h) (fetches s).

End QuickViewMore.

(** ** Quick-view drawer: loads that await their response *)

Module QuickViewAsync.
Import JS QuickView QuickViewMore.

(** A call of [#loadProductData] that awaits the response to its fetch:
    its handle, and whether [#handleQuickViewClick] made the call and
    shows the dialog when the load has ended. *)
Record Awaiting := {
  awaited_handle : string;
  from_click : bool
}.

(** The drawer and the loads that await their response, oldest first. *)
Record State := {
  drawer : QuickView.State;
  awaiting : list Awaiting
}.

Section Loads.
Variable P : Platform.

(** The rest of the [try] block once the product data is there, with
    the [catch] block. *)
Definition show_product (productData : ProductData) (d : QuickView.State)
  : QuickView.State :=
  match updateDrawerContent P productData d with
  | Ok d' => d'
  | Throw _ => catch_error d
  end.

(** The load has ended: a click handler that awaited it shows the
    dialog. *)
Definition finish (from_click : bool) (d : QuickView.State) : QuickView.State :=
  if from_click then call ShowDialog d else d.

(** [#loadProductData(productHandle)] up to [await fetch(...)]; when the
    handle is in the cache there is no [await] and the load runs to its
    end. *)
Definition start_load (productHandle : string) (from_click : bool) (s : State)
  : State :=
  let d := showLoading (drawer s) in
  match cachedContent d !! productHandle with
  | Some productData =>
      {| drawer := finish from_click (show_product productData d);
         awaiting := awaiting s |}
  | None =>
      {| drawer := call (Fetch (product_url productHandle)) d;
         awaiting := awaiting s ++ [{| awaited_handle := productHandle;
                                       from_click := from_click |}] |}
  end.

(** [#loadProductData] from the answer of the network on: the response
    and its text arrive, or one of the two is rejected.  Between [fetch]
    and this point the load touches neither the cache nor the drawer. *)
Definition settle_load (a : Awaiting) (net : Network) (d : QuickView.State)
  : QuickView.State :=
  finish (from_click a)
    match fetchProductData P (awaited_handle a) net with
    | Throw _ => catch_error d
    | Ok productData =>
        show_product productData
          (set_cachedContent
             (<[awaited_handle a := productData]> (cachedContent d)) d)
    end.

(** [#handleQuickViewClick(event)] up to the first [await]. *)
Definition click (event : ClickEvent) (s : State) : State :=
  match quickViewBtn event with
  | None => s
  | Some btn =>
      let d := call StopPropagation (call PreventDefault (drawer s)) in
      let productId := dataset_productId btn in
      let productHandle := dataset_productHandle btn in
      let s := {| drawer := d; awaiting := awaiting s |} in
      if negb (present productId) || negb (present productHandle) then s else
      start_load (default EmptyString productHandle) true s
  end.

(** What happens to the drawer: a call of [#loadProductData], a click,
    and the network answering the load that is [n]-th in the list of
    those that wait.  Answers arrive in any order. *)
Inductive Input :=
| Load (productHandle : string)
| Click (event : ClickEvent)
| Settle (n : nat) (net : Network).

(** One step; [None] when no load waits at position [n]. *)
Definition step (i : Input) (s : State) : option State :=
  match i with
  | Load productHandle => Some (start_load productHandle false s)
  | Click event => Some (click event s)
  | Settle n net =>
      match awaiting s !! n with
      | Some a =>
          Some {| drawer := settle_load a net (drawer s);
                  awaiting := delete n (awaiting s) |}
      | None => None
      end
  end.

Fixpoint run (inputs : list Input) (s : State) : option State :=
  match inputs with
  | [] => Some s
  | i :: rest =>
      match step i s with
      | Some s' => run rest s'
      | None => None
      end
  end.

End Loads.

(** No load of the handle awaits its response. *)
Definition no_load_of (productHandle : string) (l : list Awaiting) : Prop :=
  Forall (fun a => awaited_handle a <> productHandle) l.

(** The URL of every load that waits has been fetched. *)
Definition awaiting_fetched (s : State) : Prop :=
  forall a, In a (awaiting s) ->
    In (product_url (awaited_handle a)) (fetches (drawer s)).

(** The calls of [#loadProductData] that an input makes: one for a
    direct call and one for a click on a button with a product id and a
    handle. *)
Definition starts (i : Input) : nat :=
  match i with
  | Load _ => 1
  | Click event => if complete event then 1 else 0
  | Settle _ _ => 0
  end.

Definition complete_click (i : Input) : nat :=
  match i with
  | Click event => if complete event then 1 else 0
  | _ => 0
  end.

(** The clicks whose load still waits. *)
Definition waiting_clicks (s : State) : nat :=
  length (List.filter from_click (awaiting s)).

(** A drawer in which no load waits. *)
Definition idle (d : QuickView.State) : State :=
  {| drawer := d; awaiting := [] |}.

End QuickViewAsync.

(** ** Quick-view variant picker: selecting options ([#initializeVariantPicker]) *)

Module VariantPickerDom.
Import JS VariantPicker.

Definition select (b : OptionButton) : OptionButton :=
  {| data_value := data_value b; selected := true |}.

Definition deselect (b : OptionButton) : OptionButton :=
  {| data_value := data_value b; selected := false |}.

(** The end of [#initializeVariantPicker]: in each group the option that
    is the first child of its parent gets the class [selected]. *)
Definition select_first (group : list OptionButton) : list OptionButton :=
  match group with
  | first :: rest => select first :: rest
  | [] => []
  end.

Definition initializeVariantPicker (variantGroups : list (list OptionButton)) : list (list OptionButton) :=
  map select_first variantGroups.

(** The class changes of the click listener of an option: every option of
    the group of the target loses [selected], then the target gets it. *)
Definition select_only (k : nat) (group : list OptionButton) : list OptionButton :=
  alter select k (deselect <$> group).

(** A click on option [k] of group [g]; a click can only reach an option
    that is there. *)
Definition click_option (g k : nat) (variantGroups : list (list OptionButton)) : list (list OptionButton) :=
  match variantGroups !! g with
  | Some group =>
      if decide (k < length group)%nat
      then <[g := select_only k group]> variantGroups
      else variantGroups
  | None => variantGroups
  end.

Definition click_options (clicks : list (nat * nat)) (variantGroups : list (list OptionButton))
  : list (list OptionButton) :=
  fold_left (fun groups c => click_option c.1 c.2 groups) clicks variantGroups.

(** The add-to-cart button: its [disabled] property and the text of its
    [.add-to-cart-text] element. *)
Record CartButton := {
  disabled : bool;
  text : string
}.

(** [#updateSelectedVariant(product)] *)
Definition updateSelectedVariant (variantGroups : list (list OptionButton))
    (product : QuickView.ProductData) (addToCartBtn : CartButton)
  : result CartButton :=
  selectedVariant ← getSelectedVariant variantGroups product;
  if truthy selectedVariant then
    available ← get_prop selectedVariant "available";
    Ok {| disabled := negb (truthy available);
          text := if truthy available then "Add to Cart" else "Sold Out" |}
  else Ok addToCartBtn.

(** Exactly option [k] of the group is selected. *)
Definition only_selected (k : nat) (group : list OptionButton) : Prop :=
  (k < length group)%nat /\
  forall (i : nat) (b : OptionButton),
    group !! i = Some b -> selected b = bool_decide (i = k).

(** No option of the group is selected, as in fresh markup. *)
Definition unselected (group : list OptionButton) : Prop :=
  Forall (fun b => selected b = false) group.

(** The values of the options, group by group. *)
Definition option_values (groups : list (list OptionButton)) : list (list string) :=
  (fun group : list OptionButton => data_value <$> group) <$> groups.

(** A group of fresh or clicked markup: without options, or with exactly
    one selected option. *)
Definition picked (group : list OptionButton) : Prop :=
  group = [] \/ exists k, only_selected k group.

End VariantPickerDom.

(** ** Quick-view drawer: swipe to close ([#setupSwipeToClose]) *)

Module Swipe.

(** [clientY] positions are floating point numbers.  The listeners
    subtract two of them, compare the difference with 0 and with 100,
    and print it into the style of the dialog; these operations are
    those of the platform. *)
Record Platform := {
  number : Type;
  (** the number [0] *)
  zero : number;
  (** [a - b] *)
  minus : number -> number -> number;
  (** [deltaY > 0] *)
  is_positive : number -> bool;
  (** [deltaY > 100] *)
  exceeds_100 : number -> bool;
  (** [`translateY(${deltaY}px)`] *)
  translateY : number -> string;
  (** [`${1 - progress * 0.5}`] with [progress = Math.min(deltaY / 200, 1)] *)
  opacity_of : number -> string
}.

(** The variables of the closure, the two style properties of the dialog
    that the listeners write, and how often [closeDialog] was called. *)
Record State (P : Platform) := {
  startY : number P;
  currentY : number P;
  isDragging : bool;
  style_transform : string;
  style_opacity : string;
  closeDialog_calls : nat
}.
Arguments startY {P} s.
Arguments currentY {P} s.
Arguments isDragging {P} s.
Arguments style_transform {P} s.
Arguments style_opacity {P} s.
Arguments closeDialog_calls {P} s.

Inductive TouchEvent (P : Platform) :=
| TouchStart (clientY : number P)
| TouchMove (clientY : number P)
| TouchEnd.
Arguments TouchStart {P} clientY.
Arguments TouchMove {P} clientY.
Arguments TouchEnd {P}.

Section Listeners.
Variable P : Platform.

(** The closure when the listeners are set up, with the style of the
    dialog still empty. *)
Definition initial : State P :=
  {| startY := zero P; currentY := zero P; isDragging := false;
     style_transform := EmptyString; style_opacity := EmptyString;
     closeDialog_calls := 0 |}.

Definition handleTouchStart (clientY : number P) (s : State P) : State P :=
  {| startY := clientY; currentY := currentY s; isDragging := true;
     style_transform := style_transform s; style_opacity := style_opacity s;
     closeDialog_calls := closeDialog_calls s |}.

Definition handleTouchMove (clientY : number P) (s : State P) : State P :=
  if negb (isDragging s) then s else
  let deltaY := minus P clientY (startY s) in
  if is_positive P deltaY then
    {| startY := startY s; currentY := clientY; isDragging := true;
       style_transform := translateY P deltaY;
       style_opacity := opacity_of P deltaY;
       closeDialog_calls := closeDialog_calls s |}
  else
    {| startY := startY s; currentY := clientY; isDragging := true;
       style_transform := style_transform s; style_opacity := style_opacity s;
       closeDialog_calls := closeDialog_calls s |}.

Definition handleTouchEnd (s : State P) : State P :=
  if negb (isDragging s) then s else
  let deltaY := minus P (currentY s) (startY s) in
  if exceeds_100 P deltaY then
    {| startY := startY s; currentY := currentY s; isDragging := false;
       style_transform := style_transform s; style_opacity := style_opacity s;
       closeDialog_calls := S (closeDialog_calls s) |}
  else
    {| startY := startY s; currentY := currentY s; isDragging := false;
       style_transform := EmptyString; style_opacity := EmptyString;
       closeDialog_calls := closeDialog_calls s |}.

Definition handle (e : TouchEvent P) (s : State P) : State P :=
  match e with
  | TouchStart y => handleTouchStart y s
  | TouchMove y => handleTouchMove y s
  | TouchEnd => handleTouchEnd s
  end.

Definition handle_all (es : list (TouchEvent P)) (s : State P) : State P :=
  fold_left (fun st e => handle e st) es s.

(** One finger put down at [y0] and moved through the given
    positions. *)
Definition touch (y0 : number P) (moves : list (number P)) : list (TouchEvent P) :=
  TouchStart y0 :: map TouchMove moves.

(** The same touch, and the finger lifted. *)
Definition gesture (y0 : number P) (moves : list (number P)) : list (TouchEvent P) :=
  (touch y0 moves ++ [TouchEnd])%list.

(** The style the listeners leave: both properties empty, or both
    written for one difference that is greater than 0. *)
Definition style_ok (s : State P) : Prop :=
  (style_transform s = EmptyString /\ style_opacity s = EmptyString) \/
  exists deltaY : number P,
    is_positive P deltaY = true /\
    style_transform s = translateY P deltaY /\
    style_opacity s = opacity_of P deltaY.

End Listeners.

End Swipe.

(** ** Header menu: what holds between the item, the host and the timers *)

Module MegaMenuMore.
Import MegaMenu.

(** The active item is expanded, and with it the host, which shows the
    submenu. *)
Definition synced (m : Menu) : Prop :=
  forall i : Item, activeItem m = Some i ->
    ariaExpanded m !! i = Some "true" /\
    host_ariaExpanded (host m) = Some "true" /\
    submenu_opacity (host m) = Some "1".

(** The component as its constructor leaves it: initial, no item carries
    [data-animating], and neither debounced function has been called. *)
Definition connected (s : State) : Prop :=
  initial s /\ animating (menu s) = ∅ /\
  activate_timeout s = None /\ deactivate_timeout s = None.

(** The [timeout] variable of a debounced function names no timer of
    another kind, pending timers have distinct ids below the next id, and
    every item that carries [data-animating] has a pending timer that
    removes it. *)
Record animating_ok (s : State) : Prop := {
  pending_below : forall t, In t (timers s) -> (timer_id t < next_timer s)%nat;
  pending_distinct :
    forall t t', In t (timers s) -> In t' (timers s) ->
      timer_id t = timer_id t' -> t = t';
  timeout_debounced :
    forall id, activate_timeout s = Some id \/ deactivate_timeout s = Some id ->
      (id < next_timer s)%nat /\
      forall t, In t (timers s) -> timer_id t = id -> debounced (callback t) = true;
  animating_pending :
    forall i : Item, i ∈ animating (menu s) ->
      exists t, In t (timers s) /\ callback t = StopAnimating i
}.

(** The test of [deactivate] for a pointer that stays inside: the
    related target is in the submenu found for the item of the target,
    or in a [.mega-menu__nested] list. *)
Definition stays_inside (event : Event) (dom : Dom) : bool :=
  let item := findMenuItem (target event) in
  let submenu := findSubmenu dom item in
  let related := relatedTarget event in
  match item, submenu, related with
  | Some i, Some _, Some r => in_submenu_of r i
  | _, _, _ => false
  end
  || match related with
     | Some r => in_nested r
     | None => false
     end.

End MegaMenuMore.

(** ** Header menu: which pointer events reach the listeners *)

Module PointerDispatch.
Import MegaMenu.

(** The element a [pointerenter] or [pointerleave] event is dispatched
    at: the host, the overflow menu, or another element; [in_submenu]
    says whether the element has a [.menu-list__submenu] ancestor or is
    one. *)
Inductive Target :=
| Host (in_submenu : bool)
| OverflowMenu
| Other (in_submenu : bool).

Inductive PointerEvent :=
| PointerEnterAt (target : Target)
| PointerLeaveAt (target : Target).

(** The listener of [connectedCallback] that an event runs.
    [pointerenter] and [pointerleave] do not bubble and the listeners
    are registered without [capture], so a listener runs only for an
    event dispatched at the element it is registered on: the host has
    one for each of the two events, the overflow menu one for
    [pointerleave]. *)
Definition listener (e : PointerEvent) : option Input :=
  match e with
  | PointerEnterAt (Host in_submenu) => Some (PointerEnter in_submenu)
  | PointerLeaveAt (Host in_submenu) => Some (PointerLeave in_submenu)
  | PointerLeaveAt OverflowMenu => Some OverflowPointerLeave
  | _ => None
  end.

(** The event is dispatched: its listener runs, if there is one. *)
Definition dispatch (dom : Dom) (e : PointerEvent) (s : State) : option State :=
  match listener e with
  | Some i => step dom i s
  | None => Some s
  end.

End PointerDispatch.

(** ** Header menu: nested lists of the mega menu *)

Module NestedMenu.

(** The inline style properties of a nested list that the component
    writes. *)
Record Style := {
  position : string;
  left : string;
  top : string;
  minWidth : string;
  zIndex : string;
  maxHeight : string;
  overflow : string;
  display : string;
  visibility : string
}.

(** A nested list, found by its id: whether it carries [hidden], and
    its inline style. *)
Record ListElement := {
  hidden : bool;
  style : Style
}.

(** A [.mega-menu__link--parent] element. *)
Record LinkElement := {
  aria_controls : option string;
  aria_expanded : option string
}.

Definition Link := nat.

(** What [getBoundingClientRect()] gives for the [li] of a link. *)
Record Rect := {
  rect_left : Q;
  rect_right : Q;
  rect_top : Q
}.

(** The layout when a handler runs: the rectangle of the closest [li] of
    a link ([None] without such an ancestor), [offsetWidth] and
    [offsetHeight] of a list shown as a block, and the size of the
    window. *)
Record Layout := {
  li_rect : Link -> option Rect;
  offsetWidth : string -> Z;
  offsetHeight : string -> Z;
  innerWidth : Z;
  innerHeight : Z
}.

(** The links and the lists inside the component, [#openNested], and
    how often a click had [preventDefault] and [stopPropagation]
    called. *)
Record State := {
  links : gmap Link LinkElement;
  lists : gmap string ListElement;
  openNested : option (Link * string);
  prevented : nat
}.

(** [Math.round(x)] *)
Definition round (x : Q) : Z := Qfloor (x + (1 # 2)).

Definition px (n : Z) : string := JS.string_of_Z n +:+ "px".

Definition margin : Z := 8.

(** [Math.max(list.offsetWidth || 0,
              parseInt(list.style.minWidth || '0', 10) || 0, 220)] *)
Definition nestedWidth_of (layout : Layout) (id : string) (l : ListElement) : Z :=
  let min_width :=
    if String.eqb (minWidth (style l)) EmptyString then "0" else minWidth (style l) in
  Z.max (Z.max (offsetWidth layout id) (default 0 (JS.parseInt_radix true min_width))) 220.

(** The [left] that [#positionOpenNested] computes. *)
Definition left_of (layout : Layout) (rect : Rect) (nestedWidth : Z) : Z :=
  let left := round (rect_right rect) in
  if innerWidth layout <? left + nestedWidth + margin then
    Z.max margin (round (rect_left rect - inject_Z nestedWidth))
  else left.

(** The [top] that [#positionOpenNested] computes. *)
Definition top_of (layout : Layout) (rect : Rect) (nestedHeight : Z) : Z :=
  let top := round (rect_top rect) in
  let maxTop := Z.max margin (innerHeight layout - nestedHeight - margin) in
  Z.min (Z.max top margin) maxTop.

(** [#positionOpenNested()] *)
Definition positionOpenNested (layout : Layout) (s : State) : State :=
  match openNested s with
  | None => s
  | Some (link, id) =>
      match li_rect layout link, lists s !! id with
      | Some rect, Some l =>
          let nestedWidth := nestedWidth_of layout id l in
          let nestedHeight := offsetHeight layout id in
          let left := left_of layout rect nestedWidth in
          let top := top_of layout rect nestedHeight in
          let maxH := Z.max 200 (innerHeight layout - 2 * margin) in
          let l' :=
            {| hidden := hidden l;
               style := {| position := "fixed";
                           left := px left;
                           top := px top;
                           minWidth := px nestedWidth;
                           zIndex := "9999";
                           maxHeight := px maxH;
                           overflow := "auto";
                           display := EmptyString;
                           visibility := EmptyString |} |} in
          {| links := links s; lists := <[id := l']> (lists s);
             openNested := openNested s; prevented := prevented s |}
      | _, _ => s
      end
  end.

(** The click listener for nested parent links; [nestedParent] is
    [event.target.closest('.mega-menu__link--parent')]. *)
Definition click (layout : Layout) (nestedParent : option Link) (s : State) : State :=
  match nestedParent with
  | None => s
  | Some link =>
      match links s !! link with
      | None => s
      | Some a =>
          match aria_controls a with
          | None => s
          | Some controlsId =>
              if String.eqb controlsId EmptyString then s else
              match lists s !! controlsId with
              | None => s
              | Some nestedList =>
                  let isExpanded :=
                    match aria_expanded a with
                    | Some v => String.eqb v "true"
                    | None => false
                    end in
                  let a' :=
                    {| aria_controls := aria_controls a;
                       aria_expanded :=
                         Some (SubmenuToggle.string_of_bool (negb isExpanded)) |} in
                  if isExpanded then
                    let st := style nestedList in
                    let l' :=
                      {| hidden := true;
                         style := {| position := EmptyString;
                                     left := EmptyString;
                                     top := EmptyString;
                                     minWidth := EmptyString;
                                     zIndex := EmptyString;
                                     maxHeight := EmptyString;
                                     overflow := EmptyString;
                                     display := display st;
                                     visibility := visibility st |} |} in
                    {| links := <[link := a']> (links s);
                       lists := <[controlsId := l']> (lists s);
                       openNested := None;
                       prevented := S (prevented s) |}
                  else
                    let l' := {| hidden := false; style := style nestedList |} in
                    positionOpenNested layout
                      {| links := <[link := a']> (links s);
                         lists := <[controlsId := l']> (lists s);
                         openNested := Some (link, controlsId);
                         prevented := S (prevented s) |}
              end
          end
      end
  end.

Inductive Input :=
| Click (nestedParent : option Link)
| Scroll
| Resize.

Definition step (layout : Layout) (i : Input) (s : State) : State :=
  match i with
  | Click nestedParent => click layout nestedParent s
  | Scroll | Resize => positionOpenNested layout s
  end.

Definition run (inputs : list (Layout * Input)) (s : State) : State :=
  fold_left (fun st li => step li.1 li.2 st) inputs s.

(** The positioning properties of a list are all empty. *)
Definition unpositioned (l : ListElement) : Prop :=
  position (style l) = EmptyString /\ left (style l) = EmptyString /\
  top (style l) = EmptyString /\ minWidth (style l) = EmptyString /\
  zIndex (style l) = EmptyString /\ maxHeight (style l) = EmptyString /\
  overflow (style l) = EmptyString.

(** Hidden lists carry no positioning, and the list that [#openNested]
    tracks is shown and was opened by the link tracked with it, which is
    expanded. *)
Definition nested_ok (s : State) : Prop :=
  (forall id l, lists s !! id = Some l -> hidden l = true -> unpositioned l) /\
  (forall link id, openNested s = Some (link, id) ->
     exists l a, lists s !! id = Some l /\ hidden l = false /\
                 links s !! link = Some a /\
                 aria_expanded a = Some "true" /\ aria_controls a = Some id).

End NestedMenu.

(** ** Quick-view drawer: adding to the cart *)

Module AddToCart.
Import JS VariantPicker VariantPickerDom.

(** The callbacks of the timers that [#handleAddToCart] sets. *)
Inductive Callback :=
| Restore (originalText : string)
| CloseDialog.

Record Timer := {
  due : Z;
  callback : Callback
}.

(** What leaves the drawer. *)
Inductive Call :=
| ConsoleError (message : string)
| PostCartAdd (variant_id : jsval) (quantity : Z)
| CartUpdated (detail : jsval)
| CloseDialogCall.

(** How a request to [/cart/add.js] ends: with an ok response whose body
    parses, or in the [catch] block ([fetch] rejects, the response is not
    ok, or [json()] rejects). *)
Inductive Response :=
| Succeeds (result : jsval)
| Fails.

(** One rendering of the drawer: the variant groups, the value of the
    quantity input, the add-to-cart button, the calls of
    [#handleAddToCart] that await their response (each with its
    [originalText]), the pending timers with the clock, and the calls
    made, newest first. *)
Record State := {
  variantGroups : list (list OptionButton);
  quantityInput : string;
  addToCartBtn : CartButton;
  awaiting : list string;
  timers : list Timer;
  now : Z;
  calls : list Call
}.

Definition set_variantGroups (groups : list (list OptionButton)) (s : State) : State :=
  {| variantGroups := groups; quantityInput := quantityInput s;
     addToCartBtn := addToCartBtn s; awaiting := awaiting s;
     timers := timers s; now := now s; calls := calls s |}.

Definition set_quantityInput (value : string) (s : State) : State :=
  {| variantGroups := variantGroups s; quantityInput := value;
     addToCartBtn := addToCartBtn s; awaiting := awaiting s;
     timers := timers s; now := now s; calls := calls s |}.

Definition set_addToCartBtn (btn : CartButton) (s : State) : State :=
  {| variantGroups := variantGroups s; quantityInput := quantityInput s;
     addToCartBtn := btn; awaiting := awaiting s;
     timers := timers s; now := now s; calls := calls s |}.

Definition set_awaiting (texts : list string) (s : State) : State :=
  {| variantGroups := variantGroups s; quantityInput := quantityInput s;
     addToCartBtn := addToCartBtn s; awaiting := texts;
     timers := timers s; now := now s; calls := calls s |}.

Definition set_timers (ts : list Timer) (s : State) : State :=
  {| variantGroups := variantGroups s; quantityInput := quantityInput s;
     addToCartBtn := addToCartBtn s; awaiting := awaiting s;
     timers := ts; now := now s; calls := calls s |}.

Definition call (c : Call) (s : State) : State :=
  {| variantGroups := variantGroups s; quantityInput := quantityInput s;
     addToCartBtn := addToCartBtn s; awaiting := awaiting s;
     timers := timers s; now := now s; calls := c :: calls s |}.

(** [addToCartBtn.querySelector('.add-to-cart-text').textContent = t] *)
Definition set_text (t : string) (s : State) : State :=
  set_addToCartBtn {| disabled := disabled (addToCartBtn s); text := t |} s.

Definition setTimeout (cb : Callback) (delay : Z) (s : State) : State :=
  set_timers (timers s ++ [{| due := now s + delay; callback := cb |}]) s.

(** The [catch] block of [#handleAddToCart]. *)
Definition handleAddToCart_catch (originalText : string) (s : State) : State :=
  let s := call (ConsoleError "Error adding to cart:") s in
  let s := set_text "Try Again" s in
  setTimeout (Restore originalText) 2000 s.

(** [#handleAddToCart(product)] up to [await fetch(...)]; the button and
    the quantity input are in the markup of [#buildProductContent].  When
    [#getSelectedVariant] throws, nothing has been changed yet. *)
Definition handleAddToCart (product : QuickView.ProductData) (s : State) : State :=
  let quantity := or_one (parseInt (quantityInput s)) in
  match getSelectedVariant (variantGroups s) product with
  | Throw _ => s
  | Ok selectedVariant =>
      if negb (truthy selectedVariant)
      then call (ConsoleError "No variant selected") s
      else
        let originalText := text (addToCartBtn s) in
        let s := set_addToCartBtn {| disabled := true; text := "Adding..." |} s in
        match get_prop selectedVariant "id" with
        | Ok variant_id =>
            let s := call (PostCartAdd variant_id quantity) s in
            set_awaiting (awaiting s ++ [originalText]) s
        | Throw _ => handleAddToCart_catch originalText s
        end
  end.

(** [#handleAddToCart(product)] from the response on. *)
Definition handleAddToCart_resume (originalText : string) (r : Response) (s : State)
  : State :=
  match r with
  | Succeeds result =>
      let s := set_text "Added!" s in
      let s := setTimeout (Restore originalText) 1500 s in
      let s := call (CartUpdated result) s in
      setTimeout CloseDialog 1000 s
  | Fails => handleAddToCart_catch originalText s
  end.

Definition run_callback (cb : Callback) (s : State) : State :=
  match cb with
  | Restore originalText =>
      set_addToCartBtn {| disabled := false; text := originalText |} s
  | CloseDialog => call CloseDialogCall s
  end.

(** The click listener of a variant option: the class changes, then
    [#updateSelectedVariant]; when that throws, the button stays as it
    is. *)
Definition option_click (product : QuickView.ProductData) (g k : nat) (s : State)
  : State :=
  let s := set_variantGroups (click_option g k (variantGroups s)) s in
  match updateSelectedVariant (variantGroups s) product (addToCartBtn s) with
  | Ok btn => set_addToCartBtn btn s
  | Throw _ => s
  end.

Inductive Input :=
| OptionClick (g k : nat)
| QuantityClick (c : Quantity.Click)
| AddToCartClick
| Respond (n : nat) (r : Response)
| Elapse (ms : Z)
| Fire (n : nat).

(** Whether option [k] of group [g] is there. *)
Definition has_option (g k : nat) (groups : list (list OptionButton)) : bool :=
  match groups !! g with
  | Some group => bool_decide (k < length group)%nat
  | None => false
  end.

(** One step; [None] when the input cannot happen: a click on an option
    that is not there or on the disabled button, a response to no
    request, time going back, a timer that is not pending or not due.
    Responses arrive and due timers run in any order. *)
Definition step (product : QuickView.ProductData) (i : Input) (s : State)
  : option State :=
  match i with
  | OptionClick g k =>
      if has_option g k (variantGroups s)
      then Some (option_click product g k s) else None
  | QuantityClick c =>
      Some (set_quantityInput (Quantity.click c (quantityInput s)) s)
  | AddToCartClick =>
      if disabled (addToCartBtn s) then None
      else Some (handleAddToCart product s)
  | Respond n r =>
      match awaiting s !! n with
      | Some originalText =>
          Some (handleAddToCart_resume originalText r
                  (set_awaiting (delete n (awaiting s)) s))
      | None => None
      end
  | Elapse ms =>
      if 0 <=? ms then
        Some {| variantGroups := variantGroups s; quantityInput := quantityInput s;
                addToCartBtn := addToCartBtn s; awaiting := awaiting s;
                timers := timers s; now := now s + ms; calls := calls s |}
      else None
  | Fire n =>
      match timers s !! n with
      | Some t =>
          if due t <=? now s
          then Some (run_callback (callback t) (set_timers (delete n (timers s)) s))
          else None
      | None => None
      end
  end.

Fixpoint run (product : QuickView.ProductData) (inputs : list Input) (s : State)
  : option State :=
  match inputs with
  | [] => Some s
  | i :: rest =>
      match step product i s with
      | Some s' => run product rest s'
      | None => None
      end
  end.

(** The drawer after [#updateDrawerContent]: the first option of each
    group selected, quantity 1, the button as the markup has it, nothing
    pending. *)
Definition rendered (groups : list (list OptionButton)) : State :=
  {| variantGroups := initializeVariantPicker groups;
     quantityInput := Quantity.initial_value;
     addToCartBtn := {| disabled := false; text := "Add to Cart" |};
     awaiting := []; timers := []; now := 0; calls := [] |}.

Definition is_restore (t : Timer) : bool :=
  match callback t with
  | Restore _ => true
  | CloseDialog => false
  end.

Definition is_close (t : Timer) : bool := negb (is_restore t).

Definition is_CartUpdated (c : Call) : bool :=
  match c with
  | CartUpdated _ => true
  | _ => false
  end.

Definition is_CloseDialogCall (c : Call) : bool :=
  match c with
  | CloseDialogCall => true
  | _ => false
  end.

Definition is_PostCartAdd (c : Call) : bool :=
  match c with
  | PostCartAdd _ _ => true
  | _ => false
  end.

Definition count {A : Type} (p : A -> bool) (l : list A) : nat :=
  length (List.filter p l).

(** A disabled button is on its way back: it reads [Sold Out], or a
    request awaits its response, or a timer that enables it is
    pending. *)
Definition recovers (s : State) : Prop :=
  disabled (addToCartBtn s) = true ->
  text (addToCartBtn s) = "Sold Out" \/ awaiting s <> [] \/
  exists t, In t (timers s) /\ is_restore t = true.

End AddToCart.

(** ** More concrete documents and states used in the examples *)

Module MoreExamples.
Import JS.

(** A product whose options are plain names, without values. *)
Definition tee : jsval :=
  JObj [("id", JNum 9); ("title", JStr "Tee"); ("price", JNum 2500);
        ("options", JArr [JStr "Size"]);
        ("handle", JStr "tee")].

(** What [#extractProductData] makes of [tee]. *)
Definition tee_data : QuickView.ProductData :=
  {| QuickView.id := JNum 9;
     QuickView.title := JStr "Tee";
     QuickView.description := JUndefined;
     QuickView.price := JNum 2500;
     QuickView.compare_at_price := JUndefined;
     QuickView.available := JUndefined;
     QuickView.images := JArr [];
     QuickView.variants := JArr [];
     QuickView.options := JArr [JStr "Size"];
     QuickView.handle := JStr "tee" |}.

(** The platform of the examples, which also parses the JSON text of the
    tee. *)
Definition platform : QuickView.Platform :=
  {| QuickView.JSON_parse := fun text =>
       if String.eqb text "tee.json" then Ok tee
       else QuickView.JSON_parse Examples.platform text;
     QuickView.cents_toFixed2 := QuickView.cents_toFixed2 Examples.platform;
     QuickView.greater := QuickView.greater Examples.platform |}.

Definition tee_page : QuickView.Document :=
  {| QuickView.data_product_json := Some "tee.json" |}.

(** The shop of the examples, which also serves the tee. *)
Definition shop : QuickView.Network := fun url =>
  if String.eqb url "/products/tee?view=quick-view" then
    Some {| QuickView.ok := true; QuickView.body := Some tee_page |}
  else Examples.shop url.

Definition click_on (btn : QuickView.Button) : QuickView.ClickEvent :=
  {| QuickView.quickViewBtn := Some btn |}.

(** The option groups of fresh markup for sizes S and L and colours Red
    and Blue. *)
Definition fresh_groups : list (list VariantPicker.OptionButton) :=
  [ [ {| VariantPicker.data_value := "S"; VariantPicker.selected := false |};
      {| VariantPicker.data_value := "L"; VariantPicker.selected := false |} ];
    [ {| VariantPicker.data_value := "Red"; VariantPicker.selected := false |};
      {| VariantPicker.data_value := "Blue"; VariantPicker.selected := false |} ] ].

(** Socks in two sizes, both available. *)
Definition socks_small : jsval :=
  JObj [("id", JNum 201); ("options", JArr [JStr "S"]); ("available", JBool true)].

Definition socks_large : jsval :=
  JObj [("id", JNum 202); ("options", JArr [JStr "L"]); ("available", JBool true)].

Definition socks_data : QuickView.ProductData :=
  {| QuickView.id := JNum 20;
     QuickView.title := JStr "Socks";
     QuickView.description := JUndefined;
     QuickView.price := JNum 900;
     QuickView.compare_at_price := JUndefined;
     QuickView.available := JBool true;
     QuickView.images := JArr [];
     QuickView.variants := JArr [socks_small; socks_large];
     QuickView.options :=
       JArr [JObj [("name", JStr "Size"); ("values", JArr [JStr "S"; JStr "L"])]];
     QuickView.handle := JStr "socks" |}.

Definition socks_groups : list (list VariantPicker.OptionButton) :=
  [ [ {| VariantPicker.data_value := "S"; VariantPicker.selected := false |};
      {| VariantPicker.data_value := "L"; VariantPicker.selected := false |} ] ].

(** The drawer of the socks after a click on the add-to-cart button, a
    successful response and one second. *)
Definition socks_added : list AddToCart.Input :=
  [AddToCart.AddToCartClick; AddToCart.Respond 0 (AddToCart.Succeeds JNull);
   AddToCart.Elapse 1000; AddToCart.Fire 1].

(** A nested list with its link, both closed, in a window of 1024 by 768
    where the [li] of the link lies near the right edge. *)
Definition no_style : NestedMenu.Style :=
  {| NestedMenu.position := EmptyString; NestedMenu.left := EmptyString;
     NestedMenu.top := EmptyString; NestedMenu.minWidth := EmptyString;
     NestedMenu.zIndex := EmptyString; NestedMenu.maxHeight := EmptyString;
     NestedMenu.overflow := EmptyString; NestedMenu.display := EmptyString;
     NestedMenu.visibility := EmptyString |}.

Definition closed_list : NestedMenu.ListElement :=
  {| NestedMenu.hidden := true; NestedMenu.style := no_style |}.

Definition closed_link (id : string) : NestedMenu.LinkElement :=
  {| NestedMenu.aria_controls := Some id; NestedMenu.aria_expanded := Some "false" |}.

Definition nested_closed : NestedMenu.State :=
  {| NestedMenu.links := {[ 1%nat := closed_link "nested-1"; 2%nat := closed_link "nested-2" ]};
     NestedMenu.lists := {[ "nested-1" := closed_list; "nested-2" := closed_list ]};
     NestedMenu.openNested := None;
     NestedMenu.prevented := 0 |}.

Definition wide_window : NestedMenu.Layout :=
  {| NestedMenu.li_rect := fun _ =>
       Some {| NestedMenu.rect_left := 700; NestedMenu.rect_right := 900;
               NestedMenu.rect_top := 40 # 1 |};
     NestedMenu.offsetWidth := fun _ => 300;
     NestedMenu.offsetHeight := fun _ => 400;
     NestedMenu.innerWidth := 1024;
     NestedMenu.innerHeight := 768 |}.

(** The same page in a narrow window, where the list measures less. *)
Definition narrow_window : NestedMenu.Layout :=
  {| NestedMenu.li_rect := fun _ =>
       Some {| NestedMenu.rect_left := 100; NestedMenu.rect_right := 300;
               NestedMenu.rect_top := 40 # 1 |};
     NestedMenu.offsetWidth := fun _ => 240;
     NestedMenu.offsetHeight := fun _ => 400;
     NestedMenu.innerWidth := 480;
     NestedMenu.innerHeight := 640 |}.

(** The first nested list opened in the wide window. *)
Definition nested_open : NestedMenu.State :=
  NestedMenu.click wide_window (Some 1%nat) nested_closed.

(** The header menu after item 1 was opened and then closed by the
    pointer leaving the overflow menu. *)
Definition opened_and_closed : list (MegaMenu.Dom * MegaMenu.Input) :=
  [(Examples.quiet_dom, MegaMenu.CallActivate (Examples.pointer_on 1%nat));
   (Examples.quiet_dom, MegaMenu.Fire 0%nat);
   (Examples.quiet_dom, MegaMenu.OverflowPointerLeave);
   (Examples.quiet_dom, MegaMenu.Elapse 350);
   (Examples.quiet_dom, MegaMenu.Fire 1%nat)].


(** Touches at whole pixels, where the numbers of the platform are
    integers; the opacity [1 - min(d / 200, 1) * 0.5] of a difference
    [d > 0] is [(400 - min(d, 200)) / 400], a decimal fraction with at
    most four digits. *)
Definition opacity_of_pixels (d : Z) : string :=
  let k := (400 - Z.min d 200) * 25 in
  if 10000 <=? k then "1"
  else if k mod 1000 =? 0 then "0." +:+ string_of_Z (k / 1000)
  else if k mod 100 =? 0 then "0." +:+ string_of_Z (k / 100)
  else if k mod 10 =? 0 then "0." +:+ string_of_Z (k / 10)
  else "0." +:+ string_of_Z k.

Definition whole_pixels : Swipe.Platform :=
  {| Swipe.number := Z;
     Swipe.zero := 0;
     Swipe.minus := Z.sub;
     Swipe.is_positive := fun d => 0 <? d;
     Swipe.exceeds_100 := fun d => 100 <? d;
     Swipe.translateY := fun d => "translateY(" +:+ string_of_Z d +:+ "px)";
     Swipe.opacity_of := opacity_of_pixels |}.

End MoreExamples.

(** * Properties *)

(** ** Quantity selector *)

Section QuantityFacts.
Import JS Quantity.

Lemma in_range_numbers_spec (n : Z) :
  1 <= n <= 999 -> In n in_range_numbers.
Proof.
  intros Hn. unfold in_range_numbers.
  apply in_map_iff. exists (Z.to_nat n). split; [lia|].
  apply in_seq. lia.
Qed.

(** [parseInt] reads back the string of every quantity in range. *)
Lemma parseInt_string_of_Z (n : Z) :
  1 <= n <= 999 -> parseInt (string_of_Z n) = Some n.
Proof.
  intros Hn.
  assert (Hall : forallb reads_back in_range_numbers = true) by (vm_compute; reflexivity).
  rewrite forallb_forall in Hall.
  specialize (Hall n (in_range_numbers_spec n Hn)).
  unfold reads_back in Hall.
  destruct (parseInt (string_of_Z n)) as [m|]; [|discriminate].
  apply Z.eqb_eq in Hall. congruence.
Qed.

Lemma step_number_range (c : Click) (n : Z) :
  1 <= n <= 999 -> 1 <= step_number c n <= 999.
Proof.
  intros Hn. destruct c; simpl.
  - destruct (Z.eqb_spec n 1); lia.
  - destruct (Z.eqb_spec n 999); lia.
Qed.

Lemma or_one_in_range (n : Z) : 1 <= n <= 999 -> or_one (Some n) = n.
Proof. intros Hn. destruct n; simpl; try reflexivity; lia. Qed.

Lemma click_number (c : Click) (n : Z) :
  1 <= n <= 999 -> click c (string_of_Z n) = string_of_Z (step_number c n).
Proof.
  intros Hn. destruct c; simpl; unfold minus_click, plus_click;
    rewrite (parseInt_string_of_Z n Hn), (or_one_in_range n Hn).
  - destruct (Z.eqb_spec n 1) as [->|Hne]; [reflexivity|].
    destruct (Z.ltb_spec 1 n); [reflexivity|lia].
  - destruct (Z.eqb_spec n 999) as [->|Hne]; [reflexivity|].
    destruct (Z.ltb_spec n 999); [reflexivity|lia].
Qed.

Lemma clicks_number (cs : list Click) (n : Z) :
  1 <= n <= 999 ->
  exists m, 1 <= m <= 999 /\ clicks cs (string_of_Z n) = string_of_Z m.
Proof.
  revert n. induction cs as [|c cs IH]; intros n Hn.
  - exists n. split; [exact Hn|reflexivity].
  - unfold clicks. simpl. rewrite (click_number c n Hn).
    apply IH. apply step_number_range. exact Hn.
Qed.

(** C8: starting from the initial value 1, after every sequence of clicks
    on the minus and plus buttons the quantity input holds an integer
    [n] with 1 <= n <= 999, and one more click leaves an integer in
    range: minus leaves 1 unchanged and otherwise takes 1 off, plus
    leaves 999 unchanged and otherwise adds 1. *)
Theorem quantity_selector_stays_in_range (cs : list Click) (c : Click) :
  exists n : Z,
    1 <= n <= 999 /\
    clicks cs initial_value = string_of_Z n /\
    click c (clicks cs initial_value) =
      string_of_Z match c with
                  | Minus => if n =? 1 then 1 else n - 1
                  | Plus => if n =? 999 then 999 else n + 1
                  end /\
    1 <= step_number c n <= 999.
Proof.
  destruct (clicks_number cs 1 ltac:(lia)) as (n & Hn & Hcs).
  change (string_of_Z 1) with initial_value in Hcs.
  exists n. split; [exact Hn|]. split; [exact Hcs|]. split.
  - rewrite Hcs, (click_number c n Hn). destruct c; reflexivity.
  - apply step_number_range. exact Hn.
Qed.

End QuantityFacts.

(** ** Submenu toggle *)

Section SubmenuToggleFacts.
Import SubmenuToggle.

Lemma isExpanded_click (d : Dom) : isExpanded (click d) = negb (isExpanded d).
Proof. unfold click. destruct (isExpanded d); reflexivity. Qed.

Lemma isHidden_click (d : Dom) :
  isHidden (click d) = bool_decide (is_Some (submenu d)) && isExpanded d.
Proof.
  unfold click, isHidden. simpl.
  destruct (submenu d) as [h|]; simpl; [|reflexivity].
  destruct (isExpanded d); reflexivity.
Qed.

Lemma click_consistent (d : Dom) : consistent (click d).
Proof.
  unfold consistent. rewrite isHidden_click, isExpanded_click.
  unfold click at 1. simpl.
  destruct (submenu d); simpl; [|exact I].
  destruct (isExpanded d); reflexivity.
Qed.

(** C6, as stated, fails: with the link marked collapsed and the submenu
    shown, two clicks leave the submenu hidden. *)
Lemma submenu_toggle_twice_changes_hidden :
  isExpanded (click (click Examples.collapsed_but_shown))
    = isExpanded Examples.collapsed_but_shown /\
  isHidden Examples.collapsed_but_shown = false /\
  isHidden (click (click Examples.collapsed_but_shown)) = true.
Proof. repeat split. Qed.

(** C6, amended: a click flips whether the link's [aria-expanded] is
    ['true'], and sets the submenu's [hidden] attribute when the link was
    expanded and removes it otherwise.  Two clicks restore the expanded
    state of the link; they restore the hidden state of the submenu when
    it was hidden exactly when the link was not expanded, which holds
    after every click: from the first click on, two clicks change
    nothing. *)
Theorem submenu_toggle_involution (d : Dom) :
  isExpanded (click d) = negb (isExpanded d) /\
  isHidden (click d) = bool_decide (is_Some (submenu d)) && isExpanded d /\
  isExpanded (click (click d)) = isExpanded d /\
  (consistent d -> isHidden (click (click d)) = isHidden d) /\
  consistent (click d) /\
  click (click (click d)) = click d.
Proof.
  split; [apply isExpanded_click|].
  split; [apply isHidden_click|].
  split; [rewrite !isExpanded_click; apply negb_involutive|].
  split; [|split; [apply click_consistent|]].
  - unfold consistent, click, isHidden, isExpanded; simpl.
    destruct (aria_expanded d) as [v|]; simpl;
      [destruct (String.eqb v "true")|]; simpl;
      destruct (submenu d) as [[h|]|]; simpl; intros Hc;
      first [reflexivity | discriminate Hc].
  - unfold click, isExpanded; simpl.
    destruct (aria_expanded d) as [v|]; simpl;
      [destruct (String.eqb v "true")|]; simpl;
      destruct (submenu d); reflexivity.
Qed.

(** On a collapsed link with a hidden submenu, two clicks restore the
    hidden state. *)
Lemma submenu_toggle_involution_witness :
  consistent Examples.collapsed_and_hidden /\
  isHidden (click (click Examples.collapsed_and_hidden))
    = isHidden Examples.collapsed_and_hidden.
Proof.
  assert (Hc : consistent Examples.collapsed_and_hidden) by reflexivity.
  split; [exact Hc|].
  apply (submenu_toggle_involution Examples.collapsed_and_hidden). exact Hc.
Defined.

End SubmenuToggleFacts.

(** ** Variant picker *)

Section VariantPickerFacts.
Import JS VariantPicker.

Lemma strict_eq_string_nth (opts : list jsval) (i : nat) (o : string) :
  strict_eq_string (nth i opts JUndefined) o = true <-> opts !! i = Some (JStr o).
Proof.
  rewrite nth_lookup. destruct (opts !! i) as [x|]; simpl.
  - destruct x; simpl; try (split; [discriminate|congruence]).
    rewrite String.eqb_eq. split; congruence.
  - split; discriminate.
Qed.

Lemma options_of_inv (variant : jsval) (opts : list jsval) :
  options_of variant = Some opts ->
  exists fields, variant = JObj fields /\ assoc "options" fields = JArr opts.
Proof.
  destruct variant as [| | | | | |fields]; simpl; try discriminate.
  destruct (assoc "options" fields) eqn:Ha; try discriminate.
  intros [= <-]. eauto.
Qed.

Lemma option_agrees_spec (variant : jsval) (opts : list jsval) (o : string) (i : nat) :
  options_of variant = Some opts ->
  option_agrees variant o i = Ok (strict_eq_string (nth i opts JUndefined) o).
Proof.
  intros (fields & -> & Ha)%options_of_inv.
  unfold option_agrees. simpl. rewrite Ha. reflexivity.
Qed.

Lemma every_from_spec (variant : jsval) (opts : list jsval) (sel : list string) :
  options_of variant = Some opts ->
  forall i : nat, exists b : bool,
    every_from variant sel i = Ok b /\
    (b = true <->
     forall (k : nat) (o : string),
       sel !! k = Some o -> opts !! (i + k)%nat = Some (JStr o)).
Proof.
  intros Hopts. induction sel as [|o sel IH]; intros i.
  - exists true. split; [reflexivity|]. split; [|reflexivity].
    intros _ k o' Hk. discriminate Hk.
  - simpl. rewrite (option_agrees_spec variant opts o i Hopts). simpl.
    destruct (strict_eq_string (nth i opts JUndefined) o) eqn:Hhead.
    + destruct (IH (S i)) as (b & Hb & Hspec). exists b. split; [exact Hb|].
      rewrite Hspec. apply strict_eq_string_nth in Hhead.
      split.
      * intros Hrest [|k] o' Hk; simpl in Hk.
        -- injection Hk as <-. rewrite Nat.add_0_r. exact Hhead.
        -- replace (i + S k)%nat with (S i + k)%nat by lia. apply Hrest, Hk.
      * intros Hall k o' Hk.
        replace (S i + k)%nat with (i + S k)%nat by lia. apply Hall, Hk.
    + exists false. split; [reflexivity|]. split; [discriminate|].
      intros Hall. specialize (Hall 0%nat o eq_refl).
      rewrite Nat.add_0_r in Hall. apply strict_eq_string_nth in Hall. congruence.
Qed.

(** The callback of [find] decides [agrees] on a well-formed variant. *)
Lemma every_agrees (variant : jsval) (sel : list string) :
  well_formed variant ->
  exists b : bool,
    every_from variant sel 0%nat = Ok b /\ (b = true <-> agrees sel variant).
Proof.
  intros [opts Hopts].
  destruct (every_from_spec variant opts sel Hopts 0%nat) as (b & Hb & Hspec).
  exists b. split; [exact Hb|]. rewrite Hspec. unfold agrees. split.
  - intros H. exists opts. split; [exact Hopts|]. exact H.
  - intros (opts' & Hopts' & H). rewrite Hopts in Hopts'.
    injection Hopts' as <-. exact H.
Qed.

Lemma find_variant_spec (sel : list string) (vs : list jsval) :
  Forall well_formed vs ->
  (exists pre v post,
      vs = (pre ++ v :: post)%list /\ agrees sel v /\
      Forall (fun x => ~ agrees sel x) pre /\
      find_variant sel vs = Ok v) \/
  (Forall (fun x => ~ agrees sel x) vs /\ find_variant sel vs = Ok JUndefined).
Proof.
  induction 1 as [|v vs Hv Hvs IH].
  - right. split; [constructor|reflexivity].
  - simpl. destruct (every_agrees v sel Hv) as (b & -> & Hb). simpl.
    destruct b.
    + left. exists [], v, vs. repeat split; [apply Hb; reflexivity|constructor].
    + assert (Hno : ~ agrees sel v) by (intros Ha; apply Hb in Ha; discriminate).
      destruct IH as [(pre & w & post & -> & Hw & Hpre & Hfind)|[Hall Hfind]].
      * left. exists (v :: pre), w, post.
        repeat split; [exact Hw|constructor; assumption|exact Hfind].
      * right. split; [constructor; assumption|exact Hfind].
Qed.

Lemma well_formed_truthy (variant : jsval) :
  well_formed variant -> truthy variant = true.
Proof. intros [opts Hopts]. destruct variant; try discriminate; reflexivity. Qed.

Lemma well_formed_id (variant : jsval) :
  well_formed variant -> exists i, get_prop variant "id" = Ok i.
Proof. intros [opts Hopts]. destruct variant; try discriminate; simpl; eauto. Qed.

(** C9: for a non-empty array of variant objects and every selection,
    [#getSelectedVariant] returns the first variant that agrees with the
    selected values at each selected index, and [variants[0]] when none
    does; [#handleAddToCart] then posts the id of that variant, so a
    selection that matches no variant adds the first variant. *)
Theorem getSelectedVariant_first_match_or_first
    (variantGroups : list Group) (product : QuickView.ProductData)
    (vs : list jsval) (quantityValue : string) :
  QuickView.variants product = JArr vs ->
  vs <> [] ->
  Forall well_formed vs ->
  exists v variant_id,
    getSelectedVariant variantGroups product = Ok v /\
    ((exists pre post,
         vs = (pre ++ v :: post)%list /\
         agrees (selectedOptions variantGroups) v /\
         Forall (fun x => ~ agrees (selectedOptions variantGroups) x) pre) \/
     (Forall (fun x => ~ agrees (selectedOptions variantGroups) x) vs /\
      vs !! 0%nat = Some v)) /\
    get_prop v "id" = Ok variant_id /\
    handleAddToCart_form quantityValue variantGroups product
      = Ok (Some (variant_id, or_one (parseInt quantityValue))).
Proof.
  intros Hvariants Hne Hwf.
  assert (Hsel : exists v,
    getSelectedVariant variantGroups product = Ok v /\ well_formed v /\
    ((exists pre post,
         vs = (pre ++ v :: post)%list /\
         agrees (selectedOptions variantGroups) v /\
         Forall (fun x => ~ agrees (selectedOptions variantGroups) x) pre) \/
     (Forall (fun x => ~ agrees (selectedOptions variantGroups) x) vs /\
      vs !! 0%nat = Some v))).
  { unfold getSelectedVariant. rewrite Hvariants.
    destruct (find_variant_spec (selectedOptions variantGroups) vs Hwf)
      as [(pre & v & post & Hvs & Hv & Hpre & Hfind)|[Hall Hfind]];
      rewrite Hfind; simpl.
    - assert (Hwv : well_formed v).
      { rewrite Forall_forall in Hwf. apply Hwf. rewrite Hvs. set_solver. }
      exists v. unfold or_else. rewrite (well_formed_truthy v Hwv).
      split; [reflexivity|]. split; [exact Hwv|]. left. eauto.
    - destruct vs as [|v0 vs']; [congruence|]. exists v0.
      split; [reflexivity|]. split; [inversion Hwf; assumption|].
      right. split; [exact Hall|reflexivity]. }
  destruct Hsel as (v & Hget & Hwv & Hcases).
  destruct (well_formed_id v Hwv) as [variant_id Hid].
  exists v, variant_id. split; [exact Hget|]. split; [exact Hcases|].
  split; [exact Hid|].
  unfold handleAddToCart_form. rewrite Hget. simpl.
  rewrite (well_formed_truthy v Hwv). simpl. rewrite Hid. reflexivity.
Qed.

(** The mug has no L / Blue variant: the selection falls back to the
    first variant, whose id is posted. *)
Lemma getSelectedVariant_first_match_or_first_witness :
  exists v variant_id,
    getSelectedVariant Examples.groups_L_Blue Examples.mug_data = Ok v /\
    v = Examples.variant_small /\
    handleAddToCart_form "2" Examples.groups_L_Blue Examples.mug_data
      = Ok (Some (variant_id, 2)).
Proof.
  destruct (getSelectedVariant_first_match_or_first Examples.groups_L_Blue
              Examples.mug_data [Examples.variant_small; Examples.variant_large] "2")
    as (v & variant_id & Hget & _ & _ & Hform).
  - reflexivity.
  - discriminate.
  - repeat constructor; eexists; reflexivity.
  - exists v, variant_id. split; [exact Hget|]. split; [|exact Hform].
    vm_compute in Hget. injection Hget as <-. reflexivity.
Defined.

End VariantPickerFacts.

(** ** Occurrences of a tag in markup *)

Section Occurrences.
Import JS.



Lemma decided_prefix_spec (m s : string) (b : bool) :
  decided_prefix m s = Some b -> forall t, String.prefix m (s +:+ t) = b.
Proof.
  revert s. induction m as [|a m IH]; intros s Hd t.
  - simpl in Hd. injection Hd as <-. destruct (s +:+ t); reflexivity.
  - destruct s as [|c s]; simpl in Hd; [discriminate|]. simpl.
    destruct (Ascii.eqb_spec a c) as [->|Hne].
    + destruct (ascii_dec c c) as [_|Hcc]; [|congruence]. apply IH, Hd.
    + injection Hd as <-. destruct (ascii_dec a c) as [Hac|_]; [congruence|reflexivity].
Qed.




End Occurrences.

(** ** Media gallery *)

Section MediaGalleryFacts.
Import JS QuickView.






End MediaGalleryFacts.

(** ** Quick-view drawer: cache and errors *)

Section DrawerFacts.
Import JS QuickView.
Variable P : Platform.

(** A load that finds the handle in the cache. *)
Lemma loadProductData_hit (h : string) (net : Network) (s : State) (d : ProductData) :
  cachedContent s !! h = Some d ->
  loadProductData P h net s
    = {| cachedContent := cachedContent s;
         drawerContent := rendered P d;
         calls := (calls s ++ render_errors P d)%list |}.
Proof.
  intros Hhit. unfold loadProductData. simpl. rewrite Hhit.
  unfold updateDrawerContent, rendered, render_errors.
  destruct (buildProductContent P d) as [content|e]; simpl.
  - unfold set_drawerContent. simpl. rewrite app_nil_r. reflexivity.
  - reflexivity.
Qed.

(** A load that misses the cache and gets the product data. *)
Lemma loadProductData_miss_ok (h : string) (net : Network) (s : State) (d : ProductData) :
  cachedContent s !! h = None ->
  fetchProductData P h net = Ok d ->
  loadProductData P h net s
    = {| cachedContent := <[h := d]> (cachedContent s);
         drawerContent := rendered P d;
         calls := (calls s ++ [Fetch (product_url h)] ++ render_errors P d)%list |}.
Proof.
  intros Hmiss Hfetch. unfold loadProductData. simpl. rewrite Hmiss, Hfetch.
  unfold updateDrawerContent, rendered, render_errors.
  destruct (buildProductContent P d) as [content|e]; simpl.
  - unfold set_drawerContent. simpl. reflexivity.
  - unfold catch_error, showError, set_drawerContent, call. simpl.
    rewrite <- app_assoc. reflexivity.
Qed.

(** A load that misses the cache and fails before the data is there. *)
Lemma loadProductData_miss_throw (h : string) (net : Network) (s : State) (e : string) :
  cachedContent s !! h = None ->
  fetchProductData P h net = Throw e ->
  loadProductData P h net s
    = {| cachedContent := cachedContent s;
         drawerContent := error_markup;
         calls := (calls s ++ [Fetch (product_url h); ConsoleError])%list |}.
Proof.
  intros Hmiss Hfetch. unfold loadProductData. simpl. rewrite Hmiss, Hfetch.
  unfold catch_error, showError, set_drawerContent, call. simpl.
  rewrite <- app_assoc. reflexivity.
Qed.

Lemma fetches_render_errors (l : list Call) (d : ProductData) :
  omap (fun c => match c with
                 | Fetch url => Some url
                 | _ => None
                 end) (l ++ render_errors P d)%list
  = omap (fun c => match c with
                   | Fetch url => Some url
                   | _ => None
                   end) l.
Proof.
  rewrite omap_app. unfold render_errors.
  destruct (buildProductContent P d); simpl; apply app_nil_r.
Qed.

(** No load removes or replaces an entry of the cache. *)
Lemma loadProductData_keeps (h h' : string) (net : Network) (s : State) (d : ProductData) :
  cachedContent s !! h = Some d ->
  cachedContent (loadProductData P h' net s) !! h = Some d.
Proof.
  intros Hd. destruct (cachedContent s !! h') as [d'|] eqn:Hh'.
  - rewrite (loadProductData_hit h' net s d' Hh'). exact Hd.
  - destruct (fetchProductData P h' net) as [d'|e] eqn:Hf.
    + rewrite (loadProductData_miss_ok h' net s d' Hh' Hf). simpl.
      rewrite lookup_insert_ne; [exact Hd|]. intros ->. congruence.
    + rewrite (loadProductData_miss_throw h' net s e Hh' Hf). exact Hd.
Qed.

Lemma extractProductData_no_element (doc : Document) :
  data_product_json doc = None ->
  extractProductData P doc = Throw "Product data not found".
Proof. intros Hdoc. unfold extractProductData. rewrite Hdoc. reflexivity. Qed.

(** C2: when the handle is not cached and the response is not ok, or its
    document has no [[data-product-json]] element (so that
    [#extractProductData] throws), [#loadProductData] shows the error
    state and leaves [#cachedContent] as it was: no entry is added for
    the handle. *)
Theorem loadProductData_error_leaves_cache
    (productHandle : string) (net : Network) (s : State) (response : Response) :
  cachedContent s !! productHandle = None ->
  net ("/products/" +:+ productHandle +:+ "?view=quick-view") = Some response ->
  (ok response = false \/
   exists doc, body response = Some doc /\ data_product_json doc = None) ->
  let s' := loadProductData P productHandle net s in
  (forall doc, data_product_json doc = None ->
               extractProductData P doc = Throw "Product data not found") /\
  drawerContent s' = error_markup /\
  cachedContent s' = cachedContent s /\
  cachedContent s' !! productHandle = None.
Proof.
  intros Hmiss Hnet Hbad s'.
  assert (Hf : exists e, fetchProductData P productHandle net = Throw e).
  { unfold fetchProductData, product_url. rewrite Hnet.
    destruct Hbad as [Hok|(doc & Hbody & Hnone)].
    - rewrite Hok. simpl. eauto.
    - destruct (ok response); simpl; [|eauto]. rewrite Hbody.
      rewrite (extractProductData_no_element doc Hnone). eauto. }
  destruct Hf as [e Hf]. subst s'.
  rewrite (loadProductData_miss_throw productHandle net s e Hmiss Hf). simpl.
  split; [apply extractProductData_no_element|]. repeat split. exact Hmiss.
Qed.


Lemma calls_loadProductData (h : string) (net : Network) (s : State) :
  exists load_calls : list Call,
    calls (loadProductData P h net s) = (calls s ++ load_calls)%list /\
    ~ In ShowDialog load_calls /\
    (cachedContent s !! h = None -> In (Fetch (product_url h)) load_calls) /\
    (is_Some (cachedContent s !! h) -> forall url, ~ In (Fetch url) load_calls).
Proof.
  assert (Herr : forall d c, In c (render_errors P d) -> c = ConsoleError).
  { intros d c. unfold render_errors.
    destruct (buildProductContent P d); simpl; [intros []|intros [<-|[]]; reflexivity]. }
  destruct (cachedContent s !! h) as [d|] eqn:Hh.
  - rewrite (loadProductData_hit h net s d Hh). exists (render_errors P d).
    split; [reflexivity|]. split; [|split; [discriminate|]].
    + intros Hin. apply Herr in Hin. discriminate.
    + intros _ url Hin. apply Herr in Hin. discriminate.
  - destruct (fetchProductData P h net) as [d|e] eqn:Hf.
    + rewrite (loadProductData_miss_ok h net s d Hh Hf).
      exists ([Fetch (product_url h)] ++ render_errors P d)%list.
      split; [reflexivity|]. split; [|split].
      * simpl. intros [Hin|Hin]; [discriminate|]. apply Herr in Hin. discriminate.
      * intros _. left. reflexivity.
      * intros [x Hx]. discriminate.
    + rewrite (loadProductData_miss_throw h net s e Hh Hf).
      exists [Fetch (product_url h); ConsoleError].
      split; [reflexivity|]. split; [|split].
      * simpl. intros [Hin|[Hin|[]]]; discriminate.
      * intros _. left. reflexivity.
      * intros [x Hx]. discriminate.
Qed.


(** C5, amended: every click on a quick-view button has its default
    navigation prevented and its propagation stopped.  When the dataset
    carries a product id and a product handle, both non-empty, the
    handler then loads the product (fetching
    [/products/<handle>?view=quick-view] unless the handle is cached) and
    shows the dialog; when either is missing or empty, it returns without
    loading and without opening the dialog. *)
Theorem handleQuickViewClick_loads_and_shows
    (btn : Button) (net : Network) (s : State) :
  let s' := handleQuickViewClick P {| quickViewBtn := Some btn |} net s in
  (present (dataset_productId btn) && present (dataset_productHandle btn) = true ->
   exists (productHandle : string) (load_calls : list Call),
     dataset_productHandle btn = Some productHandle /\
     calls s' = (calls s ++ [PreventDefault; StopPropagation]
                   ++ load_calls ++ [ShowDialog])%list /\
     ~ In ShowDialog load_calls /\
     (cachedContent s !! productHandle = None ->
      In (Fetch ("/products/" +:+ productHandle +:+ "?view=quick-view")) load_calls) /\
     (is_Some (cachedContent s !! productHandle) ->
      forall url, ~ In (Fetch url) load_calls) /\
     cachedContent s' = cachedContent (loadProductData P productHandle net s) /\
     drawerContent s' = drawerContent (loadProductData P productHandle net s)) /\
  (present (dataset_productId btn) && present (dataset_productHandle btn) = false ->
   calls s' = (calls s ++ [PreventDefault; StopPropagation])%list /\
   cachedContent s' = cachedContent s /\
   drawerContent s' = drawerContent s).
Proof.
  intros s'. subst s'. unfold handleQuickViewClick. simpl.
  rewrite <- negb_andb.
  set (s0 := call StopPropagation (call PreventDefault s)).
  assert (Hcalls0 : calls s0 = (calls s ++ [PreventDefault; StopPropagation])%list).
  { unfold s0, call. simpl. rewrite <- app_assoc. reflexivity. }
  split; intros Hpresent; rewrite Hpresent; simpl.
  - apply andb_true_iff in Hpresent as [_ Hh].
    destruct (dataset_productHandle btn) as [h|] eqn:Hbtn; [|discriminate]. simpl.
    destruct (calls_loadProductData h net s0) as (load_calls & Hload & Hshow & Hmiss & Hhit).
    exists h, load_calls. split; [reflexivity|].
    split; [rewrite Hload, Hcalls0, <- !app_assoc; reflexivity|].
    split; [exact Hshow|]. split; [exact Hmiss|]. split; [exact Hhit|].
    assert (Hsame : forall st, cachedContent st = cachedContent s ->
              cachedContent (loadProductData P h net st)
                = cachedContent (loadProductData P h net s) /\
              drawerContent (loadProductData P h net st)
                = drawerContent (loadProductData P h net s)).
    { intros st Hst. destruct (cachedContent s !! h) as [d|] eqn:Hd.
      - rewrite (loadProductData_hit h net st d), (loadProductData_hit h net s d)
          by (rewrite ?Hst; exact Hd).
        simpl. split; [exact Hst|reflexivity].
      - destruct (fetchProductData P h net) as [d|e] eqn:Hf.
        + rewrite (loadProductData_miss_ok h net st d), (loadProductData_miss_ok h net s d)
            by (rewrite ?Hst; assumption).
          simpl. rewrite Hst. split; reflexivity.
        + rewrite (loadProductData_miss_throw h net st e),
            (loadProductData_miss_throw h net s e) by (rewrite ?Hst; assumption).
          simpl. split; [exact Hst|reflexivity]. }
    apply (Hsame s0). reflexivity.
  - split; [exact Hcalls0|]. split; reflexivity.
Qed.

End DrawerFacts.

Section DrawerExamples.
Import JS QuickView.

(** A page without product data shows the error state and caches
    nothing. *)
Lemma loadProductData_error_leaves_cache_witness :
  let s' := loadProductData Examples.platform "bare" Examples.shop Examples.closed_drawer in
  drawerContent s' = error_markup /\ cachedContent s' = ∅.
Proof.
  intros s'.
  destruct (loadProductData_error_leaves_cache Examples.platform "bare" Examples.shop
              Examples.closed_drawer
              {| ok := true; body := Some Examples.bare_page |})
    as (_ & Hshown & Hcache & _).
  - apply lookup_empty.
  - reflexivity.
  - right. exists Examples.bare_page. split; reflexivity.
  - split; [exact Hshown|exact Hcache].
Defined.

(** C5, as stated, fails: a click on a quick-view button without a
    product handle has its default action prevented. *)
Lemma quick_view_click_without_handle_prevents_default :
  present (dataset_productHandle Examples.button_without_handle) = false /\
  calls (handleQuickViewClick Examples.platform
           {| quickViewBtn := Some Examples.button_without_handle |}
           Examples.shop Examples.closed_drawer)
    = [PreventDefault; StopPropagation].
Proof. split; reflexivity. Qed.

(** A click on the mug's button fetches the mug and shows the dialog. *)
Lemma handleQuickViewClick_loads_and_shows_witness :
  exists load_calls : list Call,
    calls (handleQuickViewClick Examples.platform
             {| quickViewBtn := Some Examples.mug_button |}
             Examples.shop Examples.closed_drawer)
      = ([PreventDefault; StopPropagation] ++ load_calls ++ [ShowDialog])%list /\
    In (Fetch "/products/mug?view=quick-view") load_calls.
Proof.
  destruct (handleQuickViewClick_loads_and_shows Examples.platform
              Examples.mug_button
              Examples.shop Examples.closed_drawer) as [Hboth _].
  destruct (Hboth eq_refl) as (h & load_calls & Hh & Hcalls & _ & Hmiss & _).
  injection Hh as <-.
  exists load_calls. split; [exact Hcalls|].
  apply Hmiss. apply lookup_empty.
Defined.

End DrawerExamples.


(** ** Mega-menu: timers, debouncing and the active item *)

Section MegaMenuFacts.
Import MegaMenu.

Lemma grows_refl (A : Callback -> Prop) (s : State) : grows A s s.
Proof. repeat split; [lia|]. intros t Ht. left. exact Ht. Qed.

Lemma grows_trans (A : Callback -> Prop) (s1 s2 s3 : State) :
  grows A s1 s2 -> grows A s2 s3 -> grows A s1 s3.
Proof.
  intros (Hn1 & Hf1 & Hc1 & Ht1) (Hn2 & Hf2 & Hc2 & Ht2).
  repeat split; [lia|congruence|congruence|].
  intros t Ht. destruct (Ht2 t Ht) as [Hold|[Hid HA]].
  - destruct (Ht1 t Hold) as [Hold'|[Hid HA]]; [left; exact Hold'|right; split; [lia|exact HA]].
  - right. split; [lia|exact HA].
Qed.

Lemma clearTimeout_timers (h : option nat) (s : State) (t : Timer) :
  In t (timers (clearTimeout h s)) <->
  In t (timers s) /\ h <> Some (timer_id t).
Proof.
  destruct h as [i|]; simpl.
  - rewrite filter_In, negb_true_iff, Nat.eqb_neq. split.
    + intros [Hin Hne]. split; [exact Hin|]. congruence.
    + intros [Hin Hne]. split; [exact Hin|]. congruence.
  - split; [intros Hin; split; [exact Hin|discriminate]|tauto].
Qed.

Lemma clearTimeout_grows (A : Callback -> Prop) (h : option nat) (s : State) :
  grows A s (clearTimeout h s).
Proof.
  split; [destruct h; simpl; lia|]. split; [destruct h; reflexivity|].
  split; [destruct h; reflexivity|].
  intros t Hin. left. apply clearTimeout_timers in Hin. tauto.
Qed.

Lemma set_menu_grows (A : Callback -> Prop) (m : Menu) (s : State) :
  grows A s (set_menu m s).
Proof. repeat split; simpl; [lia|]. intros t Ht. left. exact Ht. Qed.

Lemma setTimeout_grows (A : Callback -> Prop) (cb : Callback) (delay : Z) (s : State) :
  A cb -> grows A s (setTimeout cb delay s).2.
Proof.
  intros HA. repeat split; simpl; [lia|].
  intros t Hin. apply in_app_or in Hin as [Hin|[<-|[]]]; [left; exact Hin|].
  right. simpl. split; [lia|exact HA].
Qed.

Lemma debouncedDeactivate_grows (s : State) :
  grows (eq RunDeactivate) s (debouncedDeactivate s).
Proof.
  unfold debouncedDeactivate.
  apply (grows_trans _ _ (clearTimeout (deactivate_timeout s) s));
    [apply clearTimeout_grows|].
  set (s0 := clearTimeout (deactivate_timeout s) s).
  apply (grows_trans _ _ (setTimeout RunDeactivate DEACTIVATE_DELAY s0).2);
    [apply setTimeout_grows; reflexivity|].
  simpl. repeat split; simpl; [lia|]. intros t Ht. left. exact Ht.
Qed.

Lemma debouncedActivateHandler_grows (event : Event) (s : State) :
  grows (eq (RunActivateHandler event)) s (debouncedActivateHandler event s).
Proof.
  unfold debouncedActivateHandler.
  apply (grows_trans _ _ (clearTimeout (activate_timeout s) s));
    [apply clearTimeout_grows|].
  set (s0 := clearTimeout (activate_timeout s) s).
  apply (grows_trans _ _ (setTimeout (RunActivateHandler event) ACTIVATE_DELAY s0).2);
    [apply setTimeout_grows; reflexivity|].
  simpl. repeat split; simpl; [lia|]. intros t Ht. left. exact Ht.
Qed.

Lemma activate_grows (event : Event) (s : State) :
  grows (eq (RunActivateHandler event)) s (activate event s).
Proof.
  unfold activate, debouncedDeactivate_cancel, debouncedActivateHandler_cancel.
  eapply grows_trans; [apply clearTimeout_grows|].
  eapply grows_trans; [apply clearTimeout_grows|].
  apply debouncedActivateHandler_grows.
Qed.

Lemma deactivate_grows (event : Event) (dom : Dom) (s : State) :
  grows (eq RunDeactivate) s (deactivate event dom s).
Proof.
  unfold deactivate, debouncedActivateHandler_cancel.
  destruct (target event); [|apply clearTimeout_grows].
  match goal with |- context [if ?c then _ else _] => destruct c end;
    [apply clearTimeout_grows|].
  match goal with |- context [decide ?c] => destruct (decide c) end;
    [|apply clearTimeout_grows].
  eapply grows_trans; [apply clearTimeout_grows|apply debouncedDeactivate_grows].
Qed.

Lemma activateHandler_grows (A : Callback -> Prop) (event : Event) (dom : Dom) (s : State) :
  grows A s (activateHandler event dom s).
Proof.
  unfold activateHandler, debouncedDeactivate_cancel.
  eapply grows_trans; [apply clearTimeout_grows|].
  destruct (target event); [|apply set_menu_grows].
  destruct (findMenuItem _); [|apply set_menu_grows].
  match goal with |- context [decide ?c] => destruct (decide c) end;
    apply set_menu_grows.
Qed.

Lemma deactivate_now_grows (item : option Item) (dom : Dom) (s : State) :
  grows is_stop_animating s (deactivate_now item dom s).
Proof.
  unfold deactivate_now. destruct item as [i|]; [|apply grows_refl].
  match goal with |- context [decide ?c] => destruct (decide c) end;
    [|apply grows_refl].
  destruct (overflowHovered dom); [apply grows_refl|].
  eapply grows_trans; [apply set_menu_grows|].
  apply setTimeout_grows. exists i. reflexivity.
Qed.

Lemma run_callback_grows (cb : Callback) (dom : Dom) (s : State) :
  grows is_stop_animating s (run_callback cb dom s).
Proof.
  destruct cb; simpl.
  - apply activateHandler_grows.
  - apply deactivate_now_grows.
  - apply set_menu_grows.
Qed.


Lemma timers_ok_shrink (s s' : State) :
  next_timer s' = next_timer s -> fired s' = fired s -> now s' = now s ->
  activate_timeout s' = activate_timeout s ->
  deactivate_timeout s' = deactivate_timeout s ->
  (forall t, In t (timers s') -> In t (timers s)) ->
  timers_ok s -> timers_ok s'.
Proof.
  intros Hn Hf Hc Ha Hd Hsub [Hids Hdisj Hact Hdeact Hdue].
  split; rewrite ?Hn, ?Hf, ?Hc, ?Ha, ?Hd.
  - intros t [Ht|Ht]; apply Hids; [left; apply Hsub, Ht|right; congruence].
  - intros t t' Ht Ht'. apply Hdisj; [apply Hsub, Ht|congruence].
  - intros t e Ht. apply Hact, Hsub, Ht.
  - intros t Ht. apply Hdeact, Hsub, Ht.
  - intros t Ht. apply Hdue. congruence.
Qed.

Lemma timers_ok_clearTimeout (h : option nat) (s : State) :
  timers_ok s -> timers_ok (clearTimeout h s).
Proof.
  apply timers_ok_shrink; try (destruct h; reflexivity).
  intros t Ht. apply clearTimeout_timers in Ht. tauto.
Qed.

Lemma timers_ok_set_menu (m : Menu) (s : State) :
  timers_ok s -> timers_ok (set_menu m s).
Proof. apply timers_ok_shrink; try reflexivity. intros t Ht. exact Ht. Qed.

Lemma timers_ok_setTimeout_stop (item : Item) (delay : Z) (s : State) :
  timers_ok s -> timers_ok (setTimeout (StopAnimating item) delay s).2.
Proof.
  intros [Hids Hdisj Hact Hdeact Hdue]. split; simpl.
  - intros t [Ht|Ht].
    + apply in_app_or in Ht as [Ht|[<-|[]]]; [|simpl; lia].
      specialize (Hids t (or_introl Ht)). lia.
    + specialize (Hids t (or_intror Ht)). lia.
  - intros t t' Ht Ht'. apply in_app_or in Ht as [Ht|[<-|[]]]; [apply Hdisj; assumption|].
    simpl. specialize (Hids t' (or_intror Ht')). lia.
  - intros t e Ht Hcb. apply in_app_or in Ht as [Ht|[<-|[]]]; [|discriminate Hcb].
    apply (Hact t e Ht Hcb).
  - intros t Ht Hcb. apply in_app_or in Ht as [Ht|[<-|[]]]; [|discriminate Hcb].
    apply (Hdeact t Ht Hcb).
  - exact Hdue.
Qed.

Lemma timers_ok_debouncedDeactivate (s : State) :
  timers_ok s -> timers_ok (debouncedDeactivate s).
Proof.
  intros Hs. pose proof (timers_ok_clearTimeout (deactivate_timeout s) s Hs) as Hs0.
  assert (Hnone : forall t, In t (timers (clearTimeout (deactivate_timeout s) s)) ->
                            callback t <> RunDeactivate).
  { intros t Ht Hcb. apply clearTimeout_timers in Ht as [Ht Hne].
    apply Hne. apply (deactivate_pending s Hs t Ht Hcb). }
  unfold debouncedDeactivate.
  set (s0 := clearTimeout (deactivate_timeout s) s) in *.
  destruct Hs0 as [Hids Hdisj Hact Hdeact Hdue]. split; simpl.
  - intros t [Ht|Ht].
    + apply in_app_or in Ht as [Ht|[<-|[]]]; [|simpl; lia].
      specialize (Hids t (or_introl Ht)). lia.
    + specialize (Hids t (or_intror Ht)). lia.
  - intros t t' Ht Ht'. apply in_app_or in Ht as [Ht|[<-|[]]]; [apply Hdisj; assumption|].
    simpl. specialize (Hids t' (or_intror Ht')). lia.
  - intros t e Ht Hcb. apply in_app_or in Ht as [Ht|[<-|[]]]; [|discriminate Hcb].
    apply (Hact t e Ht Hcb).
  - intros t Ht Hcb. apply in_app_or in Ht as [Ht|[<-|[]]]; [|reflexivity].
    destruct (Hnone t Ht Hcb).
  - exact Hdue.
Qed.

Lemma timers_ok_debouncedActivateHandler (event : Event) (s : State) :
  timers_ok s -> timers_ok (debouncedActivateHandler event s).
Proof.
  intros Hs. pose proof (timers_ok_clearTimeout (activate_timeout s) s Hs) as Hs0.
  assert (Hnone : forall t e, In t (timers (clearTimeout (activate_timeout s) s)) ->
                              callback t <> RunActivateHandler e).
  { intros t e Ht Hcb. apply clearTimeout_timers in Ht as [Ht Hne].
    apply Hne. apply (activate_pending s Hs t e Ht Hcb). }
  unfold debouncedActivateHandler.
  set (s0 := clearTimeout (activate_timeout s) s) in *.
  destruct Hs0 as [Hids Hdisj Hact Hdeact Hdue]. split; simpl.
  - intros t [Ht|Ht].
    + apply in_app_or in Ht as [Ht|[<-|[]]]; [|simpl; lia].
      specialize (Hids t (or_introl Ht)). lia.
    + specialize (Hids t (or_intror Ht)). lia.
  - intros t t' Ht Ht'. apply in_app_or in Ht as [Ht|[<-|[]]]; [apply Hdisj; assumption|].
    simpl. specialize (Hids t' (or_intror Ht')). lia.
  - intros t e Ht Hcb. apply in_app_or in Ht as [Ht|[<-|[]]]; [|reflexivity].
    destruct (Hnone t e Ht Hcb).
  - intros t Ht Hcb. apply in_app_or in Ht as [Ht|[<-|[]]]; [|discriminate Hcb].
    apply (Hdeact t Ht Hcb).
  - exact Hdue.
Qed.

Lemma timers_ok_activate (event : Event) (s : State) :
  timers_ok s -> timers_ok (activate event s).
Proof.
  intros Hs. unfold activate, debouncedDeactivate_cancel, debouncedActivateHandler_cancel.
  apply timers_ok_debouncedActivateHandler.
  repeat apply timers_ok_clearTimeout. exact Hs.
Qed.

Lemma timers_ok_deactivate (event : Event) (dom : Dom) (s : State) :
  timers_ok s -> timers_ok (deactivate event dom s).
Proof.
  intros Hs. unfold deactivate, debouncedActivateHandler_cancel.
  pose proof (timers_ok_clearTimeout (activate_timeout s) s Hs) as Hs0.
  destruct (target event); [|exact Hs0].
  match goal with |- context [if ?c then _ else _] => destruct c end; [exact Hs0|].
  match goal with |- context [decide ?c] => destruct (decide c) end; [|exact Hs0].
  apply timers_ok_debouncedDeactivate, Hs0.
Qed.

Lemma timers_ok_activateHandler (event : Event) (dom : Dom) (s : State) :
  timers_ok s -> timers_ok (activateHandler event dom s).
Proof.
  intros Hs. unfold activateHandler, debouncedDeactivate_cancel.
  pose proof (timers_ok_clearTimeout (deactivate_timeout s) s Hs) as Hs0.
  destruct (target event); [|apply timers_ok_set_menu, Hs0].
  destruct (findMenuItem _); [|apply timers_ok_set_menu, Hs0].
  match goal with |- context [decide ?c] => destruct (decide c) end;
    apply timers_ok_set_menu, Hs0.
Qed.

Lemma timers_ok_deactivate_now (item : option Item) (dom : Dom) (s : State) :
  timers_ok s -> timers_ok (deactivate_now item dom s).
Proof.
  intros Hs. unfold deactivate_now. destruct item as [i|]; [|exact Hs].
  match goal with |- context [decide ?c] => destruct (decide c) end; [|exact Hs].
  destruct (overflowHovered dom); [exact Hs|].
  apply timers_ok_setTimeout_stop, timers_ok_set_menu, Hs.
Qed.

Lemma timers_ok_run_callback (cb : Callback) (dom : Dom) (s : State) :
  timers_ok s -> timers_ok (run_callback cb dom s).
Proof.
  intros Hs. destruct cb; simpl.
  - apply timers_ok_activateHandler, Hs.
  - apply timers_ok_deactivate_now, Hs.
  - apply timers_ok_set_menu, Hs.
Qed.

Lemma step_fire (dom : Dom) (i : nat) (s s' : State) :
  step dom (Fire i) s = Some s' ->
  exists t, In t (timers s) /\ timer_id t = i /\ due t <= now s /\
            s' = run_callback (callback t) dom (firing t s).
Proof.
  simpl. destruct (find _ _) as [t|] eqn:Hfind; [|discriminate].
  destruct (Z.leb_spec (due t) (now s)) as [Hdue|]; [|discriminate].
  intros [= <-]. apply find_some in Hfind as [Hin Hid].
  apply Nat.eqb_eq in Hid. exists t. subst i. repeat split; assumption.
Qed.

Lemma timers_ok_firing (t : Timer) (s : State) :
  In t (timers s) -> due t <= now s -> timers_ok s -> timers_ok (firing t s).
Proof.
  intros Hin Hdue_t [Hids Hdisj Hact Hdeact Hdue].
  assert (Hsub : forall t', In t' (timers (firing t s)) ->
                   In t' (timers s) /\ timer_id t' <> timer_id t).
  { intros t'. simpl. rewrite filter_In, negb_true_iff, Nat.eqb_neq. tauto. }
  split.
  - intros t' [Ht'|[<-|Ht']].
    + apply Hids. left. apply Hsub, Ht'.
    + apply Hids. left. exact Hin.
    + apply Hids. right. exact Ht'.
  - intros t1 t' Ht1 [<-|Ht']; apply Hsub in Ht1 as [Ht1 Hne]; [exact Hne|].
    apply Hdisj; assumption.
  - intros t' e Ht'. apply Hsub in Ht' as [Ht' _]. apply (Hact t' e Ht').
  - intros t' Ht'. apply Hsub in Ht' as [Ht' _]. apply (Hdeact t' Ht').
  - intros t' [<-|Ht']; [exact Hdue_t|apply Hdue, Ht'].
Qed.

Lemma step_timers_ok (dom : Dom) (i : Input) (s s' : State) :
  step dom i s = Some s' -> timers_ok s -> timers_ok s'.
Proof.
  intros Hstep Hs. destruct i as [e|e| |b|b|ms|id].
  - injection Hstep as <-. apply timers_ok_activate, Hs.
  - injection Hstep as <-. apply timers_ok_deactivate, Hs.
  - injection Hstep as <-. apply timers_ok_debouncedDeactivate, Hs.
  - injection Hstep as <-. destruct b; [apply timers_ok_clearTimeout, Hs|exact Hs].
  - injection Hstep as <-. destruct b; [apply timers_ok_debouncedDeactivate, Hs|exact Hs].
  - simpl in Hstep. destruct (Z.leb_spec 0 ms) as [Hms|]; [|discriminate].
    injection Hstep as <-. destruct Hs as [Hids Hdisj Hact Hdeact Hdue].
    split; try assumption. simpl. intros t Ht. specialize (Hdue t Ht). lia.
  - apply step_fire in Hstep as (t & Hin & _ & Hdue & ->).
    apply timers_ok_run_callback, timers_ok_firing; assumption.
Qed.

Lemma run_timers_ok (inputs : list (Dom * Input)) (s s' : State) :
  run inputs s = Some s' -> timers_ok s -> timers_ok s'.
Proof.
  revert s. induction inputs as [|[dom i] inputs IH]; intros s Hrun Hs.
  - injection Hrun as <-. exact Hs.
  - simpl in Hrun. destruct (step dom i s) as [s1|] eqn:Hstep; [|discriminate].
    apply (IH s1 Hrun), (step_timers_ok dom i s s1 Hstep Hs).
Qed.

Lemma reachable_timers_ok (s : State) : reachable s -> timers_ok s.
Proof.
  induction 1 as [s (_ & _ & Htimers & Hfired)|s dom i s' _ IH Hstep].
  - split; rewrite ?Htimers, ?Hfired; unfold known; rewrite ?Htimers, ?Hfired;
      simpl; intros; tauto.
  - apply (step_timers_ok dom i s s' Hstep IH).
Qed.

Lemma clearTimeout_menu (h : option nat) (s : State) :
  menu (clearTimeout h s) = menu s.
Proof. destruct h; reflexivity. Qed.

Lemma menu_ok_at_most_one (m : Menu) : menu_ok m -> at_most_one_expanded m.
Proof. intros Hm i j Hi Hj. apply Hm in Hi, Hj. congruence. Qed.

Lemma activateHandler_menu_ok (event : Event) (dom : Dom) (s : State) :
  menu_ok (menu s) -> menu_ok (menu (activateHandler event dom s)).
Proof.
  intros Hm. unfold activateHandler, debouncedDeactivate_cancel.
  set (s0 := clearTimeout (deactivate_timeout s) s).
  assert (Hm0 : menu s0 = menu s) by apply clearTimeout_menu.
  rewrite Hm0.
  destruct (target event) as [element|]; [|exact Hm].
  destruct (findMenuItem (Some element)) as [item|]; [|exact Hm].
  destruct (decide (Some item = activeItem (menu s))) as [Heq|Hne]; [exact Hm|].
  intros i. simpl. intros Hi.
  destruct (decide (item = i)) as [->|Hi']; [reflexivity|].
  rewrite lookup_insert_ne in Hi by exact Hi'.
  destruct (activeItem (menu s)) as [prev|] eqn:Hprev.
  - destruct (decide (prev = i)) as [->|Hp].
    + rewrite lookup_insert_eq in Hi. discriminate.
    + rewrite lookup_insert_ne in Hi by exact Hp. apply Hm in Hi. congruence.
  - apply Hm in Hi. congruence.
Qed.

Lemma deactivate_now_menu_ok (item : option Item) (dom : Dom) (s : State) :
  menu_ok (menu s) -> menu_ok (menu (deactivate_now item dom s)).
Proof.
  intros Hm. unfold deactivate_now.
  destruct item as [i|]; [|exact Hm].
  destruct (decide (Some i = activeItem (menu s))) as [Heq|Hne]; [|exact Hm].
  destruct (overflowHovered dom); [exact Hm|].
  intros j. simpl. intros Hj.
  destruct (decide (i = j)) as [->|Hij].
  - rewrite lookup_insert_eq in Hj. discriminate.
  - rewrite lookup_insert_ne in Hj by exact Hij. apply Hm in Hj. congruence.
Qed.

Lemma step_menu_unchanged (dom : Dom) (i : Input) (s s' : State) :
  step dom i s = Some s' -> is_fire i = false -> menu s' = menu s.
Proof.
  intros Hstep Hi. destruct i as [e|e| |b|b|ms|id]; simpl in *; try discriminate.
  - injection Hstep as <-. unfold activate, debouncedActivateHandler,
      debouncedActivateHandler_cancel, debouncedDeactivate_cancel. simpl.
    rewrite !clearTimeout_menu. reflexivity.
  - injection Hstep as <-. unfold deactivate, debouncedActivateHandler_cancel.
    destruct (target e); [|apply clearTimeout_menu].
    match goal with |- context [if ?c then _ else _] => destruct c end;
      [apply clearTimeout_menu|].
    match goal with |- context [decide ?c] => destruct (decide c) end;
      [|apply clearTimeout_menu].
    unfold debouncedDeactivate. simpl. rewrite !clearTimeout_menu. reflexivity.
  - injection Hstep as <-. unfold debouncedDeactivate. simpl.
    rewrite !clearTimeout_menu. reflexivity.
  - injection Hstep as <-. destruct b; [apply clearTimeout_menu|reflexivity].
  - injection Hstep as <-. destruct b; [|reflexivity].
    unfold debouncedDeactivate. simpl. rewrite !clearTimeout_menu. reflexivity.
  - destruct (0 <=? ms); [|discriminate]. injection Hstep as <-. reflexivity.
Qed.

Lemma step_menu_ok (dom : Dom) (i : Input) (s s' : State) :
  step dom i s = Some s' -> menu_ok (menu s) -> menu_ok (menu s').
Proof.
  intros Hstep Hm. destruct (is_fire i) eqn:Hi.
  - destruct i; try discriminate.
    apply step_fire in Hstep as (t & _ & _ & _ & ->).
    destruct (callback t) as [e| |item]; simpl.
    + apply activateHandler_menu_ok. exact Hm.
    + apply deactivate_now_menu_ok. exact Hm.
    + exact Hm.
  - rewrite (step_menu_unchanged dom i s s' Hstep Hi). exact Hm.
Qed.

Lemma reachable_menu_ok (s : State) : reachable s -> menu_ok (menu s).
Proof.
  induction 1 as [s (Hactive & Haria & _)|s dom i s' _ IH Hstep].
  - intros i Hi. exfalso. apply (Haria i Hi).
  - apply (step_menu_ok dom i s s' Hstep IH).
Qed.


Lemma step_known (dom : Dom) (i : Input) (s s' : State) :
  step dom i s = Some s' ->
  (next_timer s <= next_timer s')%nat /\
  forall t, known t s' ->
    known t s \/
    ((next_timer s <= timer_id t)%nat /\
     (is_call i = false -> is_stop_animating (callback t))).
Proof.
  intros Hstep.
  assert (Hgrow : forall A s0,
            (forall t, known t s0 -> known t s) ->
            next_timer s0 = next_timer s ->
            (is_call i = false -> forall cb, A cb -> is_stop_animating cb) ->
            grows A s0 s' ->
            (next_timer s <= next_timer s')%nat /\
            forall t, known t s' ->
              known t s \/
              ((next_timer s <= timer_id t)%nat /\
               (is_call i = false -> is_stop_animating (callback t)))).
  { intros A s0 Hsub Hnext HA (Hn & Hf & _ & Ht). split; [lia|].
    intros t [Hin|Hin].
    - destruct (Ht t Hin) as [Hold|[Hid Hcb]].
      + left. apply Hsub. left. exact Hold.
      + right. split; [lia|]. intros Hi. apply (HA Hi), Hcb.
    - left. apply Hsub. right. congruence. }
  destruct i as [e|e| |b|b|ms|id].
  - injection Hstep as <-.
    apply (Hgrow (eq (RunActivateHandler e)) s (fun t H => H) eq_refl);
      [discriminate|apply activate_grows].
  - injection Hstep as <-.
    apply (Hgrow (eq RunDeactivate) s (fun t H => H) eq_refl);
      [discriminate|apply deactivate_grows].
  - injection Hstep as <-.
    apply (Hgrow (eq RunDeactivate) s (fun t H => H) eq_refl);
      [discriminate|apply debouncedDeactivate_grows].
  - injection Hstep as <-.
    apply (Hgrow (eq RunDeactivate) s (fun t H => H) eq_refl); [discriminate|].
    destruct b; [apply clearTimeout_grows|apply grows_refl].
  - injection Hstep as <-.
    apply (Hgrow (eq RunDeactivate) s (fun t H => H) eq_refl); [discriminate|].
    destruct b; [apply debouncedDeactivate_grows|apply grows_refl].
  - simpl in Hstep. destruct (0 <=? ms); [|discriminate]. injection Hstep as <-.
    split; [simpl; lia|]. intros t Ht. left. exact Ht.
  - apply step_fire in Hstep as (t & Hin & _ & _ & ->).
    apply (Hgrow is_stop_animating (firing t s)); [|reflexivity|auto|apply run_callback_grows].
    intros t' [Ht'|[<-|Ht']].
    + left. simpl in Ht'. apply filter_In in Ht'. tauto.
    + left. exact Hin.
    + right. exact Ht'.
Qed.

(** In a run, a timer known at the end was known at the start or was
    set during the run. *)
Lemma run_known (inputs : list (Dom * Input)) (s s' : State) :
  run inputs s = Some s' ->
  (next_timer s <= next_timer s')%nat /\
  forall t, known t s' -> known t s \/ (next_timer s <= timer_id t)%nat.
Proof.
  revert s. induction inputs as [|[dom i] inputs IH]; intros s Hrun.
  - injection Hrun as <-. split; [lia|]. intros t Ht. left. exact Ht.
  - simpl in Hrun. destruct (step dom i s) as [s1|] eqn:Hstep; [|discriminate].
    destruct (step_known dom i s s1 Hstep) as [Hn1 Hk1].
    destruct (IH s1 Hrun) as [Hn2 Hk2]. split; [lia|].
    intros t Ht. destruct (Hk2 t Ht) as [Hold|Hnew]; [|right; lia].
    destruct (Hk1 t Hold) as [Hold'|[Hnew _]]; [left; exact Hold'|right; exact Hnew].
Qed.


(** A timer that was cleared never runs. *)
Lemma cleared_never_fires (inputs : list (Dom * Input)) (s s' : State) (t : Timer) :
  run inputs s = Some s' ->
  (timer_id t < next_timer s)%nat -> ~ known t s -> ~ In t (fired s').
Proof.
  intros Hrun Hid Hunknown Hfired.
  destruct (run_known inputs s s' Hrun) as [_ Hk].
  destruct (Hk t (or_intror Hfired)) as [Hold|Hnew]; [exact (Hunknown Hold)|lia].
Qed.

Lemma pending_unknown_after_clear (h : option nat) (s : State) (t : Timer) :
  timers_ok s -> In t (timers s) -> h = Some (timer_id t) ->
  ~ known t (clearTimeout h s).
Proof.
  intros Hs Hin -> [Ht|Ht].
  - apply clearTimeout_timers in Ht as [_ Hne]. congruence.
  - simpl in Ht. apply (pending_not_fired s Hs t t Hin Ht). reflexivity.
Qed.


Lemma run_reachable (inputs : list (Dom * Input)) (s s' : State) :
  reachable s -> run inputs s = Some s' -> reachable s'.
Proof.
  revert s. induction inputs as [|[dom i] inputs IH]; intros s Hs Hrun.
  - injection Hrun as <-. exact Hs.
  - simpl in Hrun. destruct (step dom i s) as [s1|] eqn:Hstep; [|discriminate].
    apply (IH s1); [|exact Hrun]. apply (reachable_step s dom i s1 Hs Hstep).
Qed.

Lemma closed_menu_reachable : reachable Examples.closed_menu.
Proof.
  apply reachable_initial. repeat split. intros i. simpl.
  rewrite lookup_empty. discriminate.
Qed.

Lemma first_item_open_reachable : reachable Examples.first_item_open.
Proof.
  apply (run_reachable
           [(Examples.quiet_dom, CallActivate (Examples.pointer_on 1%nat));
            (Examples.quiet_dom, Fire 0%nat)] Examples.closed_menu);
    [apply closed_menu_reachable|reflexivity].
Qed.

(** C3, as stated, fails: with item 1 active, the pointer leaves the
    overflow menu and 350 ms later, the pointer being over the overflow
    menu again, the debounced [#deactivate] runs and leaves item 1 active
    and expanded. *)
Lemma deactivate_keeps_item_while_overflow_hovered :
  exists s' : State,
    run [(Examples.quiet_dom, OverflowPointerLeave);
         (Examples.quiet_dom, Elapse 350);
         (Examples.hovered_dom, Fire 1%nat)] Examples.first_item_open = Some s' /\
    In Examples.pending_deactivation (fired s') /\
    activeItem (menu Examples.first_item_open) = Some 1%nat /\
    activeItem (menu s') = Some 1%nat /\
    ariaExpanded (menu s') !! 1%nat = Some "true".
Proof.
  eexists. split; [reflexivity|]. split; [left; reflexivity|]. repeat split.
Qed.

(** C3, amended: in every reachable state at most one menu item has
    [ariaExpanded] ['true'].  When [#activateHandler] activates an item
    other than the active one, it sets the [ariaExpanded] of the
    previously active item to ['false'] and makes the new item the active
    item, with [ariaExpanded] ['true'].  When [#deactivate] runs for the
    active item while the overflow menu is not hovered, it resets the
    active item to null and the item's [ariaExpanded] to ['false']; while
    the overflow menu is hovered, or for another item, it changes
    nothing. *)
Theorem mega_menu_single_expanded_item (s : State) (dom : Dom) :
  reachable s ->
  at_most_one_expanded (menu s) /\
  (forall (event : Event) (item : Item),
     findMenuItem (target event) = Some item ->
     activeItem (menu s) <> Some item ->
     let s' := activateHandler event dom s in
     activeItem (menu s') = Some item /\
     ariaExpanded (menu s') !! item = Some "true" /\
     (forall prev, activeItem (menu s) = Some prev ->
                   ariaExpanded (menu s') !! prev = Some "false") /\
     at_most_one_expanded (menu s')) /\
  (forall item : Item,
     activeItem (menu s) = Some item ->
     overflowHovered dom = false ->
     let s' := deactivate_now (Some item) dom s in
     activeItem (menu s') = None /\
     ariaExpanded (menu s') !! item = Some "false" /\
     forall j : Item, ariaExpanded (menu s') !! j <> Some "true") /\
  (forall item : option Item,
     item = None \/ item <> activeItem (menu s) \/ overflowHovered dom = true ->
     deactivate_now item dom s = s).
Proof.
  intros Hreach. pose proof (reachable_menu_ok s Hreach) as Hm.
  split; [apply menu_ok_at_most_one, Hm|]. split.
  - intros event item Hitem Hne s'.
    assert (Hok : menu_ok (menu s')) by (apply activateHandler_menu_ok, Hm).
    assert (Hmenu : activeItem (menu s') = Some item /\
                    ariaExpanded (menu s') !! item = Some "true" /\
                    (forall prev, activeItem (menu s) = Some prev ->
                                  ariaExpanded (menu s') !! prev = Some "false")).
    { subst s'. unfold activateHandler, debouncedDeactivate_cancel.
      rewrite clearTimeout_menu.
      destruct (target event) as [element|] eqn:Htarget; [|discriminate Hitem].
      rewrite Hitem.
      destruct (decide (Some item = activeItem (menu s))) as [Heq|_]; [congruence|].
      simpl. split; [reflexivity|]. split; [apply lookup_insert_eq|].
      intros prev Hprev. rewrite Hprev.
      rewrite lookup_insert_ne by congruence. apply lookup_insert_eq. }
    destruct Hmenu as (Hactive & Hitem' & Hprev).
    repeat split; try assumption. apply menu_ok_at_most_one, Hok.
  - split.
    + intros i Hactive Hhover s'. subst s'. unfold deactivate_now.
      destruct (decide (Some i = activeItem (menu s))) as [_|Hne]; [|congruence].
      rewrite Hhover. simpl.
      split; [reflexivity|]. split; [apply lookup_insert_eq|].
      intros j Hj. destruct (decide (i = j)) as [->|Hij].
      * rewrite lookup_insert_eq in Hj. discriminate.
      * rewrite lookup_insert_ne in Hj by exact Hij. apply Hm in Hj. congruence.
    + intros item Hguard. unfold deactivate_now.
      destruct item as [i|]; [|reflexivity].
      destruct (decide (Some i = activeItem (menu s))) as [Heq|_]; [|reflexivity].
      destruct Hguard as [Hnone|[Hother| ->]];
        [discriminate|contradiction|reflexivity].
Qed.

(** With item 1 open, activating item 2 collapses item 1. *)
Lemma mega_menu_single_expanded_item_witness :
  let s' := activateHandler (Examples.pointer_on 2%nat) Examples.quiet_dom
              Examples.first_item_open in
  activeItem (menu s') = Some 2%nat /\
  ariaExpanded (menu s') !! 1%nat = Some "false" /\
  at_most_one_expanded (menu s').
Proof.
  destruct (mega_menu_single_expanded_item Examples.first_item_open
              Examples.quiet_dom first_item_open_reachable) as (_ & Hactivate & _ & _).
  destruct (Hactivate (Examples.pointer_on 2%nat) 2%nat eq_refl)
    as (Hactive & _ & Hprev & Hone).
  - discriminate.
  - split; [exact Hactive|]. split; [apply Hprev; reflexivity|exact Hone].
Defined.


Lemma clearTimeout_next_timer (h : option nat) (s : State) :
  next_timer (clearTimeout h s) = next_timer s.
Proof. destruct h; reflexivity. Qed.

Lemma clearTimeout_now (h : option nat) (s : State) :
  now (clearTimeout h s) = now s.
Proof. destruct h; reflexivity. Qed.

Lemma clearTimeout_activate_timeout (h : option nat) (s : State) :
  activate_timeout (clearTimeout h s) = activate_timeout s.
Proof. destruct h; reflexivity. Qed.

Lemma activate_timers (event : Event) (s : State) (t : Timer) :
  In t (timers (activate event s)) <->
  (In t (timers s) /\ deactivate_timeout s <> Some (timer_id t) /\
   activate_timeout s <> Some (timer_id t)) \/
  t = {| timer_id := next_timer s; due := now s + ACTIVATE_DELAY;
         callback := RunActivateHandler event |}.
Proof.
  unfold activate, debouncedActivateHandler, debouncedActivateHandler_cancel,
    debouncedDeactivate_cancel.
  set (s1 := clearTimeout (deactivate_timeout s) s).
  assert (Ha1 : activate_timeout s1 = activate_timeout s)
    by apply clearTimeout_activate_timeout.
  set (s2 := clearTimeout (activate_timeout s1) s1).
  assert (Ha2 : activate_timeout s2 = activate_timeout s)
    by (unfold s2; rewrite clearTimeout_activate_timeout; exact Ha1).
  set (s3 := clearTimeout (activate_timeout s2) s2).
  assert (Hnext : next_timer s3 = next_timer s /\ now s3 = now s).
  { unfold s3, s2, s1. rewrite !clearTimeout_next_timer, !clearTimeout_now.
    split; reflexivity. }
  destruct Hnext as [Hnext Hnow]. simpl. rewrite Hnext, Hnow.
  rewrite in_app_iff. simpl.
  assert (Hold : In t (timers s3) <->
                 In t (timers s) /\ deactivate_timeout s <> Some (timer_id t) /\
                 activate_timeout s <> Some (timer_id t)).
  { unfold s3. rewrite clearTimeout_timers, Ha2. unfold s2.
    rewrite clearTimeout_timers, Ha1. unfold s1. rewrite clearTimeout_timers. tauto. }
  rewrite Hold. split; [intros [H|[H|[]]]|intros [H|H]]; auto.
Qed.

Lemma debouncedDeactivate_timers (s : State) (t : Timer) :
  In t (timers (debouncedDeactivate s)) <->
  (In t (timers s) /\ deactivate_timeout s <> Some (timer_id t)) \/
  t = {| timer_id := next_timer s; due := now s + DEACTIVATE_DELAY;
         callback := RunDeactivate |}.
Proof.
  unfold debouncedDeactivate.
  set (s1 := clearTimeout (deactivate_timeout s) s).
  assert (Hnext : next_timer s1 = next_timer s /\ now s1 = now s)
    by (split; [apply clearTimeout_next_timer|apply clearTimeout_now]).
  destruct Hnext as [Hnext Hnow]. simpl. rewrite Hnext, Hnow.
  rewrite in_app_iff. simpl. unfold s1. rewrite clearTimeout_timers.
  split; [intros [H|[H|[]]]|intros [H|H]]; auto.
Qed.

Lemma pointer_left_reachable : reachable Examples.pointer_left.
Proof.
  apply (reachable_step Examples.first_item_open Examples.quiet_dom
           OverflowPointerLeave); [apply first_item_open_reachable|reflexivity].
Qed.

End MegaMenuFacts.

Section ParseIntFacts.
Import JS Decimal10.

Lemma parse_digits_stops (rest : string) (acc : option Z) :
  stops rest -> parse_digits 10 rest acc = acc.
Proof. destruct rest as [|c r]; simpl; [reflexivity|]. intros ->. reflexivity. Qed.

Lemma parse_digits_uint (d : Decimal.uint) (rest : string) (a : Z) :
  parse_digits 10 (NilEmpty.string_of_uint d +:+ rest) (Some a)
  = parse_digits 10 rest (Some (uint_value d a)).
Proof.
  revert a. induction d; intros a; cbn [NilEmpty.string_of_uint uint_value];
    [reflexivity|..];
    match goal with
    | |- parse_digits 10 (String ?c ?s +:+ rest) _ = _ =>
        change (String c s +:+ rest) with (String c (s +:+ rest))
    end; cbn [parse_digits]; apply IHd.
Qed.

Lemma uint_value_pos (d : Decimal.uint) (acc : positive) :
  uint_value d (Z.pos acc) = Z.pos (Pos.of_uint_acc d acc).
Proof.
  revert acc. induction d; intros acc; cbn [uint_value Pos.of_uint_acc];
    [reflexivity|..];
    match goal with
    | |- uint_value d ?x = Z.pos (Pos.of_uint_acc d ?y) =>
        replace x with (Z.pos y) by lia
    end; apply IHd.
Qed.

Lemma uint_value_zero (d : Decimal.uint) :
  uint_value d 0 = Z.of_N (Pos.of_uint d).
Proof.
  induction d; cbn [uint_value Pos.of_uint]; [reflexivity|exact IHd|..];
    match goal with
    | |- uint_value d ?x = Z.of_N (N.pos (Pos.of_uint_acc d ?y)) =>
        change x with (Z.pos y)
    end; rewrite uint_value_pos; reflexivity.
Qed.

Lemma to_uint_value (p : positive) : uint_value (Pos.to_uint p) 0 = Z.pos p.
Proof. rewrite uint_value_zero, Unsigned.of_to. reflexivity. Qed.

(** The decimal string of a positive number: a first character that is a
    digit, is not a space and does not start a [0x] prefix. *)
Lemma to_uint_string (p : positive) (rest : string) (acc : option Z) :
  exists c s,
    NilEmpty.string_of_uint (Pos.to_uint p) +:+ rest = String c s /\
    is_space c = false /\ c <> "-"%char /\ c <> "+"%char /\ c <> "0"%char /\
    parse_digits 10 (String c s) acc
      = parse_digits 10 rest (Some (uint_value (Pos.to_uint p) (default 0 acc))).
Proof.
  pose proof (to_uint_value p) as Hv.
  assert (Hacc : forall d r, d <> Decimal.Nil ->
            parse_digits 10 (NilEmpty.string_of_uint d +:+ r) acc
            = parse_digits 10 r (Some (uint_value d (default 0 acc)))).
  { intros d r Hd. destruct acc as [a|]; [apply parse_digits_uint|].
    destruct d; [congruence|..]; cbn [NilEmpty.string_of_uint uint_value];
      match goal with
      | |- parse_digits 10 (String ?c ?s +:+ r) _ = _ =>
          change (String c s +:+ r) with (String c (s +:+ r))
      end; cbn [parse_digits]; apply parse_digits_uint. }
  destruct (Pos.to_uint p) as [|d|d|d|d|d|d|d|d|d|d] eqn:Hd;
    try (cbn [uint_value] in Hv; discriminate Hv).
  { exfalso.
    assert (Hnorm : Pos.to_uint p = Decimal.unorm (Pos.to_uint p)).
    { rewrite <- Unsigned.to_of, Unsigned.of_to. reflexivity. }
    assert (Hnz : Decimal.nzhead (Pos.to_uint p) <> Decimal.Nil).
    { intros Hnil. apply unorm_0 in Hnil.
      apply (Unsigned.to_uint_nonzero p). congruence. }
    rewrite (unorm_nzhead _ Hnz), Hd in Hnorm.
    apply (nzhead_nonzero (Decimal.D0 d) d). symmetry. exact Hnorm. }
  all: eexists _, _; split; [reflexivity|];
    repeat (split; [first [reflexivity|discriminate]|]);
    rewrite <- (Hacc _ rest) by discriminate; reflexivity.
Qed.

Lemma parseInt_radix_plain (radix10 : bool) (c : ascii) (s : string) :
  is_space c = false -> c <> "-"%char -> c <> "+"%char -> c <> "0"%char ->
  parseInt_radix radix10 (String c s) = parse_digits 10 (String c s) None.
Proof.
  intros Hsp Hm Hp Hz. unfold parseInt_radix. cbn [skip_spaces]. rewrite Hsp.
  destruct c as [[] [] [] [] [] [] [] []]; try congruence;
    cbv iota beta; destruct (parse_digits 10 _ None); reflexivity.
Qed.

Lemma parseInt_radix_minus (radix10 : bool) (c : ascii) (s : string) :
  c <> "0"%char ->
  parseInt_radix radix10 (String "-" (String c s))
  = match parse_digits 10 (String c s) None with
    | Some n => Some (- n)
    | None => None
    end.
Proof.
  intros Hz. unfold parseInt_radix. cbn [skip_spaces].
  change (is_space "-") with false. cbv iota beta.
  destruct c as [[] [] [] [] [] [] [] []]; try congruence; reflexivity.
Qed.

Lemma parseInt_radix_zero (radix10 : bool) (rest : string) :
  stops rest -> radix10 = true \/ rest = EmptyString ->
  parseInt_radix radix10 (String "0" rest) = Some 0.
Proof.
  intros Hstops [-> | ->]; [|destruct radix10; reflexivity].
  unfold parseInt_radix. cbn [skip_spaces]. change (is_space "0") with false.
  cbv iota beta.
  assert (Hsame : match rest with
                  | String "x" r => (10, String "0" rest)
                  | String "X" r => (10, String "0" rest)
                  | _ => (10, String "0" rest)
                  end = (10, String "0" rest)).
  { destruct rest as [|[[] [] [] [] [] [] [] []] r]; reflexivity. }
  rewrite Hsame. cbn [parse_digits]. change (digit_val 10 "0") with (Some 0).
  cbv iota beta. rewrite (parse_digits_stops rest _ Hstops). reflexivity.
Qed.

(** [parseInt] reads back [String(n)] for every integer [n], also when
    text that is not a digit follows and the radix is 10. *)
Lemma parseInt_radix_string_of_Z (radix10 : bool) (n : Z) (rest : string) :
  stops rest -> radix10 = true \/ rest = EmptyString ->
  parseInt_radix radix10 (string_of_Z n +:+ rest) = Some n.
Proof.
  intros Hstops Hradix. unfold string_of_Z, Z.to_int.
  assert (Hpos : forall p,
            parseInt_radix radix10
              (NilEmpty.string_of_uint (Pos.to_uint p) +:+ rest) = Some (Z.pos p) /\
            parseInt_radix radix10
              (String "-" (NilEmpty.string_of_uint (Pos.to_uint p) +:+ rest))
              = Some (Z.neg p)).
  { intros p.
    destruct (to_uint_string p rest None) as (c & s & Heq & Hsp & Hm & Hpl & Hz & Hparse).
    rewrite Heq. change (default 0 None) with 0 in Hparse.
    rewrite to_uint_value in Hparse.
    rewrite (parse_digits_stops rest _ Hstops) in Hparse.
    rewrite (parseInt_radix_plain radix10 c s Hsp Hm Hpl Hz).
    rewrite (parseInt_radix_minus radix10 c s Hz), Hparse. split; reflexivity. }
  destruct n as [|p|p].
  - cbn [NilZero.string_of_int NilZero.string_of_uint NilEmpty.string_of_uint].
    change ("0" +:+ rest) with (String "0" rest).
    apply parseInt_radix_zero; assumption.
  - assert (Hne : Pos.to_uint p <> Decimal.Nil) by apply Unsigned.to_uint_nonnil.
    cbn [NilZero.string_of_int]. unfold NilZero.string_of_uint.
    destruct (Pos.to_uint p) eqn:Hd; [congruence|..]; rewrite <- Hd; apply Hpos.
  - assert (Hne : Pos.to_uint p <> Decimal.Nil) by apply Unsigned.to_uint_nonnil.
    cbn [NilZero.string_of_int]. unfold NilZero.string_of_uint.
    destruct (Pos.to_uint p) eqn:Hd; [congruence|..]; rewrite <- Hd; apply Hpos.
Qed.

Lemma parseInt_string_of_Z_any (n : Z) : parseInt (string_of_Z n) = Some n.
Proof.
  unfold parseInt.
  rewrite <- (parseInt_radix_string_of_Z false n EmptyString I (or_intror eq_refl)).
  f_equal. induction (string_of_Z n) as [|c s IH]; [reflexivity|].
  change (String c s = String c (s +:+ EmptyString)). f_equal. exact IH.
Qed.

End ParseIntFacts.

(** ** Quantity selector: values typed by the user *)

Section QuantityMoreFacts.
Import JS Quantity.

(** X1: for an input that holds the decimal string of an integer [n]
    between -2^53 and 2^53, where the numbers of the listeners are
    exact, a minus click takes 1 off when [n > 1] and changes nothing
    otherwise, and a plus click adds 1 when [n < 999] (reading 0 as 1,
    so that 0 becomes 2) and changes nothing otherwise: the buttons step
    a typed out-of-range value, they do not clamp it. *)
Theorem quantity_click_on_any_integer (n : Z) :
  - 2 ^ 53 <= n <= 2 ^ 53 ->
  minus_click (string_of_Z n)
    = (if 1 <? n then string_of_Z (n - 1) else string_of_Z n) /\
  plus_click (string_of_Z n)
    = (if n =? 0 then string_of_Z 2
       else if n <? 999 then string_of_Z (n + 1) else string_of_Z n).
Proof.
  intros _. unfold minus_click, plus_click. rewrite parseInt_string_of_Z_any.
  destruct (Z.eqb_spec n 0) as [->|Hn]; [split; reflexivity|].
  assert (Hone : or_one (Some n) = n) by (destruct n; [congruence|reflexivity|reflexivity]).
  rewrite Hone. split; reflexivity.
Qed.

(** A typed 0 is left by the minus button and becomes 2 by the plus
    button; a typed 1500 goes down to 1499 and cannot go up. *)
Lemma quantity_click_on_any_integer_witness :
  minus_click "0" = "0" /\ plus_click "0" = "2" /\
  minus_click "1500" = "1499" /\ plus_click "1500" = "1500".
Proof.
  assert (Hrange : forall n, -1 <= n <= 2000 -> - 2 ^ 53 <= n <= 2 ^ 53).
  { intros n Hn. assert (H53 : 2000 <= 2 ^ 53) by (vm_compute; discriminate). lia. }
  destruct (quantity_click_on_any_integer 0 (Hrange 0 ltac:(lia))) as [Hm0 Hp0].
  destruct (quantity_click_on_any_integer 1500 (Hrange 1500 ltac:(lia))) as [Hm Hp].
  split; [exact Hm0|]. split; [exact Hp0|]. split; [exact Hm|exact Hp].
Defined.

(** X2: when [parseInt] cannot read the value of the input, a minus click
    leaves the value as it is, and a plus click sets it to 2; after that
    plus click the value stays the decimal string of an integer between
    1 and 999 under every further sequence of clicks. *)
Theorem quantity_click_on_unreadable_value (value : string) (cs : list Click) :
  parseInt value = None ->
  minus_click value = value /\
  plus_click value = string_of_Z 2 /\
  exists n : Z, 1 <= n <= 999 /\ clicks (Plus :: cs) value = string_of_Z n.
Proof.
  intros Hnan. unfold minus_click, plus_click. rewrite Hnan. simpl.
  split; [reflexivity|]. split; [reflexivity|].
  unfold clicks. simpl. unfold plus_click. rewrite Hnan. simpl.
  apply (clicks_number cs 2). lia.
Qed.

Lemma quantity_click_on_unreadable_value_witness :
  minus_click "abc" = "abc" /\
  exists n : Z, 1 <= n <= 999 /\ clicks [Plus; Minus; Minus] "abc" = string_of_Z n.
Proof.
  destruct (quantity_click_on_unreadable_value "abc" [Minus; Minus] eq_refl)
    as (Hminus & _ & Hrange).
  split; [exact Hminus|exact Hrange].
Defined.

(** X3: after every sequence of clicks on the minus and plus buttons,
    starting from the rendered value 1, the quantity that
    [#handleAddToCart] puts in the form is the integer the input shows,
    between 1 and 999. *)
Theorem add_to_cart_quantity_after_clicks
    (cs : list Click) (variantGroups : list VariantPicker.Group)
    (product : QuickView.ProductData) (variant_id : jsval) (quantity : Z) :
  VariantPicker.handleAddToCart_form (clicks cs initial_value) variantGroups product
    = Ok (Some (variant_id, quantity)) ->
  1 <= quantity <= 999 /\ clicks cs initial_value = string_of_Z quantity.
Proof.
  destruct (clicks_number cs 1 ltac:(lia)) as (n & Hn & Hcs).
  change (string_of_Z 1) with initial_value in Hcs. rewrite Hcs.
  unfold VariantPicker.handleAddToCart_form.
  rewrite (parseInt_string_of_Z n Hn), (or_one_in_range n Hn).
  destruct (VariantPicker.getSelectedVariant variantGroups product) as [v|e];
    simpl; [|discriminate].
  destruct (truthy v); simpl; [|discriminate].
  destruct (get_prop v "id"); simpl; [|discriminate].
  intros [= _ <-]. split; [exact Hn|reflexivity].
Qed.

Lemma add_to_cart_quantity_after_clicks_witness :
  1 <= 3 <= 999 /\ clicks [Plus; Plus] initial_value = string_of_Z 3.
Proof.
  apply (add_to_cart_quantity_after_clicks [Plus; Plus] Examples.groups_L_Blue
           Examples.mug_data (JNum 101) 3).
  reflexivity.
Defined.

End QuantityMoreFacts.

(** ** Quick-view drawer: extraction, rendering and loads in sequence *)

Section DrawerMoreFacts.
Import JS QuickView QuickViewMore.
Variable P : Platform.

Lemma get_prop_truthy (v : jsval) (k : string) :
  truthy v = true -> exists x, get_prop v k = Ok x.
Proof. destruct v; simpl; try discriminate; eauto. Qed.

Lemma or_else_truthy (v : jsval) : truthy (or_else v (JArr [])) = true.
Proof. unfold or_else. destruct (truthy v) eqn:Hv; [exact Hv|reflexivity]. Qed.

(** X4: [#extractProductData] throws 'Product data not found' when the
    document has no [[data-product-json]] element or its JSON is a falsy
    value, and lets a [JSON.parse] error through; otherwise it returns
    the ten properties of the parsed value, with the empty array in place
    of a missing or falsy [images], [variants] or [options], so that
    these three are never [undefined]. *)
Theorem extractProductData_cases (doc : Document) :
  match data_product_json doc with
  | None => extractProductData P doc = Throw "Product data not found"
  | Some textContent =>
      match JSON_parse P textContent with
      | Throw e => extractProductData P doc = Throw e
      | Ok product =>
          if truthy product then
            exists d : ProductData,
              extractProductData P doc = Ok d /\
              get_prop product "id" = Ok (id d) /\
              get_prop product "title" = Ok (title d) /\
              get_prop product "description" = Ok (description d) /\
              get_prop product "price" = Ok (price d) /\
              get_prop product "compare_at_price" = Ok (compare_at_price d) /\
              get_prop product "available" = Ok (available d) /\
              get_prop product "handle" = Ok (handle d) /\
              (exists v, get_prop product "images" = Ok v /\
                         images d = if truthy v then v else JArr []) /\
              (exists v, get_prop product "variants" = Ok v /\
                         variants d = if truthy v then v else JArr []) /\
              (exists v, get_prop product "options" = Ok v /\
                         options d = if truthy v then v else JArr []) /\
              truthy (images d) = true /\
              truthy (variants d) = true /\
              truthy (options d) = true
          else extractProductData P doc = Throw "Product data not found"
      end
  end.
Proof.
  unfold extractProductData.
  destruct (data_product_json doc) as [textContent|]; [|reflexivity].
  destruct (JSON_parse P textContent) as [product|e]; [|reflexivity].
  simpl. destruct (truthy product) eqn:Htruthy; [|reflexivity]. simpl.
  destruct (get_prop_truthy product "id" Htruthy) as [x1 ->].
  destruct (get_prop_truthy product "title" Htruthy) as [x2 ->].
  destruct (get_prop_truthy product "description" Htruthy) as [x3 ->].
  destruct (get_prop_truthy product "price" Htruthy) as [x4 ->].
  destruct (get_prop_truthy product "compare_at_price" Htruthy) as [x5 ->].
  destruct (get_prop_truthy product "available" Htruthy) as [x6 ->].
  destruct (get_prop_truthy product "images" Htruthy) as [x7 ->].
  destruct (get_prop_truthy product "variants" Htruthy) as [x8 ->].
  destruct (get_prop_truthy product "options" Htruthy) as [x9 ->].
  destruct (get_prop_truthy product "handle" Htruthy) as [x10 ->].
  simpl. eexists. split; [reflexivity|]. simpl.
  repeat (split; [reflexivity|]).
  split; [exists x7; split; reflexivity|].
  split; [exists x8; split; reflexivity|].
  split; [exists x9; split; reflexivity|].
  repeat split; apply or_else_truthy.
Qed.

Lemma array_map_ok {B : Type} (f : jsval -> nat -> result B) (l : list jsval) :
  (exists ys, array_map f (JArr l) = Ok ys) <->
  forall (i : nat) (x : jsval), l !! i = Some x -> exists y, f x i = Ok y.
Proof.
  unfold array_map.
  assert (Hgo : forall start,
    (exists ys,
       (fix go (l0 : list jsval) (i : nat) {struct l0} : result (list B) :=
          match l0 with
          | [] => Ok []
          | x :: r => y ← f x i; ys ← go r (S i); Ok (y :: ys)
          end) l start = Ok ys) <->
    (forall i x, l !! i = Some x -> exists y, f x (start + i)%nat = Ok y)).
  { induction l as [|x l IH]; intros start.
    - split; [intros _ i x' Hi; discriminate Hi|intros _; eauto].
    - split.
      + intros [ys Hys] [|i] x' Hi; simpl in Hi.
        * injection Hi as <-. rewrite Nat.add_0_r.
          destruct (f x start) as [y|e]; [eauto|discriminate Hys].
        * replace (start + S i)%nat with (S start + i)%nat by lia.
          apply (proj1 (IH (S start))); [|exact Hi].
          destruct (f x start) as [y|e]; [|discriminate Hys]. simpl in Hys.
          match type of Hys with
          | context [mbind _ ?g] => destruct g as [ys'|e'] eqn:Hgo
          end; [eauto|discriminate Hys].
      + intros Hall. destruct (Hall 0%nat x eq_refl) as [y Hy].
        rewrite Nat.add_0_r in Hy. rewrite Hy. simpl.
        destruct (proj2 (IH (S start))) as [ys Hys].
        { intros i x' Hi. replace (S start + i)%nat with (start + S i)%nat by lia.
          apply Hall. exact Hi. }
        rewrite Hys. simpl. eauto. }
  rewrite (Hgo 0%nat). reflexivity.
Qed.


Lemma length_is_zero_truthy (v : jsval) :
  truthy v = true -> exists b, length_is_zero v = Ok b.
Proof.
  intros Hv. unfold length_is_zero.
  destruct (get_prop_truthy v "length" Hv) as [len ->]. simpl. eauto.
Qed.

Lemma buildMediaGallery_ok (images : jsval) :
  (exists html, buildMediaGallery images = Ok html) <-> renderable_images images.
Proof.
  unfold buildMediaGallery, renderable_images.
  destruct (truthy images) eqn:Htruthy; simpl; [|split; eauto].
  destruct (length_is_zero_truthy images Htruthy) as [b Hb]. rewrite Hb. simpl.
  destruct b; [split; eauto|].
  split.
  - intros [html Hhtml]. right. right.
    destruct images; try discriminate Hhtml. eauto.
  - intros [H|[H|[items ->]]]; [discriminate|discriminate|eauto].
Qed.

Lemma variant_group_ok (option : jsval) (index : nat) :
  (exists html, variant_group option index = Ok html) <-> renderable_option option.
Proof.
  unfold variant_group, renderable_option. split.
  - intros [html Hhtml].
    destruct (get_prop option "name") as [name|e]; [|discriminate Hhtml].
    simpl in Hhtml.
    destruct (get_prop option "values") as [values|e]; [|discriminate Hhtml].
    simpl in Hhtml.
    destruct values; try discriminate Hhtml. eauto.
  - intros [values Hvalues].
    assert (Hname : exists name, get_prop option "name" = Ok name).
    { destruct option; simpl in *; try discriminate; eauto. }
    destruct Hname as [name ->]. rewrite Hvalues.
    cbv beta iota delta [mbind result_bind].
    destruct (proj2 (array_map_ok (fun value _ => Ok (variant_option value)) values))
      as [buttons Hbuttons]; [eauto|].
    rewrite Hbuttons. eauto.
Qed.

Lemma buildVariantOptions_ok (product : ProductData) :
  (exists html, buildVariantOptions product = Ok html)
  <-> renderable_options (options product).
Proof.
  unfold buildVariantOptions, renderable_options.
  destruct (truthy (options product)) eqn:Htruthy; simpl; [|split; eauto].
  destruct (length_is_zero_truthy _ Htruthy) as [b Hb]. rewrite Hb. simpl.
  destruct b; [split; eauto|].
  split.
  - intros [html Hhtml]. right. right.
    destruct (array_map variant_group (options product)) as [groups|e] eqn:Hmap;
      [|discriminate Hhtml].
    destruct (options product) as [| | | | |opts|]; try discriminate Hmap.
    exists opts. split; [reflexivity|].
    apply Forall_forall. intros x Hx.
    apply list_elem_of_lookup in Hx as [i Hi].
    apply (variant_group_ok x i).
    apply (proj1 (array_map_ok variant_group opts)); eauto.
  - intros [H|[H|(opts & Hopts & Hall)]]; [discriminate|discriminate|].
    rewrite Hopts.
    destruct (proj2 (array_map_ok variant_group opts)) as [groups Hgroups].
    { intros i x Hi. apply variant_group_ok.
      rewrite Forall_forall in Hall. apply Hall. eapply list_elem_of_lookup_2, Hi. }
    cbv beta iota delta [mbind result_bind]. rewrite Hgroups. eauto.
Qed.

(** The markup of a product can be built exactly when its images and its
    options can be handled. *)
Lemma buildProductContent_renderable (product : ProductData) :
  (exists html, buildProductContent P product = Ok html) <->
  renderable_images (images product) /\ renderable_options (options product).
Proof.
  rewrite <- buildMediaGallery_ok, <- buildVariantOptions_ok.
  unfold buildProductContent.
  destruct (buildMediaGallery (images product)) as [gallery|e]; simpl.
  - destruct (buildVariantOptions product) as [variantOptions|e]; simpl.
    + split; eauto.
    + split; [intros [html H]; discriminate H|intros [_ [html H]]; discriminate H].
  - split; [intros [html H]; discriminate H|intros [[html H] _]; discriminate H].
Qed.

(** X5: [#buildProductContent] returns markup only for images and
    options it can handle: it throws whenever the images are a truthy
    value of non-zero length that is not an array, or the options are
    such a value or an array with an entry that carries no array of
    values. *)
Theorem buildProductContent_throws_unless_renderable (product : ProductData) :
  ~ (renderable_images (images product) /\ renderable_options (options product)) ->
  exists e, buildProductContent P product = Throw e.
Proof.
  intros Hbad. destruct (buildProductContent P product) as [html|e] eqn:Hb; [|eauto].
  destruct Hbad. apply buildProductContent_renderable. eauto.
Qed.

Lemma fetchProductData_ok (h : string) (net : Network) (doc : Document)
    (d : ProductData) :
  net ("/products/" +:+ h +:+ "?view=quick-view")
    = Some {| ok := true; body := Some doc |} ->
  extractProductData P doc = Ok d ->
  fetchProductData P h net = Ok d.
Proof.
  intros Hnet Hextract. unfold fetchProductData, product_url.
  rewrite Hnet. simpl. exact Hextract.
Qed.

Lemma fetches_after_miss (h : string) (net : Network) (s : State) :
  cachedContent s !! h = None ->
  fetches (loadProductData P h net s) = (fetches s ++ [product_url h])%list.
Proof.
  intros Hmiss. destruct (fetchProductData P h net) as [d|e] eqn:Hf.
  - rewrite (loadProductData_miss_ok P h net s d Hmiss Hf).
    unfold fetches. cbn [calls].
    rewrite app_assoc, fetches_render_errors, omap_app. reflexivity.
  - rewrite (loadProductData_miss_throw P h net s e Hmiss Hf).
    unfold fetches. simpl. rewrite omap_app. reflexivity.
Qed.

(** X7: a load that fails before the product data is there (the fetch is
    rejected, the response is not ok, or the data cannot be extracted)
    caches nothing, so the next load of the handle fetches the same URL
    again; if that fetch gives the data, it is stored and rendered. *)
Theorem failed_load_is_retried
    (productHandle : string) (net1 net2 : Network) (s : State) (e : string) :
  cachedContent s !! productHandle = None ->
  fetchProductData P productHandle net1 = Throw e ->
  let url := "/products/" +:+ productHandle +:+ "?view=quick-view" in
  let s1 := loadProductData P productHandle net1 s in
  let s2 := loadProductData P productHandle net2 s1 in
  drawerContent s1 = error_markup /\
  cachedContent s1 = cachedContent s /\
  fetches s2 = (fetches s ++ [url; url])%list /\
  forall productData : ProductData,
    fetchProductData P productHandle net2 = Ok productData ->
    cachedContent s2 !! productHandle = Some productData /\
    drawerContent s2 = rendered P productData.
Proof.
  intros Hmiss Hfail url s1 s2.
  assert (Hs1 : s1 = {| cachedContent := cachedContent s;
                        drawerContent := error_markup;
                        calls := (calls s ++ [Fetch (product_url productHandle);
                                              ConsoleError])%list |})
    by apply (loadProductData_miss_throw P productHandle net1 s e Hmiss Hfail).
  assert (Hmiss1 : cachedContent s1 !! productHandle = None)
    by (rewrite Hs1; exact Hmiss).
  assert (Hf1 : fetches s1 = (fetches s ++ [url])%list).
  { rewrite Hs1. unfold fetches. simpl. rewrite omap_app. reflexivity. }
  split; [rewrite Hs1; reflexivity|]. split; [rewrite Hs1; reflexivity|].
  pose proof (fetches_after_miss productHandle net2 s1 Hmiss1) as Hf2.
  split.
  - fold s2 in Hf2. unfold product_url in Hf2. fold url in Hf2.
    rewrite Hf2, Hf1, <- app_assoc. reflexivity.
  - intros productData Hok. unfold s2.
    rewrite (loadProductData_miss_ok P productHandle net2 s1 productData Hmiss1 Hok).
    simpl. split; [apply lookup_insert_eq|reflexivity].
Qed.

Lemma distinct_by_prefix (probe a b : string) :
  String.prefix probe a = true -> String.prefix probe b = false -> a <> b.
Proof. intros Ha Hb ->. congruence. Qed.

Lemma buildProductContent_not_loading (product : ProductData) (html : string) :
  buildProductContent P product = Ok html -> html <> loading_markup.
Proof.
  unfold buildProductContent.
  destruct (buildMediaGallery (images product)) as [gallery|e]; [|discriminate].
  destruct (buildVariantOptions product) as [variantOptions|e]; [|discriminate].
  simpl. intros [= <-].
  apply (distinct_by_prefix (tpl "
      <div class='quick-view-product")); [|vm_compute; reflexivity].
  apply decided_prefix_spec. vm_compute. reflexivity.
Qed.

(** X8: whatever the cache holds and however the network answers, a load
    never leaves the loading spinner in the drawer: it ends with the
    markup of the product or with the error state. *)
Theorem loadProductData_ends_loading
    (productHandle : string) (net : Network) (s : State) :
  let s' := loadProductData P productHandle net s in
  drawerContent s' <> loading_markup /\
  (drawerContent s' = error_markup \/
   exists productData html,
     cachedContent s' !! productHandle = Some productData /\
     buildProductContent P productData = Ok html /\ drawerContent s' = html).
Proof.
  intros s'.
  assert (Hcases :
    drawerContent s' = error_markup \/
    exists productData html,
      cachedContent s' !! productHandle = Some productData /\
      buildProductContent P productData = Ok html /\ drawerContent s' = html).
  { unfold s'. destruct (cachedContent s !! productHandle) as [d|] eqn:Hh.
    - rewrite (loadProductData_hit P productHandle net s d Hh). simpl.
      unfold rendered. destruct (buildProductContent P d) as [html|e] eqn:Hb;
        [right; eauto|left; reflexivity].
    - destruct (fetchProductData P productHandle net) as [d|e] eqn:Hf.
      + rewrite (loadProductData_miss_ok P productHandle net s d Hh Hf). simpl.
        unfold rendered. destruct (buildProductContent P d) as [html|e] eqn:Hb;
          [right|left; reflexivity].
        exists d, html. split; [apply lookup_insert_eq|]. split; [exact Hb|reflexivity].
      + rewrite (loadProductData_miss_throw P productHandle net s e Hh Hf).
        left. reflexivity. }
  split; [|exact Hcases].
  destruct Hcases as [->|(d & html & _ & Hb & ->)].
  - vm_compute. discriminate.
  - apply (buildProductContent_not_loading d html Hb).
Qed.


End DrawerMoreFacts.

Section DrawerMoreExamples.
Import JS QuickView QuickViewMore.

(** The options of the tee are names without values. *)
Lemma buildProductContent_throws_unless_renderable_witness :
  exists e, buildProductContent MoreExamples.platform MoreExamples.tee_data = Throw e.
Proof.
  apply (buildProductContent_throws_unless_renderable MoreExamples.platform).
  intros [_ [H|[H|(opts & Hopts & Hall)]]]; try discriminate.
  injection Hopts as <-. inversion Hall as [|x rest [values Hv] _]. discriminate Hv.
Defined.

(** The mug is loaded while the network is down and then again when the
    shop answers. *)
Lemma failed_load_is_retried_witness :
  let s1 := loadProductData Examples.platform "mug" Examples.offline
              Examples.closed_drawer in
  let s2 := loadProductData Examples.platform "mug" Examples.shop s1 in
  drawerContent s1 = error_markup /\
  fetches s2 = ["/products/mug?view=quick-view"; "/products/mug?view=quick-view"] /\
  cachedContent s2 !! "mug" = Some Examples.mug_data.
Proof.
  destruct (failed_load_is_retried Examples.platform "mug" Examples.offline
              Examples.shop Examples.closed_drawer _ eq_refl eq_refl)
    as (Herr & _ & Hfetches & Hdata).
  destruct (Hdata Examples.mug_data eq_refl) as [Hcached _].
  repeat split; assumption.
Defined.

End DrawerMoreExamples.

(** ** Quick-view drawer: loads that await their response *)

Section AsyncDrawerFacts.
Import JS QuickView QuickViewMore QuickViewAsync.
Variable P : Platform.

Lemma fetches_call (c : Call) (d : QuickView.State) :
  fetches (call c d)
  = (fetches d ++ match c with
                  | Fetch url => [url]
                  | _ => []
                  end)%list.
Proof.
  unfold fetches, call. simpl. rewrite omap_app. destruct c; reflexivity.
Qed.

Lemma shown_call (c : Call) (d : QuickView.State) :
  shown (call c d) = (shown d + if is_ShowDialog c then 1 else 0)%nat.
Proof.
  unfold shown, call. simpl. rewrite List.filter_app, length_app.
  destruct c; reflexivity.
Qed.

Lemma show_product_fields (productData : ProductData) (d : QuickView.State) :
  cachedContent (show_product P productData d) = cachedContent d /\
  drawerContent (show_product P productData d) = rendered P productData /\
  fetches (show_product P productData d) = fetches d /\
  shown (show_product P productData d) = shown d.
Proof.
  unfold show_product, updateDrawerContent, rendered.
  destruct (buildProductContent P productData) as [content|e]; simpl.
  - repeat split.
  - unfold catch_error, showError. cbn [cachedContent drawerContent set_drawerContent].
    split; [reflexivity|]. split; [reflexivity|].
    change (fetches (set_drawerContent error_markup (call ConsoleError d)))
      with (fetches (call ConsoleError d)).
    change (shown (set_drawerContent error_markup (call ConsoleError d)))
      with (shown (call ConsoleError d)).
    rewrite fetches_call, shown_call. simpl. rewrite app_nil_r, Nat.add_0_r. auto.
Qed.

Lemma finish_fields (b : bool) (d : QuickView.State) :
  cachedContent (finish b d) = cachedContent d /\
  drawerContent (finish b d) = drawerContent d /\
  fetches (finish b d) = fetches d /\
  shown (finish b d) = (shown d + if b then 1 else 0)%nat.
Proof.
  destruct b; simpl.
  - rewrite fetches_call, shown_call. simpl. rewrite app_nil_r. auto.
  - rewrite Nat.add_0_r. auto.
Qed.

Lemma catch_error_fields (d : QuickView.State) :
  cachedContent (catch_error d) = cachedContent d /\
  drawerContent (catch_error d) = error_markup /\
  fetches (catch_error d) = fetches d /\
  shown (catch_error d) = shown d.
Proof.
  unfold catch_error, showError.
  change (fetches (set_drawerContent error_markup (call ConsoleError d)))
    with (fetches (call ConsoleError d)).
  change (shown (set_drawerContent error_markup (call ConsoleError d)))
    with (shown (call ConsoleError d)).
  rewrite fetches_call, shown_call. simpl. rewrite app_nil_r, Nat.add_0_r. auto.
Qed.

(** A load that starts while the handle is in the cache. *)
Lemma start_load_hit (h : string) (b : bool) (s : State) (productData : ProductData) :
  cachedContent (drawer s) !! h = Some productData ->
  let s1 := start_load P h b s in
  awaiting s1 = awaiting s /\
  cachedContent (drawer s1) = cachedContent (drawer s) /\
  drawerContent (drawer s1) = rendered P productData /\
  fetches (drawer s1) = fetches (drawer s) /\
  shown (drawer s1) = (shown (drawer s) + if b then 1 else 0)%nat.
Proof.
  intros Hhit s1. unfold s1, start_load.
  change (cachedContent (showLoading (drawer s))) with (cachedContent (drawer s)).
  rewrite Hhit. cbn [awaiting drawer].
  destruct (finish_fields b (show_product P productData (showLoading (drawer s))))
    as (-> & -> & -> & ->).
  destruct (show_product_fields productData (showLoading (drawer s)))
    as (-> & -> & -> & ->).
  repeat split.
Qed.

(** A load that starts while the handle is not in the cache. *)
Lemma start_load_miss (h : string) (b : bool) (s : State) :
  cachedContent (drawer s) !! h = None ->
  let s1 := start_load P h b s in
  awaiting s1 = (awaiting s ++ [{| awaited_handle := h; from_click := b |}])%list /\
  cachedContent (drawer s1) = cachedContent (drawer s) /\
  drawerContent (drawer s1) = loading_markup /\
  fetches (drawer s1) = (fetches (drawer s) ++ [product_url h])%list /\
  shown (drawer s1) = shown (drawer s).
Proof.
  intros Hmiss s1. unfold s1, start_load.
  change (cachedContent (showLoading (drawer s))) with (cachedContent (drawer s)).
  rewrite Hmiss. cbn [awaiting drawer]. rewrite fetches_call, shown_call.
  simpl. rewrite Nat.add_0_r. repeat split.
Qed.

(** The answer to a load that waits. *)
Lemma settle_load_fields (a : Awaiting) (net : Network) (d : QuickView.State) :
  let d1 := settle_load P a net d in
  fetches d1 = fetches d /\
  shown d1 = (shown d + if from_click a then 1 else 0)%nat /\
  match fetchProductData P (awaited_handle a) net with
  | Ok productData =>
      cachedContent d1 = <[awaited_handle a := productData]> (cachedContent d) /\
      drawerContent d1 = rendered P productData
  | Throw _ =>
      cachedContent d1 = cachedContent d /\ drawerContent d1 = error_markup
  end.
Proof.
  intros d1. unfold d1, settle_load.
  destruct (fetchProductData P (awaited_handle a) net) as [productData|e].
  - match goal with |- context [finish ?b ?x] =>
      destruct (finish_fields b x) as (-> & -> & -> & ->) end.
    match goal with |- context [show_product P ?x ?y] =>
      destruct (show_product_fields x y) as (-> & -> & -> & ->) end.
    repeat split.
  - match goal with |- context [finish ?b ?x] =>
      destruct (finish_fields b x) as (-> & -> & -> & ->) end.
    destruct (catch_error_fields d) as (-> & -> & -> & ->).
    repeat split.
Qed.

(** The drawer before the load of a click starts. *)
Lemma click_cases (event : ClickEvent) (s : State) :
  click P event s = s /\ complete event = false \/
  exists d,
    cachedContent d = cachedContent (drawer s) /\
    fetches d = fetches (drawer s) /\ shown d = shown (drawer s) /\
    (click P event s = {| drawer := d; awaiting := awaiting s |} /\
     complete event = false \/
     exists h, click P event s = start_load P h true {| drawer := d; awaiting := awaiting s |} /\
               complete event = true).
Proof.
  unfold click, complete. destruct (quickViewBtn event) as [btn|]; [|left; auto].
  right. exists (call StopPropagation (call PreventDefault (drawer s))).
  rewrite !fetches_call, !shown_call. simpl. rewrite !app_nil_r, !Nat.add_0_r.
  do 3 (split; [reflexivity|]). rewrite <- negb_andb.
  destruct (present (dataset_productId btn) && present (dataset_productHandle btn));
    cbn [negb]; [right; eauto|left; auto].
Qed.

(** A handle that is in the cache stays there. *)
Lemma step_keeps_cached (i : Input) (s s' : State) (h : string) :
  step P i s = Some s' ->
  is_Some (cachedContent (drawer s) !! h) ->
  is_Some (cachedContent (drawer s') !! h).
Proof.
  assert (Hstart : forall h' b s0,
            is_Some (cachedContent (drawer s0) !! h) ->
            is_Some (cachedContent (drawer (start_load P h' b s0)) !! h)).
  { intros h' b s0 Hs0. destruct (cachedContent (drawer s0) !! h') as [d|] eqn:Hh'.
    - destruct (start_load_hit h' b s0 d Hh') as (_ & -> & _). exact Hs0.
    - destruct (start_load_miss h' b s0 Hh') as (_ & -> & _). exact Hs0. }
  intros Hstep Hs. destruct i as [h'|event|n net]; simpl in Hstep.
  - injection Hstep as <-. apply Hstart, Hs.
  - injection Hstep as <-.
    destruct (click_cases event s) as [[-> _]|(d & Hc & _ & _ & [[-> _]|(h' & -> & _)])].
    + exact Hs.
    + simpl. rewrite Hc. exact Hs.
    + apply Hstart. simpl. rewrite Hc. exact Hs.
  - destruct (awaiting s !! n) as [a|]; [|discriminate]. injection Hstep as <-.
    cbn [drawer]. destruct (settle_load_fields a net (drawer s)) as (_ & _ & Hcase).
    destruct (fetchProductData P (awaited_handle a) net) as [d|e];
      destruct Hcase as [-> _]; [|exact Hs].
    destruct (decide (awaited_handle a = h)) as [->|Hne].
    + rewrite lookup_insert_eq. eauto.
    + rewrite lookup_insert_ne by exact Hne. exact Hs.
Qed.


(** An entry is kept as it is while no load of its handle waits, and
    then no load of the handle starts to wait. *)
Lemma step_keeps_entry (i : Input) (s s' : State) (h : string) (productData : ProductData) :
  step P i s = Some s' ->
  cachedContent (drawer s) !! h = Some productData ->
  no_load_of h (awaiting s) ->
  cachedContent (drawer s') !! h = Some productData /\ no_load_of h (awaiting s').
Proof.
  assert (Hstart : forall h' b s0,
            cachedContent (drawer s0) !! h = Some productData ->
            no_load_of h (awaiting s0) ->
            cachedContent (drawer (start_load P h' b s0)) !! h = Some productData /\
            no_load_of h (awaiting (start_load P h' b s0))).
  { intros h' b s0 Hs0 Hnone.
    destruct (cachedContent (drawer s0) !! h') as [d|] eqn:Hh'.
    - destruct (start_load_hit h' b s0 d Hh') as (-> & -> & _). auto.
    - destruct (start_load_miss h' b s0 Hh') as (-> & -> & _). split; [exact Hs0|].
      apply Forall_app. split; [exact Hnone|].
      apply Forall_singleton. simpl. intros ->. congruence. }
  intros Hstep Hs Hnone. destruct i as [h'|event|n net]; simpl in Hstep.
  - injection Hstep as <-. apply Hstart; assumption.
  - injection Hstep as <-.
    destruct (click_cases event s) as [[-> _]|(d & Hc & _ & _ & [[-> _]|(h' & -> & _)])].
    + auto.
    + simpl. rewrite Hc. auto.
    + apply Hstart; simpl; [rewrite Hc|]; assumption.
  - destruct (awaiting s !! n) as [a|] eqn:Ha; [|discriminate]. injection Hstep as <-.
    cbn [drawer awaiting].
    assert (Hne : awaited_handle a <> h).
    { unfold no_load_of in Hnone. rewrite Forall_forall in Hnone.
      apply Hnone. eapply list_elem_of_lookup_2, Ha. }
    split; [|apply Forall_delete, Hnone].
    destruct (settle_load_fields a net (drawer s)) as (_ & _ & Hcase).
    destruct (fetchProductData P (awaited_handle a) net) as [d|e];
      destruct Hcase as [-> _]; [|exact Hs].
    rewrite lookup_insert_ne by exact Hne. exact Hs.
Qed.

Lemma run_keeps_entry (inputs : list Input) (s s' : State) (h : string)
    (productData : ProductData) :
  run P inputs s = Some s' ->
  cachedContent (drawer s) !! h = Some productData ->
  no_load_of h (awaiting s) ->
  cachedContent (drawer s') !! h = Some productData /\ no_load_of h (awaiting s').
Proof.
  revert s. induction inputs as [|i rest IH]; intros s Hrun Hs Hnone; simpl in Hrun.
  - injection Hrun as <-. auto.
  - destruct (step P i s) as [s1|] eqn:Hstep; [|discriminate].
    destruct (step_keeps_entry i s s1 h productData Hstep Hs Hnone) as [Hs1 Hnone1].
    apply (IH s1 Hrun Hs1 Hnone1).
Qed.

(** A load whose answer arrives before anything else happens is the load
    run to completion. *)
Lemma load_then_settle (h : string) (net : Network) (d : QuickView.State) :
  run P [Load h; Settle 0 net] (idle d) = Some (idle (loadProductData P h net d)) \/
  (is_Some (cachedContent d !! h) /\
   step P (Load h) (idle d) = Some (idle (loadProductData P h net d))).
Proof.
  unfold idle, loadProductData. cbn [run step]. unfold start_load. cbn [drawer awaiting].
  change (cachedContent (showLoading d)) with (cachedContent d).
  destruct (cachedContent d !! h) as [productData|] eqn:Hh.
  - right. split; [eauto|]. reflexivity.
  - left. cbn [app lookup list_lookup awaiting drawer delete list_delete].
    unfold settle_load, show_product. cbn [awaited_handle from_click finish].
    destruct (fetchProductData P h net); reflexivity.
Qed.


Lemma length_filter_delete {A : Type} (p : A -> bool) (l : list A) (n : nat) (x : A) :
  l !! n = Some x ->
  length (List.filter p l)
  = ((if p x then 1 else 0) + length (List.filter p (delete n l)))%nat.
Proof.
  intros Hx. rewrite delete_take_drop.
  rewrite <- (take_drop_middle l n x Hx) at 1.
  rewrite !List.filter_app, !length_app. simpl.
  destruct (p x); simpl; lia.
Qed.

(** What one input does to the cache, the fetches and the dialog. *)
Lemma step_summary (i : Input) (s s' : State) :
  step P i s = Some s' ->
  (cache_fetched (drawer s) -> awaiting_fetched s ->
   cache_fetched (drawer s') /\ awaiting_fetched s') /\
  (shown (drawer s') + waiting_clicks s'
   = shown (drawer s) + waiting_clicks s + complete_click i)%nat /\
  (length (fetches (drawer s')) <= length (fetches (drawer s)) + starts i)%nat.
Proof.
  assert (Hstart : forall h b s0,
    let s1 := start_load P h b s0 in
    (cache_fetched (drawer s0) -> awaiting_fetched s0 ->
     cache_fetched (drawer s1) /\ awaiting_fetched s1) /\
    (shown (drawer s1) + waiting_clicks s1
     = shown (drawer s0) + waiting_clicks s0 + if b then 1 else 0)%nat /\
    (length (fetches (drawer s1)) <= length (fetches (drawer s0)) + 1)%nat).
  { intros h b s0 s1. unfold waiting_clicks.
    destruct (cachedContent (drawer s0) !! h) as [d|] eqn:Hh.
    - destruct (start_load_hit h b s0 d Hh) as (Hw & Hc & _ & Hf & Hsh).
      fold s1 in Hw, Hc, Hf, Hsh. rewrite Hw, Hsh, Hf.
      split; [|split; lia].
      intros Hcf Haf. split.
      + intros h' Hh'. rewrite Hf. apply Hcf. rewrite <- Hc. exact Hh'.
      + intros a Ha. rewrite Hf. apply Haf. rewrite <- Hw. exact Ha.
    - destruct (start_load_miss h b s0 Hh) as (Hw & Hc & _ & Hf & Hsh).
      fold s1 in Hw, Hc, Hf, Hsh. rewrite Hw, Hsh, Hf.
      rewrite List.filter_app, !length_app. simpl.
      split; [|split; [destruct b; simpl; lia|lia]].
      intros Hcf Haf. split.
      + intros h' Hh'. rewrite Hf. apply in_or_app. left.
        apply Hcf. rewrite <- Hc. exact Hh'.
      + intros a Ha. rewrite Hf. rewrite Hw in Ha.
        apply in_app_or in Ha as [Ha|[<-|[]]]; apply in_or_app;
          [left; apply Haf, Ha|right; left; reflexivity]. }
  intros Hstep. destruct i as [h|event|n net]; cbn [step] in Hstep.
  - injection Hstep as <-. destruct (Hstart h false s) as (Hinv & Hsh & Hf).
    split; [exact Hinv|]. split; [simpl in *; lia|exact Hf].
  - injection Hstep as <-. unfold complete_click, starts.
    destruct (click_cases event s)
      as [[-> ->]|(d & Hc & Hf & Hsh & [[-> ->]|(h & -> & ->)])].
    + split; [auto|]. split; lia.
    + unfold waiting_clicks, cache_fetched, awaiting_fetched. cbn [drawer awaiting].
      rewrite Hc, Hf, Hsh. split; [auto|]. split; lia.
    + destruct (Hstart h true {| drawer := d; awaiting := awaiting s |})
        as (Hinv & Hshown & Hfetch).
      unfold waiting_clicks, cache_fetched, awaiting_fetched in *.
      cbn [drawer awaiting] in *. rewrite Hc, Hf, Hsh in *.
      split; [exact Hinv|]. split; [exact Hshown|exact Hfetch].
  - destruct (awaiting s !! n) as [a|] eqn:Ha; [|discriminate]. injection Hstep as <-.
    unfold waiting_clicks. cbn [drawer awaiting complete_click starts].
    destruct (settle_load_fields a net (drawer s)) as (Hf & Hsh & Hcase).
    rewrite Hf, Hsh, (length_filter_delete from_click (awaiting s) n a Ha).
    split; [|split; destruct (from_click a); lia].
    intros Hcf Haf. split.
    + intros h Hh. rewrite Hf.
      destruct (fetchProductData P (awaited_handle a) net) as [d|e];
        destruct Hcase as [Hc _]; rewrite Hc in Hh; [|apply Hcf, Hh].
      destruct (decide (awaited_handle a = h)) as [<-|Hne].
      * apply Haf. apply list_elem_of_In. eapply list_elem_of_lookup_2, Ha.
      * rewrite lookup_insert_ne in Hh by exact Hne. apply Hcf, Hh.
    + intros a' Ha'. cbn [drawer awaiting] in *. rewrite Hf. apply Haf.
      apply list_elem_of_In. apply list_elem_of_In in Ha'.
      eapply list_elem_of_delete_inv, Ha'.
Qed.

(** X9: over every series of clicks, loads and answers of the network,
    in whatever order the answers arrive: a handle is in the cache only
    if its URL has been fetched, a handle once cached stays cached, the
    dialog has been shown once for each click on a button with a product
    id and a handle whose load has ended (also when it failed), and at
    most one fetch is made per load. *)
Theorem clicks_summary (inputs : list Input) (s s' : State) :
  cache_fetched (drawer s) -> awaiting_fetched s ->
  run P inputs s = Some s' ->
  cache_fetched (drawer s') /\ awaiting_fetched s' /\
  (forall h : string,
     is_Some (cachedContent (drawer s) !! h) ->
     is_Some (cachedContent (drawer s') !! h)) /\
  (shown (drawer s') + waiting_clicks s'
   = shown (drawer s) + waiting_clicks s + list_sum (map complete_click inputs))%nat /\
  (length (fetches (drawer s'))
   <= length (fetches (drawer s)) + list_sum (map starts inputs))%nat.
Proof.
  revert s. induction inputs as [|i rest IH]; intros s Hcf Haf Hrun; simpl in Hrun.
  - injection Hrun as <-. simpl. split; [exact Hcf|]. split; [exact Haf|].
    split; [auto|]. split; lia.
  - destruct (step P i s) as [s1|] eqn:Hstep; [|discriminate].
    destruct (step_summary i s s1 Hstep) as (Hinv & Hsh & Hf).
    destruct (Hinv Hcf Haf) as [Hcf1 Haf1].
    destruct (IH s1 Hcf1 Haf1 Hrun) as (Hcf' & Haf' & Hkeep & Hsh' & Hf').
    split; [exact Hcf'|]. split; [exact Haf'|]. split; [|simpl; split; lia].
    intros h Hh. apply Hkeep, (step_keeps_cached i s s1 h Hstep Hh).
Qed.

(** X6: when the product data arrives and is extracted but its markup
    cannot be built (say, the options are plain names without values),
    the load shows the error state and has stored the data under the
    handle all the same; when no other load of the handle waits, every
    later load of that handle shows the error state again and fetches
    nothing, whatever happens in between: the failure is not retried. *)
Theorem unrenderable_product_stays_cached
    (n : nat) (a : Awaiting) (net : Network) (s : State)
    (doc : Document) (productData : ProductData) :
  awaiting s !! n = Some a ->
  no_load_of (awaited_handle a) (delete n (awaiting s)) ->
  net ("/products/" +:+ awaited_handle a +:+ "?view=quick-view")
    = Some {| ok := true; body := Some doc |} ->
  extractProductData P doc = Ok productData ->
  ~ (renderable_images (images productData) /\
     renderable_options (options productData)) ->
  exists s1,
    step P (Settle n net) s = Some s1 /\
    drawerContent (drawer s1) = error_markup /\
    cachedContent (drawer s1) !! awaited_handle a = Some productData /\
    forall (inputs : list Input) (s2 : State) (from_click : bool),
      run P inputs s1 = Some s2 ->
      let s3 := start_load P (awaited_handle a) from_click s2 in
      drawerContent (drawer s3) = error_markup /\
      fetches (drawer s3) = fetches (drawer s2) /\
      awaiting s3 = awaiting s2.
Proof.
  intros Ha Hnone Hnet Hextract Hbad.
  assert (Herr : rendered P productData = error_markup).
  { unfold rendered.
    destruct (buildProductContent P productData) as [html|e] eqn:Hb; [|reflexivity].
    destruct Hbad. apply (proj1 (buildProductContent_renderable P productData)). eauto. }
  assert (Hf : fetchProductData P (awaited_handle a) net = Ok productData).
  { unfold fetchProductData, product_url. rewrite Hnet. simpl. exact Hextract. }
  exists {| drawer := settle_load P a net (drawer s);
            awaiting := delete n (awaiting s) |}.
  cbn [step]. rewrite Ha. split; [reflexivity|]. cbn [drawer].
  destruct (settle_load_fields a net (drawer s)) as (_ & _ & Hcase).
  rewrite Hf in Hcase. destruct Hcase as [Hc Hd].
  assert (Hstored : cachedContent (settle_load P a net (drawer s)) !! awaited_handle a
                    = Some productData).
  { rewrite Hc. apply lookup_insert_eq. }
  split; [rewrite Hd; exact Herr|]. split; [exact Hstored|].
  intros inputs s2 b Hrun.
  destruct (run_keeps_entry inputs _ s2 _ _ Hrun Hstored Hnone) as [Hkept _].
  destruct (start_load_hit (awaited_handle a) b s2 productData Hkept)
    as (Hw & _ & Hd3 & Hf3 & _).
  rewrite Herr in Hd3. auto.
Qed.

End AsyncDrawerFacts.

Section AsyncDrawerExamples.
Import JS QuickView QuickViewMore QuickViewAsync.



(** The options of the tee are names without values: its markup cannot
    be built, the data is cached all the same, and a later load shows
    the error again without a fetch. *)
Lemma unrenderable_product_stays_cached_witness :
  let s := start_load MoreExamples.platform "tee" true (idle Examples.closed_drawer) in
  exists s1,
    step MoreExamples.platform (Settle 0 MoreExamples.shop) s = Some s1 /\
    drawerContent (drawer s1) = error_markup /\
    cachedContent (drawer s1) !! "tee" = Some MoreExamples.tee_data /\
    let s3 := start_load MoreExamples.platform "tee" true s1 in
    drawerContent (drawer s3) = error_markup /\
    fetches (drawer s3) = fetches (drawer s1).
Proof.
  intros s.
  assert (Hbad : ~ (renderable_images (images MoreExamples.tee_data) /\
                    renderable_options (options MoreExamples.tee_data))).
  { intros [_ [H|[H|(opts & Hopts & Hall)]]]; try discriminate.
    injection Hopts as <-. inversion Hall as [|x rest [values Hv] _]. discriminate Hv. }
  destruct (unrenderable_product_stays_cached MoreExamples.platform 0
              {| awaited_handle := "tee"; from_click := true |}
              MoreExamples.shop s MoreExamples.tee_page MoreExamples.tee_data
              eq_refl (List.Forall_nil _) eq_refl eq_refl Hbad)
    as (s1 & Hstep & Herr & Hcached & Hlater).
  exists s1. split; [exact Hstep|]. split; [exact Herr|]. split; [exact Hcached|].
  destruct (Hlater [] s1 true eq_refl) as (Herr3 & Hfetch3 & _).
  split; assumption.
Defined.

(** Two clicks on the mug before the shop answers, a click on a button
    without handle, and the two answers. *)
Lemma clicks_summary_witness :
  let s' := default (idle Examples.closed_drawer)
              (run Examples.platform
                 [Click (MoreExamples.click_on Examples.mug_button);
                  Click (MoreExamples.click_on Examples.mug_button);
                  Click (MoreExamples.click_on Examples.button_without_handle);
                  Settle 0 Examples.shop; Settle 0 Examples.offline]
                 (idle Examples.closed_drawer)) in
  cache_fetched (drawer s') /\
  (shown (drawer s') + waiting_clicks s' = 2)%nat /\
  (length (fetches (drawer s')) <= 2)%nat.
Proof.
  intros s'.
  assert (Hstart : cache_fetched (drawer (idle Examples.closed_drawer))).
  { intros h [d Hd]. simpl in Hd. rewrite lookup_empty in Hd. discriminate Hd. }
  assert (Hnone : awaiting_fetched (idle Examples.closed_drawer)).
  { intros a []. }
  destruct (clicks_summary Examples.platform
              [Click (MoreExamples.click_on Examples.mug_button);
               Click (MoreExamples.click_on Examples.mug_button);
               Click (MoreExamples.click_on Examples.button_without_handle);
               Settle 0 Examples.shop; Settle 0 Examples.offline]
              (idle Examples.closed_drawer) s' Hstart Hnone eq_refl)
    as (Hinv & _ & _ & Hshown & Hfetches).
  split; [exact Hinv|]. split; [exact Hshown|exact Hfetches].
Defined.

End AsyncDrawerExamples.

(** ** Variant picker: one selected option per group *)

Section VariantPickerDomFacts.
Import JS VariantPicker VariantPickerDom.

Lemma select_only_lookup (k : nat) (group : list OptionButton) (i : nat) :
  select_only k group !! i
  = (fun b => {| data_value := data_value b; selected := bool_decide (i = k) |})
      <$> group !! i.
Proof.
  unfold select_only. destruct (decide (i = k)) as [->|Hne].
  - rewrite list_lookup_alter_eq, list_lookup_fmap.
    destruct (group !! k) as [b|]; simpl; [|reflexivity].
    rewrite bool_decide_eq_true_2 by reflexivity. reflexivity.
  - rewrite list_lookup_alter_ne by congruence. rewrite list_lookup_fmap.
    destruct (group !! i) as [b|]; simpl; [|reflexivity].
    rewrite bool_decide_eq_false_2 by exact Hne. reflexivity.
Qed.

Lemma select_only_length (k : nat) (group : list OptionButton) :
  length (select_only k group) = length group.
Proof. unfold select_only. rewrite length_alter, length_fmap. reflexivity. Qed.

Lemma select_only_values (k : nat) (group : list OptionButton) :
  data_value <$> select_only k group = data_value <$> group.
Proof.
  apply list_eq. intros i. rewrite !list_lookup_fmap, select_only_lookup.
  destruct (group !! i); reflexivity.
Qed.

Lemma select_only_spec (k : nat) (group : list OptionButton) :
  (k < length group)%nat -> only_selected k (select_only k group).
Proof.
  intros Hk. split; [rewrite select_only_length; exact Hk|].
  intros i b. rewrite select_only_lookup.
  destruct (group !! i) as [b'|]; simpl; [|discriminate].
  intros [= <-]. reflexivity.
Qed.

Lemma select_first_spec (group : list OptionButton) :
  unselected group -> group <> [] -> only_selected 0 (select_first group).
Proof.
  intros Hun Hne. destruct group as [|first rest]; [congruence|].
  split; [simpl; lia|]. intros [|i] b; simpl.
  - intros [= <-]. reflexivity.
  - intros Hi. inversion Hun as [|? ? _ Hrest]; subst.
    rewrite Forall_forall in Hrest. apply Hrest. eapply list_elem_of_lookup_2, Hi.
Qed.

(** In a group with exactly one selected option, [querySelector] finds
    that option. *)
Lemma selected_option_only (k : nat) (group : list OptionButton) :
  only_selected k group ->
  exists b, group !! k = Some b /\ selected_option group = Some b.
Proof.
  unfold selected_option. revert k.
  induction group as [|b group IH]; intros k [Hk Hsel]; [simpl in Hk; lia|].
  destruct k as [|k].
  - exists b. split; [reflexivity|]. simpl.
    rewrite (Hsel 0%nat b eq_refl). reflexivity.
  - simpl. rewrite (Hsel 0%nat b eq_refl). simpl.
    apply IH. split; [simpl in Hk; lia|].
    intros i b' Hi. rewrite (Hsel (S i) b' Hi).
    apply bool_decide_ext. lia.
Qed.

Lemma click_option_picked (g k : nat) (groups : list (list OptionButton)) :
  Forall picked groups -> Forall picked (click_option g k groups).
Proof.
  intros Hall. unfold click_option.
  destruct (groups !! g) as [group|] eqn:Hg; [|exact Hall].
  destruct (decide (k < length group)%nat) as [Hk|_]; [|exact Hall].
  apply Forall_insert; [exact Hall|].
  right. exists k. apply select_only_spec, Hk.
Qed.

Lemma click_option_values (g k : nat) (groups : list (list OptionButton)) :
  option_values (click_option g k groups) = option_values groups.
Proof.
  unfold option_values, click_option.
  destruct (groups !! g) as [group|] eqn:Hg; [|reflexivity].
  destruct (decide (k < length group)%nat) as [Hk|_]; [|reflexivity].
  rewrite list_fmap_insert, select_only_values.
  apply list_insert_id. rewrite list_lookup_fmap, Hg. reflexivity.
Qed.

Lemma click_options_picked (clicks : list (nat * nat))
    (groups : list (list OptionButton)) :
  Forall picked groups ->
  Forall picked (click_options clicks groups) /\
  option_values (click_options clicks groups) = option_values groups.
Proof.
  revert groups. induction clicks as [|[g k] clicks IH]; intros groups Hp.
  - split; [exact Hp|reflexivity].
  - unfold click_options in *. simpl.
    destruct (IH (click_option g k groups) (click_option_picked g k groups Hp))
      as [Hp' Hv'].
    split; [exact Hp'|]. rewrite Hv'. apply click_option_values.
Qed.

Lemma omap_lookup_all {A B : Type} (f : A -> option B) (l : list A) (i : nat) :
  Forall (fun x => is_Some (f x)) l ->
  omap f l !! i = l !! i ≫= f /\ length (omap f l) = length l.
Proof.
  intros Hall. revert i. induction Hall as [|x l [y Hy] Hall IH]; intros i.
  - split; reflexivity.
  - simpl. rewrite Hy. destruct i as [|i]; simpl.
    + rewrite Hy. split; [reflexivity|]. f_equal. apply (IH 0%nat).
    + split; [apply IH|]. f_equal. apply (IH 0%nat).
Qed.

(** X10: on fresh markup, where no option is selected,
    [#initializeVariantPicker] followed by any clicks on options leaves
    the values of the options as they are and, in every group that has
    options, exactly one option selected, which is the one
    [#getSelectedVariant] reads; when every group has options,
    [selectedOptions] has one entry per group, the entry of group [g]
    being the value of its selected option. *)
Theorem variant_picker_one_selected
    (variantGroups : list (list OptionButton)) (clicks : list (nat * nat)) :
  Forall unselected variantGroups ->
  let groups := click_options clicks (initializeVariantPicker variantGroups) in
  option_values groups = option_values variantGroups /\
  (forall (g : nat) (group : list OptionButton),
     groups !! g = Some group -> group <> [] ->
     exists k b, only_selected k group /\ group !! k = Some b /\
                 selected_option group = Some b) /\
  (Forall (fun group => group <> []) variantGroups ->
   length (selectedOptions groups) = length variantGroups /\
   forall (g : nat) (group : list OptionButton),
     groups !! g = Some group ->
     exists k b, only_selected k group /\ group !! k = Some b /\
                 selectedOptions groups !! g = Some (data_value b)).
Proof.
  intros Hfresh groups.
  assert (Hinit : Forall picked (initializeVariantPicker variantGroups) /\
                  option_values (initializeVariantPicker variantGroups)
                    = option_values variantGroups).
  { unfold initializeVariantPicker. split.
    - apply Forall_fmap. eapply Forall_impl; [exact Hfresh|].
      intros group Hun. simpl. destruct group as [|b rest] eqn:Hgroup; [left; reflexivity|].
      right. exists 0%nat. apply select_first_spec; [exact Hun|discriminate].
    - unfold option_values.
      change (map select_first variantGroups) with (select_first <$> variantGroups).
      rewrite <- list_fmap_compose. apply list_fmap_ext.
      intros i [|b rest] _; reflexivity. }
  assert (Hgroups : Forall picked groups /\
                    option_values groups = option_values variantGroups).
  { unfold groups. destruct Hinit as [Hp Hv]. rewrite <- Hv.
    apply click_options_picked, Hp. }
  destruct Hgroups as [Hpicked Hvalues].
  assert (Hone : forall g group, groups !! g = Some group -> group <> [] ->
            exists k b, only_selected k group /\ group !! k = Some b /\
                        selected_option group = Some b).
  { intros g group Hg Hne. rewrite Forall_forall in Hpicked.
    destruct (Hpicked group) as [->|[k Hk]];
      [eapply list_elem_of_lookup_2, Hg|congruence|].
    destruct (selected_option_only k group Hk) as (b & Hb & Hsel). eauto. }
  split; [exact Hvalues|]. split; [exact Hone|].
  intros Hnonempty.
  assert (Hlen : length groups = length variantGroups).
  { unfold option_values in Hvalues.
    rewrite <- (length_fmap (fun group : list OptionButton => data_value <$> group) groups),
      Hvalues, length_fmap. reflexivity. }
  assert (Hne : forall g group, groups !! g = Some group -> group <> []).
  { intros g group Hg ->.
    assert (Hv : option_values variantGroups !! g = Some []).
    { rewrite <- Hvalues. unfold option_values. rewrite list_lookup_fmap, Hg. reflexivity. }
    unfold option_values in Hv. rewrite list_lookup_fmap in Hv.
    destruct (variantGroups !! g) as [group0|] eqn:Hg0; [|discriminate].
    simpl in Hv. injection Hv as Hv. apply fmap_nil_inv in Hv. subst group0.
    rewrite Forall_forall in Hnonempty.
    apply (Hnonempty []); [eapply list_elem_of_lookup_2, Hg0|reflexivity]. }
  assert (Hsome : Forall (fun group => is_Some (data_value <$> selected_option group)) groups).
  { apply Forall_forall. intros group Hin.
    apply list_elem_of_lookup in Hin as [g Hg].
    destruct (Hone g group Hg (Hne g group Hg)) as (k & b & _ & _ & ->). eauto. }
  assert (Hread : forall g,
            selectedOptions groups !! g
              = groups !! g ≫=
                  (fun group : list OptionButton => data_value <$> selected_option group) /\
            length (selectedOptions groups) = length groups).
  { intros g. apply (omap_lookup_all _ groups g Hsome). }
  split.
  - rewrite (proj2 (Hread 0%nat)). exact Hlen.
  - intros g group Hg.
    destruct (Hone g group Hg (Hne g group Hg)) as (k & b & Hk & Hb & Hsel).
    exists k, b. split; [exact Hk|]. split; [exact Hb|].
    rewrite (proj1 (Hread g)), Hg. simpl.
    rewrite Hsel. reflexivity.
Qed.

End VariantPickerDomFacts.

Section VariantPickerDomExamples.
Import VariantPicker VariantPickerDom.

(** Fresh markup, then clicks on L and on Blue. *)
Lemma variant_picker_one_selected_witness :
  let groups := click_options [(0, 1); (1, 1)]%nat
                  (initializeVariantPicker MoreExamples.fresh_groups) in
  option_values groups = option_values MoreExamples.fresh_groups /\
  length (selectedOptions groups) = 2%nat.
Proof.
  assert (Hfresh : Forall unselected MoreExamples.fresh_groups).
  { repeat constructor. }
  assert (Hfull : Forall (fun group => group <> []) MoreExamples.fresh_groups).
  { repeat constructor; discriminate. }
  destruct (variant_picker_one_selected MoreExamples.fresh_groups
              [(0, 1); (1, 1)]%nat Hfresh) as (Hvalues & _ & Hsel).
  destruct (Hsel Hfull) as [Hlen _].
  split; [exact Hvalues|exact Hlen].
Defined.

End VariantPickerDomExamples.

(** ** Swipe to close *)

Section SwipeFacts.
Import Swipe.
Variable P : Platform.

(** While the finger is down: the start stays, the current position is
    the last move, nothing is closed, and the style is written by the
    last move when it lies below the start. *)
Lemma touch_spec (y0 : number P) (moves : list (number P)) (s : State P) :
  let s' := handle_all P (touch P y0 moves) s in
  isDragging s' = true /\ startY s' = y0 /\
  closeDialog_calls s' = closeDialog_calls s /\
  currentY s' = List.last moves (currentY s) /\
  (forall before y, moves = (before ++ [y])%list ->
     is_positive P (minus P y y0) = true ->
     style_transform s' = translateY P (minus P y y0) /\
     style_opacity s' = opacity_of P (minus P y y0)) /\
  (style_ok P s -> style_ok P s').
Proof.
  induction moves as [|y moves IH] using rev_ind.
  - simpl. split; [reflexivity|]. do 3 (split; [reflexivity|]). split; [|auto].
    intros before y Heq. destruct before; discriminate Heq.
  - cbv zeta. unfold touch, handle_all. rewrite map_app. simpl.
    rewrite fold_left_app. simpl.
    destruct IH as (Hd & Hs & Hc & _ & _ & Hok).
    unfold touch, handle_all in Hd, Hs, Hc, Hok. simpl in Hd, Hs, Hc, Hok.
    set (s1 := fold_left (fun st e => handle P e st) (map TouchMove moves)
                 (handleTouchStart P y0 s)) in *.
    unfold handleTouchMove. rewrite Hd. cbn [negb]. rewrite Hs.
    rewrite last_last.
    destruct (is_positive P (minus P y y0)) eqn:Hpos; simpl.
    + split; [reflexivity|]. split; [reflexivity|]. split; [exact Hc|].
      split; [reflexivity|]. split.
      * intros before y' Heq _. apply app_inj_tail in Heq as [_ <-]. auto.
      * intros _. right. exists (minus P y y0). auto.
    + split; [reflexivity|]. split; [reflexivity|]. split; [exact Hc|].
      split; [reflexivity|]. split; [|exact Hok].
      intros before y' Heq Hpos'. apply app_inj_tail in Heq as [_ <-]. congruence.
Qed.

Lemma handle_all_app (es1 es2 : list (TouchEvent P)) (s : State P) :
  handle_all P (es1 ++ es2) s = handle_all P es2 (handle_all P es1 s).
Proof. unfold handle_all. apply fold_left_app. Qed.

(** X11: one finger put down at [y0], moved through any positions, the
    last of them [y], and lifted.  When the difference [y - y0] that the
    listener computes is greater than 100, [closeDialog] is called once
    and the listener leaves transform and opacity as the moves wrote
    them, which is for [y - y0] when that is greater than 0; otherwise
    [closeDialog] is not called and the transform and the opacity of
    the dialog are cleared. *)
Theorem swipe_gesture_closes_beyond_100
    (s : State P) (y0 : number P) (moves : list (number P)) (y : number P) :
  let moved := handle_all P (touch P y0 (moves ++ [y])) s in
  let s' := handle_all P (gesture P y0 (moves ++ [y])) s in
  let deltaY := minus P y y0 in
  isDragging s' = false /\ startY s' = y0 /\ currentY s' = y /\
  (exceeds_100 P deltaY = true ->
   closeDialog_calls s' = S (closeDialog_calls s) /\
   style_transform s' = style_transform moved /\
   style_opacity s' = style_opacity moved /\
   (is_positive P deltaY = true ->
    style_transform s' = translateY P deltaY /\
    style_opacity s' = opacity_of P deltaY)) /\
  (exceeds_100 P deltaY = false ->
   closeDialog_calls s' = closeDialog_calls s /\
   style_transform s' = EmptyString /\
   style_opacity s' = EmptyString).
Proof.
  intros moved s' deltaY. unfold s', gesture. rewrite handle_all_app. fold moved.
  destruct (touch_spec y0 (moves ++ [y]) s) as (Hd & Hs & Hc & Hy & Hstyle & _).
  fold moved in Hd, Hs, Hc, Hy, Hstyle. rewrite last_last in Hy.
  change (handle_all P [TouchEnd] moved) with (handleTouchEnd P moved).
  unfold handleTouchEnd. rewrite Hd, Hy, Hs. cbn [negb].
  fold deltaY. destruct (exceeds_100 P deltaY) eqn:Hfar; simpl.
  - do 3 (split; [auto|]). split; [|discriminate].
    intros _. split; [rewrite Hc; reflexivity|]. do 2 (split; [reflexivity|]).
    intros Hpos. apply (Hstyle moves y eq_refl Hpos).
  - do 3 (split; [auto|]). split; [discriminate|].
    intros _. rewrite Hc. auto.
Qed.

(** X12: a tap, that is a finger put down at [tap] and lifted without a
    move, is judged by the position of the last move of an earlier
    touch, because only a move writes [currentY]: [closeDialog] is
    called exactly when the difference between that position and [tap]
    is greater than 100.  On a drawer that has seen no move that
    position is 0; after a touch whose last move was at [y] it is
    [y]. *)
Theorem tap_is_judged_by_previous_touch
    (s : State P) (y0 : number P) (moves : list (number P)) (y : number P)
    (tap : number P) :
  let after_tap := handle_all P (gesture P tap []) in
  let count (far : bool) (calls : nat) := if far then S calls else calls in
  closeDialog_calls (after_tap s)
    = count (exceeds_100 P (minus P (currentY s) tap)) (closeDialog_calls s) /\
  currentY (after_tap s) = currentY s /\
  closeDialog_calls (after_tap (initial P))
    = count (exceeds_100 P (minus P (zero P) tap)) 0%nat /\
  (let s1 := handle_all P (gesture P y0 (moves ++ [y])) s in
   closeDialog_calls (after_tap s1)
     = count (exceeds_100 P (minus P y tap)) (closeDialog_calls s1)).
Proof.
  intros after_tap count.
  assert (Htap : forall st,
            closeDialog_calls (after_tap st)
              = count (exceeds_100 P (minus P (currentY st) tap)) (closeDialog_calls st) /\
            currentY (after_tap st) = currentY st).
  { intros st. unfold after_tap, gesture, touch, handle_all. simpl.
    unfold handleTouchEnd. simpl.
    destruct (exceeds_100 P (minus P (currentY st) tap)); split; reflexivity. }
  split; [apply Htap|]. split; [apply Htap|]. split; [apply (Htap (initial P))|].
  intros s1. destruct (Htap s1) as [-> _].
  assert (Hy : currentY s1 = y).
  { unfold s1, gesture. rewrite handle_all_app.
    destruct (touch_spec y0 (moves ++ [y]) s) as (Hd & _ & _ & Hy & _).
    rewrite last_last in Hy.
    set (moved := handle_all P (touch P y0 (moves ++ [y])) s) in *.
    change (handle_all P [TouchEnd] moved) with (handleTouchEnd P moved).
    unfold handleTouchEnd. rewrite Hd. cbn [negb].
    destruct (exceeds_100 P _); exact Hy. }
  rewrite Hy. reflexivity.
Qed.

Lemma handle_style_ok (e : TouchEvent P) (s : State P) :
  style_ok P s -> style_ok P (handle P e s).
Proof.
  intros Hok. destruct e as [y|y|]; simpl.
  - exact Hok.
  - unfold handleTouchMove. destruct (negb (isDragging s)); [exact Hok|].
    destruct (is_positive P (minus P y (startY s))) eqn:Hpos; [|exact Hok].
    right. eexists. split; [exact Hpos|]. split; reflexivity.
  - unfold handleTouchEnd. destruct (negb (isDragging s)); [exact Hok|].
    destruct (exceeds_100 P _); [exact Hok|].
    left. split; reflexivity.
Qed.

(** X13: whatever touch events the dialog receives after the listeners
    are set up, its transform and its opacity are either both empty or
    both written for one and the same difference, and that difference is
    greater than 0: the listeners never move the dialog up, and never
    write one of the two properties without the other. *)
Theorem swipe_style_only_for_downward_moves (events : list (TouchEvent P)) :
  style_ok P (handle_all P events (initial P)).
Proof.
  assert (Hall : forall s, style_ok P s -> style_ok P (handle_all P events s)).
  { induction events as [|e events IH]; intros s Hok; [exact Hok|].
    apply IH, handle_style_ok, Hok. }
  apply Hall. left. split; reflexivity.
Qed.

End SwipeFacts.

Section SwipeExamples.
Import Swipe MoreExamples.

(** A swipe from 300 over 350 to 450 closes the dialog; one from 300 to
    380 does not. *)
Lemma swipe_gesture_closes_beyond_100_witness :
  closeDialog_calls
    (handle_all whole_pixels (gesture whole_pixels 300 [350; 450]) (initial whole_pixels))
  = 1%nat /\
  style_transform
    (handle_all whole_pixels (gesture whole_pixels 300 [350; 450]) (initial whole_pixels))
  = "translateY(150px)" /\
  style_transform
    (handle_all whole_pixels (gesture whole_pixels 300 [350; 380]) (initial whole_pixels))
  = EmptyString.
Proof.
  destruct (swipe_gesture_closes_beyond_100 whole_pixels (initial whole_pixels)
              300 [350] 450) as (_ & _ & _ & Hclose & _).
  destruct (swipe_gesture_closes_beyond_100 whole_pixels (initial whole_pixels)
              300 [350] 380) as (_ & _ & _ & _ & Hback).
  destruct (Hclose eq_refl) as (Hcalls & _ & _ & Hstyle).
  destruct (Hstyle eq_refl) as [Htransform _].
  destruct (Hback eq_refl) as (_ & Hcleared & _).
  split; [exact Hcalls|]. split; [exact Htransform|exact Hcleared].
Defined.

End SwipeExamples.

(** ** Header menu: item, host and timers *)

Section MegaMenuMoreFacts.
Import MegaMenu MegaMenuMore.

Lemma activateHandler_synced (event : Event) (dom : Dom) (s : State) :
  synced (menu s) -> synced (menu (activateHandler event dom s)).
Proof.
  intros Hm. unfold activateHandler, debouncedDeactivate_cancel.
  set (s0 := clearTimeout (deactivate_timeout s) s).
  assert (Hm0 : menu s0 = menu s) by apply clearTimeout_menu.
  rewrite Hm0.
  destruct (target event) as [element|]; [|exact Hm].
  destruct (findMenuItem (Some element)) as [item|]; [|exact Hm].
  destruct (decide (Some item = activeItem (menu s))) as [Heq|Hne]; [exact Hm|].
  intros i. simpl. intros [= <-].
  rewrite lookup_insert_eq. repeat split.
Qed.

Lemma deactivate_now_synced (item : option Item) (dom : Dom) (s : State) :
  synced (menu s) -> synced (menu (deactivate_now item dom s)).
Proof.
  intros Hm. unfold deactivate_now.
  destruct item as [i|]; [|exact Hm].
  destruct (decide (Some i = activeItem (menu s))) as [Heq|Hne]; [|exact Hm].
  destruct (overflowHovered dom); [exact Hm|].
  intros j. simpl. discriminate.
Qed.

Lemma step_synced (dom : Dom) (i : Input) (s s' : State) :
  step dom i s = Some s' -> synced (menu s) -> synced (menu s').
Proof.
  intros Hstep Hm. destruct (is_fire i) eqn:Hi.
  - destruct i; try discriminate.
    apply step_fire in Hstep as (t & _ & _ & _ & ->).
    destruct (callback t) as [e| |item]; simpl.
    + apply activateHandler_synced. exact Hm.
    + apply deactivate_now_synced. exact Hm.
    + exact Hm.
  - rewrite (step_menu_unchanged dom i s s' Hstep Hi). exact Hm.
Qed.

Lemma reachable_synced (s : State) : reachable s -> synced (menu s).
Proof.
  induction 1 as [s (Hactive & _)|s dom i s' _ IH Hstep].
  - intros i Hi. congruence.
  - apply (step_synced dom i s s' Hstep IH).
Qed.

(** X14: in every state the menu reaches from its initial state, an item
    is the active item exactly when its [ariaExpanded] is ['true'], and
    while an item is active the host has [ariaExpanded] ['true'] and
    [--submenu-opacity] ['1']. *)
Theorem active_item_is_the_expanded_item (s : State) :
  reachable s ->
  (forall i : Item,
     activeItem (menu s) = Some i <-> ariaExpanded (menu s) !! i = Some "true") /\
  (activeItem (menu s) <> None ->
   host_ariaExpanded (host (menu s)) = Some "true" /\
   submenu_opacity (host (menu s)) = Some "1").
Proof.
  intros Hreach.
  pose proof (reachable_menu_ok s Hreach) as Hok.
  pose proof (reachable_synced s Hreach) as Hsync.
  split.
  - intros i. split; [intros Hi; apply (Hsync i Hi)|apply Hok].
  - destruct (activeItem (menu s)) as [i|] eqn:Hi; [|congruence].
    intros _. apply (Hsync i Hi).
Qed.

Lemma clearTimeout_deactivate_timeout (h : option nat) (s : State) :
  deactivate_timeout (clearTimeout h s) = deactivate_timeout s.
Proof. destruct h; reflexivity. Qed.

(** Pending timers are taken away, none that removes [data-animating]
    from an item that still carries it. *)
Lemma animating_ok_shrink (s s' : State) :
  animating_ok s ->
  next_timer s' = next_timer s ->
  activate_timeout s' = activate_timeout s ->
  deactivate_timeout s' = deactivate_timeout s ->
  (forall t, In t (timers s') -> In t (timers s)) ->
  (forall i : Item, i ∈ animating (menu s') ->
     exists t, In t (timers s') /\ callback t = StopAnimating i) ->
  animating_ok s'.
Proof.
  intros [Hb Hd Ht Ha] Hn Hat Hdt Hsub Hanim. split.
  - intros t Hin. rewrite Hn. apply Hb, Hsub, Hin.
  - intros t t' Hin Hin'. apply Hd; apply Hsub; assumption.
  - intros id Hid. rewrite Hat, Hdt in Hid. destruct (Ht id Hid) as [Hlt Hdeb].
    rewrite Hn. split; [exact Hlt|].
    intros t Hin. apply Hdeb, Hsub, Hin.
  - exact Hanim.
Qed.

(** One timer is added with the next id. *)
Lemma animating_ok_schedule (s s' : State) (cb : Callback) (d : Z) :
  animating_ok s ->
  timers s' = (timers s ++ [{| timer_id := next_timer s; due := d; callback := cb |}])%list ->
  next_timer s' = S (next_timer s) ->
  (forall id, activate_timeout s' = Some id \/ deactivate_timeout s' = Some id ->
     (activate_timeout s = Some id \/ deactivate_timeout s = Some id) \/
     (id = next_timer s /\ debounced cb = true)) ->
  (forall i : Item, i ∈ animating (menu s') ->
     i ∈ animating (menu s) \/ cb = StopAnimating i) ->
  animating_ok s'.
Proof.
  intros [Hb Hd Ht Ha] Htimers Hn Hvars Hanim. split.
  - intros t. rewrite Htimers, Hn, in_app_iff. intros [Hin|[<-|[]]].
    + apply Hb in Hin. lia.
    + simpl. lia.
  - intros t t'. rewrite Htimers, !in_app_iff.
    intros [Hin|[<-|[]]] [Hin'|[<-|[]]]; simpl; intros Hid.
    + apply Hd; assumption.
    + apply Hb in Hin. lia.
    + apply Hb in Hin'. lia.
    + reflexivity.
  - intros id Hid. rewrite Hn, Htimers.
    destruct (Hvars id Hid) as [Hold|[-> Hdeb]].
    + destruct (Ht id Hold) as [Hlt Hdeb]. split; [lia|].
      intros t. rewrite in_app_iff. intros [Hin|[<-|[]]].
      * apply Hdeb, Hin.
      * simpl. lia.
    + split; [lia|].
      intros t. rewrite in_app_iff. intros [Hin|[<-|[]]].
      * apply Hb in Hin. lia.
      * intros _. exact Hdeb.
  - intros i Hi. rewrite Htimers.
    destruct (Hanim i Hi) as [Hold| ->].
    + destruct (Ha i Hold) as (t & Hin & Hcb).
      exists t. rewrite in_app_iff. auto.
    + eexists. rewrite in_app_iff. split; [right; left; reflexivity|reflexivity].
Qed.

Lemma animating_ok_clearTimeout (h : option nat) (s : State) :
  h = activate_timeout s \/ h = deactivate_timeout s ->
  animating_ok s -> animating_ok (clearTimeout h s).
Proof.
  intros Hh Hok.
  apply (animating_ok_shrink s); try exact Hok.
  - apply clearTimeout_next_timer.
  - apply clearTimeout_activate_timeout.
  - apply clearTimeout_deactivate_timeout.
  - intros t Hin. apply clearTimeout_timers in Hin. tauto.
  - rewrite clearTimeout_menu. intros i Hi.
    destruct (animating_pending s Hok i Hi) as (t & Hin & Hcb).
    exists t. split; [|exact Hcb].
    apply clearTimeout_timers. split; [exact Hin|].
    intros Heq.
    assert (Hvar : activate_timeout s = Some (timer_id t) \/
                   deactivate_timeout s = Some (timer_id t)).
    { destruct Hh as [<-| <-]; auto. }
    destruct (timeout_debounced s Hok _ Hvar) as [_ Hdeb].
    specialize (Hdeb t Hin eq_refl). rewrite Hcb in Hdeb. discriminate.
Qed.

Lemma animating_ok_debouncedDeactivate (s : State) :
  animating_ok s -> animating_ok (debouncedDeactivate s).
Proof.
  intros Hok.
  apply (animating_ok_clearTimeout (deactivate_timeout s)) in Hok; [|auto].
  unfold debouncedDeactivate. simpl.
  eapply (animating_ok_schedule _ _ RunDeactivate); [exact Hok|reflexivity|reflexivity| |].
  - simpl. intros id [Hid|[= <-]]; [left; left; exact Hid|right; split; reflexivity].
  - simpl. auto.
Qed.

Lemma animating_ok_debouncedActivateHandler (event : Event) (s : State) :
  animating_ok s -> animating_ok (debouncedActivateHandler event s).
Proof.
  intros Hok.
  apply (animating_ok_clearTimeout (activate_timeout s)) in Hok; [|auto].
  unfold debouncedActivateHandler. simpl.
  eapply (animating_ok_schedule _ _ (RunActivateHandler event));
    [exact Hok|reflexivity|reflexivity| |].
  - simpl. intros id [[= <-]|Hid]; [right; split; reflexivity|left; right; exact Hid].
  - simpl. auto.
Qed.

Lemma animating_ok_activate (event : Event) (s : State) :
  animating_ok s -> animating_ok (activate event s).
Proof.
  intros Hok. unfold activate, debouncedDeactivate_cancel, debouncedActivateHandler_cancel.
  apply animating_ok_debouncedActivateHandler.
  apply animating_ok_clearTimeout; [left; reflexivity|].
  apply animating_ok_clearTimeout; [right; reflexivity|exact Hok].
Qed.

Lemma animating_ok_deactivate (event : Event) (dom : Dom) (s : State) :
  animating_ok s -> animating_ok (deactivate event dom s).
Proof.
  intros Hok. unfold deactivate, debouncedActivateHandler_cancel.
  assert (Hc : animating_ok (clearTimeout (activate_timeout s) s)).
  { apply animating_ok_clearTimeout; [left; reflexivity|exact Hok]. }
  destruct (target event); [|exact Hc].
  match goal with |- context [if ?c then _ else _] => destruct c end; [exact Hc|].
  match goal with |- context [decide ?c] => destruct (decide c) end; [|exact Hc].
  apply animating_ok_debouncedDeactivate, Hc.
Qed.

Lemma animating_ok_set_menu (m : Menu) (s : State) :
  animating m = animating (menu s) ->
  animating_ok s -> animating_ok (set_menu m s).
Proof.
  intros Hm Hok. apply (animating_ok_shrink s); try exact Hok; try reflexivity.
  - auto.
  - simpl. rewrite Hm. apply (animating_pending s Hok).
Qed.

Lemma animating_ok_activateHandler (event : Event) (dom : Dom) (s : State) :
  animating_ok s -> animating_ok (activateHandler event dom s).
Proof.
  intros Hok. unfold activateHandler, debouncedDeactivate_cancel.
  assert (Hc : animating_ok (clearTimeout (deactivate_timeout s) s)).
  { apply animating_ok_clearTimeout; [right; reflexivity|exact Hok]. }
  set (s0 := clearTimeout (deactivate_timeout s) s) in *.
  destruct (target event) as [element|];
    [|apply animating_ok_set_menu; [reflexivity|exact Hc]].
  destruct (findMenuItem (Some element)) as [item|];
    [|apply animating_ok_set_menu; [reflexivity|exact Hc]].
  destruct (decide (Some item = activeItem (menu s0)));
    apply animating_ok_set_menu; try reflexivity; exact Hc.
Qed.

Lemma animating_ok_deactivate_now (item : option Item) (dom : Dom) (s : State) :
  animating_ok s -> animating_ok (deactivate_now item dom s).
Proof.
  intros Hok. unfold deactivate_now.
  destruct item as [i|]; [|exact Hok].
  destruct (decide (Some i = activeItem (menu s))); [|exact Hok].
  destruct (overflowHovered dom); [exact Hok|].
  eapply (animating_ok_schedule s _ (StopAnimating i));
    [exact Hok|reflexivity|reflexivity| |].
  - simpl. auto.
  - simpl. intros j Hj. apply elem_of_union in Hj as [Hj|Hj]; [|left; exact Hj].
    apply elem_of_singleton in Hj as ->. right. reflexivity.
Qed.

Lemma firing_timers (t t' : Timer) (s : State) :
  In t' (timers (firing t s)) <-> In t' (timers s) /\ timer_id t' <> timer_id t.
Proof.
  simpl. rewrite filter_In, negb_true_iff, Nat.eqb_neq. reflexivity.
Qed.

Lemma animating_ok_fire (t : Timer) (dom : Dom) (s : State) :
  In t (timers s) ->
  animating_ok s -> animating_ok (run_callback (callback t) dom (firing t s)).
Proof.
  intros Hin Hok.
  assert (Hother : forall i : Item, callback t <> StopAnimating i ->
            i ∈ animating (menu s) ->
            exists t', In t' (timers (firing t s)) /\ callback t' = StopAnimating i).
  { intros i Hcb Hi. destruct (animating_pending s Hok i Hi) as (t' & Hin' & Hcb').
    exists t'. split; [|exact Hcb'].
    apply firing_timers. split; [exact Hin'|].
    intros Hid. apply (pending_distinct s Hok t' t Hin' Hin) in Hid. congruence. }
  assert (Hsub : forall t', In t' (timers (firing t s)) -> In t' (timers s)).
  { intros t' Hin'. apply firing_timers in Hin'. tauto. }
  destruct (callback t) as [e| |item] eqn:Hcb; simpl run_callback.
  - apply animating_ok_activateHandler.
    apply (animating_ok_shrink s); try exact Hok; try reflexivity; [exact Hsub|].
    intros i. apply Hother. discriminate.
  - apply animating_ok_deactivate_now.
    apply (animating_ok_shrink s); try exact Hok; try reflexivity; [exact Hsub|].
    intros i. apply Hother. discriminate.
  - apply (animating_ok_shrink s); try exact Hok; try reflexivity; [exact Hsub|].
    simpl. intros i Hi. apply elem_of_difference in Hi as [Hi Hne].
    apply Hother; [|exact Hi].
    intros [= ->]. apply Hne, elem_of_singleton. reflexivity.
Qed.

Lemma step_animating_ok (dom : Dom) (i : Input) (s s' : State) :
  step dom i s = Some s' -> animating_ok s -> animating_ok s'.
Proof.
  intros Hstep Hok. destruct i as [e|e| |b|b|ms|id].
  - injection Hstep as <-. apply animating_ok_activate, Hok.
  - injection Hstep as <-. apply animating_ok_deactivate, Hok.
  - injection Hstep as <-. apply animating_ok_debouncedDeactivate, Hok.
  - injection Hstep as <-. destruct b; [|exact Hok].
    apply animating_ok_clearTimeout; [right; reflexivity|exact Hok].
  - injection Hstep as <-. destruct b; [|exact Hok].
    apply animating_ok_debouncedDeactivate, Hok.
  - simpl in Hstep. destruct (0 <=? ms); [|discriminate]. injection Hstep as <-.
    apply (animating_ok_shrink s); try exact Hok; try reflexivity; [auto|].
    apply (animating_pending s Hok).
  - apply step_fire in Hstep as (t & Hin & _ & _ & ->).
    apply animating_ok_fire; assumption.
Qed.

Lemma run_animating_ok (inputs : list (Dom * Input)) (s s' : State) :
  run inputs s = Some s' -> animating_ok s -> animating_ok s'.
Proof.
  revert s. induction inputs as [|[dom i] rest IH]; intros s Hrun Hok; simpl in Hrun.
  - injection Hrun as <-. exact Hok.
  - destruct (step dom i s) as [s1|] eqn:Hstep; [|discriminate].
    apply (IH s1 Hrun). apply (step_animating_ok dom i s s1 Hstep Hok).
Qed.

Lemma connected_animating_ok (s : State) : connected s -> animating_ok s.
Proof.
  intros ((_ & _ & Htimers & _) & Hanim & Hat & Hdt). split.
  - rewrite Htimers. intros t [].
  - rewrite Htimers. intros t t' [].
  - rewrite Hat, Hdt. intros id [|]; discriminate.
  - rewrite Hanim. intros i Hi. apply elem_of_empty in Hi as [].
Qed.

(** X15: whatever happens to a menu after it is constructed, every item
    that carries [data-animating] has a pending timer whose callback
    removes the attribute from it: no cancelled debounce and no other
    timer takes that timer away.  So an item carries the attribute only
    while such a timer is pending, and once no timer is pending no item
    carries it. *)
Theorem data_animating_has_pending_removal
    (inputs : list (Dom * Input)) (s0 s : State) :
  connected s0 -> run inputs s0 = Some s ->
  (forall i : Item, i ∈ animating (menu s) ->
     exists t, In t (timers s) /\ callback t = StopAnimating i) /\
  (timers s = [] -> animating (menu s) = ∅).
Proof.
  intros Hconn Hrun.
  pose proof (run_animating_ok inputs s0 s Hrun (connected_animating_ok s0 Hconn)) as Hok.
  split; [apply (animating_pending s Hok)|].
  intros Hnil. apply set_eq. intros i. split; [|intros Hi; apply elem_of_empty in Hi as []].
  intros Hi. destruct (animating_pending s Hok i Hi) as (t & Hin & _).
  rewrite Hnil in Hin. destruct Hin.
Qed.

Lemma find_scheduled (ts : list Timer) (t0 : Timer) :
  (forall t, In t ts -> (timer_id t < timer_id t0)%nat) ->
  List.find (fun t => (timer_id t =? timer_id t0)%nat) (ts ++ [t0]) = Some t0.
Proof.
  intros Hbelow. induction ts as [|t ts IH]; simpl.
  - rewrite Nat.eqb_refl. reflexivity.
  - assert (Hlt : (timer_id t < timer_id t0)%nat) by (apply Hbelow; left; reflexivity).
    apply Nat.lt_neq, Nat.eqb_neq in Hlt. rewrite Hlt.
    apply IH. intros t' Hin. apply Hbelow. right. exact Hin.
Qed.



Lemma activateHandler_active (event : Event) (dom : Dom) (s : State) (item : Item) :
  findMenuItem (target event) = Some item ->
  activeItem (menu (activateHandler event dom s)) = Some item.
Proof.
  intros Hitem. unfold activateHandler, debouncedDeactivate_cancel.
  set (s0 := clearTimeout (deactivate_timeout s) s).
  destruct (target event) as [element|]; [|discriminate Hitem].
  rewrite Hitem.
  destruct (decide (Some item = activeItem (menu s0))) as [Heq|Hne]; simpl.
  - symmetry. exact Heq.
  - reflexivity.
Qed.

(** X17: a call of [activate] for an event on a menu item, followed by
    its timer, which is due at once, makes that item the active and the
    only expanded item and marks the host expanded with
    [--submenu-opacity] ['1'], whichever item was active before; and
    then no activation and no deactivation is pending. *)
Theorem activate_opens_item
    (s : State) (dom1 dom2 : Dom) (event : Event) (item : Item) :
  reachable s ->
  findMenuItem (target event) = Some item ->
  exists s',
    run [(dom1, CallActivate event); (dom2, Fire (next_timer s))] s = Some s' /\
    activeItem (menu s') = Some item /\
    (forall j : Item, ariaExpanded (menu s') !! j = Some "true" <-> j = item) /\
    host_ariaExpanded (host (menu s')) = Some "true" /\
    submenu_opacity (host (menu s')) = Some "1" /\
    (forall t, In t (timers s') -> debounced (callback t) = false).
Proof.
  intros Hreach Hitem.
  pose proof (reachable_timers_ok s Hreach) as Hok.
  set (t0 := {| timer_id := next_timer s; due := now s + ACTIVATE_DELAY;
                callback := RunActivateHandler event |}).
  set (s1 := activate event s).
  assert (Hstep1 : step dom1 (CallActivate event) s = Some s1) by reflexivity.
  assert (Hmenu1 : menu s1 = menu s).
  { unfold s1, activate, debouncedActivateHandler, debouncedActivateHandler_cancel,
      debouncedDeactivate_cancel. simpl. rewrite !clearTimeout_menu. reflexivity. }
  assert (Hstep2 : step dom2 (Fire (next_timer s)) s1
                   = Some (activateHandler event dom2 (firing t0 s1))).
  { unfold step.
    assert (Hfind : List.find (fun t => (timer_id t =? next_timer s)%nat) (timers s1)
                    = Some t0).
    { unfold s1, activate, debouncedActivateHandler, debouncedActivateHandler_cancel,
        debouncedDeactivate_cancel. simpl.
      rewrite !clearTimeout_next_timer, !clearTimeout_now. fold t0.
      change (next_timer s) with (timer_id t0).
      apply find_scheduled.
      intros t Hin. repeat (apply clearTimeout_timers in Hin as [Hin _]).
      apply (ids_below s Hok). left. exact Hin. }
    rewrite Hfind.
    assert (Hdue : (due t0 <=? now s1) = true).
    { apply Z.leb_le. unfold s1, activate, debouncedActivateHandler,
        debouncedActivateHandler_cancel, debouncedDeactivate_cancel. simpl.
      rewrite !clearTimeout_now. unfold ACTIVATE_DELAY. lia. }
    rewrite Hdue. reflexivity. }
  set (s2 := firing t0 s1) in *.
  assert (Hmenu2 : menu s2 = menu s) by exact Hmenu1.
  eexists. unfold run. rewrite Hstep1, Hstep2. split; [reflexivity|].
  assert (Hactive := activateHandler_active event dom2 s2 item Hitem).
  assert (Hmok : menu_ok (menu (activateHandler event dom2 s2))).
  { apply activateHandler_menu_ok. rewrite Hmenu2. apply reachable_menu_ok, Hreach. }
  assert (Hsync : synced (menu (activateHandler event dom2 s2))).
  { apply activateHandler_synced. rewrite Hmenu2. apply reachable_synced, Hreach. }
  destruct (Hsync item Hactive) as (Hexp & Hhost & Hopacity).
  split; [exact Hactive|]. split; [|split; [exact Hhost|split; [exact Hopacity|]]].
  - intros j. split; [|intros ->; exact Hexp].
    intros Hj. apply Hmok in Hj. congruence.
  - intros t Hin.
    destruct (activateHandler_grows (fun _ => False) event dom2 s2)
      as (_ & _ & _ & Hsub).
    destruct (Hsub t Hin) as [Hin2|[_ []]].
    apply firing_timers in Hin2 as [Hin1 Hid].
    apply activate_timers in Hin1 as [(Hin0 & Hd & Ha)| ->]; [|contradiction Hid; reflexivity].
    destruct (callback t) as [e| |i] eqn:Hcb; [| |reflexivity].
    + contradiction Ha. apply (activate_pending s Hok t e Hin0 Hcb).
    + contradiction Hd. apply (deactivate_pending s Hok t Hin0 Hcb).
Qed.

(** X18: a call of [deactivate] never changes the menu at once.  It
    cancels a pending activation, which then never runs, whatever the
    event is.  It sets the deactivation timer, due 350 ms later, exactly
    when the target is an element whose menu item is the active item (or
    there is neither) and the pointer does not go to the submenu of the
    item or into a nested list; otherwise it sets no timer. *)
Theorem deactivate_cancels_activation (s : State) (dom : Dom) (event : Event) :
  reachable s ->
  let s' := deactivate event dom s in
  let schedules :=
    bool_decide (target event <> None) && negb (stays_inside event dom)
    && bool_decide (findMenuItem (target event) = activeItem (menu s)) in
  menu s' = menu s /\
  (forall t e, In t (timers s') -> callback t <> RunActivateHandler e) /\
  (forall inputs s2 t e,
     run inputs s' = Some s2 ->
     In t (timers s) -> callback t = RunActivateHandler e -> ~ In t (fired s2)) /\
  (schedules = false -> forall t, In t (timers s') -> In t (timers s)) /\
  (schedules = true ->
   In {| timer_id := next_timer s; due := now s + 350; callback := RunDeactivate |}
      (timers s')).
Proof.
  intros Hreach s' schedules.
  pose proof (reachable_timers_ok s Hreach) as Hok.
  set (s0 := clearTimeout (activate_timeout s) s).
  assert (Hcases : s' = if schedules then debouncedDeactivate s0 else s0).
  { unfold s', schedules, deactivate, stays_inside, debouncedActivateHandler_cancel.
    fold s0. destruct (target event) as [element|]; [|reflexivity].
    rewrite bool_decide_true by discriminate. cbn [andb].
    match goal with |- context [?a || ?b] => destruct (a || b) end; [reflexivity|].
    cbn [negb andb].
    assert (Hm0 : menu s0 = menu s) by apply clearTimeout_menu. rewrite Hm0.
    destruct (decide (findMenuItem (Some element) = activeItem (menu s))) as [Heq|Hne].
    - rewrite bool_decide_true by exact Heq. reflexivity.
    - rewrite bool_decide_false by exact Hne. reflexivity. }
  assert (Hno : forall t e, In t (timers s0) -> callback t <> RunActivateHandler e).
  { intros t e Hin Hcb. apply clearTimeout_timers in Hin as [Hin Hne].
    apply Hne. apply (activate_pending s Hok t e Hin Hcb). }
  assert (Hsub : forall t, In t (timers s0) -> In t (timers s)).
  { intros t Hin. apply clearTimeout_timers in Hin. tauto. }
  split; [|split; [|split; [|split]]].
  - exact (step_menu_unchanged dom (CallDeactivate event) s s' eq_refl eq_refl).
  - intros t e Hin Hcb. rewrite Hcases in Hin. destruct schedules.
    + apply debouncedDeactivate_timers in Hin as [[Hin _]| ->].
      * apply (Hno t e Hin Hcb).
      * discriminate Hcb.
    + apply (Hno t e Hin Hcb).
  - intros inputs s2 t e Hrun Hin Hcb.
    assert (Hgone : ~ known t s0).
    { apply pending_unknown_after_clear; [exact Hok|exact Hin|].
      apply (activate_pending s Hok t e Hin Hcb). }
    assert (Hlt : (timer_id t < next_timer s)%nat).
    { apply (ids_below s Hok). left. exact Hin. }
    assert (Hrun' : run ((dom, CallDeactivate event) :: inputs) s = Some s2).
    { simpl. exact Hrun. }
    intros Hfired.
    assert (Hstep := step_known dom (CallDeactivate event) s s' eq_refl).
    destruct Hstep as [Hnext Hknown].
    apply (cleared_never_fires inputs s' s2 t Hrun); [lia| |exact Hfired].
    intros Hk. rewrite Hcases in Hk. destruct schedules.
    + destruct Hk as [Hk|Hk].
      * apply debouncedDeactivate_timers in Hk as [[Hk _]| ->].
        -- apply Hgone. left. exact Hk.
        -- discriminate Hcb.
      * apply Hgone. right.
        destruct (debouncedDeactivate_grows s0) as (_ & Hf & _). rewrite <- Hf. exact Hk.
    + exact (Hgone Hk).
  - intros Hs t Hin. rewrite Hcases, Hs in Hin. apply Hsub, Hin.
  - intros Hs. rewrite Hcases, Hs. apply debouncedDeactivate_timers. right.
    unfold s0. rewrite clearTimeout_next_timer, clearTimeout_now. reflexivity.
Qed.

End MegaMenuMoreFacts.

Section MegaMenuMoreExamples.
Import MegaMenu MegaMenuMore.

Lemma active_item_is_the_expanded_item_witness :
  ariaExpanded (menu Examples.first_item_open) !! 1%nat = Some "true" /\
  host_ariaExpanded (host (menu Examples.first_item_open)) = Some "true".
Proof.
  destruct (active_item_is_the_expanded_item Examples.first_item_open
              first_item_open_reachable) as [Hitem Hhost].
  split.
  - apply Hitem. reflexivity.
  - apply Hhost. discriminate.
Defined.

Lemma closed_menu_connected : connected Examples.closed_menu.
Proof.
  split; [|repeat split]. split; [reflexivity|]. split; [|split; reflexivity].
  intros i. simpl. rewrite lookup_empty. discriminate.
Qed.

(** Item 1 was opened and closed: it carries [data-animating], and the
    timer that removes it is pending. *)
Lemma data_animating_has_pending_removal_witness :
  let s := default Examples.closed_menu
             (run MoreExamples.opened_and_closed Examples.closed_menu) in
  exists t, In t (timers s) /\ callback t = StopAnimating 1%nat.
Proof.
  intros s.
  destruct (data_animating_has_pending_removal MoreExamples.opened_and_closed
              Examples.closed_menu s closed_menu_connected eq_refl) as [Hpending _].
  apply Hpending.
  change (1%nat ∈ ({[1%nat]} ∪ ∅ : gset Item)).
  apply elem_of_union_l, elem_of_singleton. reflexivity.
Defined.


(** Item 1 is open and the pointer enters item 2. *)
Lemma activate_opens_item_witness :
  exists s',
    run [(Examples.quiet_dom, CallActivate (Examples.pointer_on 2%nat));
         (Examples.quiet_dom, Fire 1%nat)] Examples.first_item_open = Some s' /\
    activeItem (menu s') = Some 2%nat /\
    ariaExpanded (menu s') !! 1%nat <> Some "true".
Proof.
  destruct (activate_opens_item Examples.first_item_open
              Examples.quiet_dom Examples.quiet_dom (Examples.pointer_on 2%nat) 2%nat
              first_item_open_reachable eq_refl)
    as (s' & Hrun & Hactive & Honly & _).
  exists s'. split; [exact Hrun|]. split; [exact Hactive|].
  intros Hone. apply Honly in Hone. discriminate Hone.
Defined.

(** The pointer leaves item 1 while it is open and a deactivation is
    already pending. *)
Lemma deactivate_cancels_activation_witness :
  let s' := deactivate (Examples.pointer_on 1%nat) Examples.quiet_dom
              Examples.pointer_left in
  menu s' = menu Examples.pointer_left /\
  In {| timer_id := next_timer Examples.pointer_left;
        due := now Examples.pointer_left + 350; callback := RunDeactivate |}
     (timers s').
Proof.
  destruct (deactivate_cancels_activation Examples.pointer_left Examples.quiet_dom
              (Examples.pointer_on 1%nat) pointer_left_reachable)
    as (Hmenu & _ & _ & _ & Hschedules).
  split; [exact Hmenu|]. apply Hschedules. reflexivity.
Defined.

End MegaMenuMoreExamples.

(** ** Header menu: the last event wins *)

Section LastEventWins.
Import MegaMenu MegaMenuMore.





End LastEventWins.

(** ** Header menu: pointer events on a submenu *)

Section PointerDispatchFacts.
Import MegaMenu PointerDispatch.

(** C7: a [pointerenter] or [pointerleave] on an element of a submenu
    runs no listener, because the listeners are on the host and these
    events do not bubble.  Item 1 is open and the pointer has left the
    overflow menu, so the deactivation is pending: a [pointerenter]
    dispatched at an element of a [.menu-list__submenu] leaves the state
    as it is, the pending deactivation stays, and 350 ms later it runs
    and closes item 1.  With item 1 open and no timer pending, a
    [pointerleave] dispatched at such an element leaves the state as it
    is, so no deactivation is scheduled. *)
Theorem submenu_pointer_events_run_no_listener :
  let entering := PointerEnterAt (Other true) in
  let leaving := PointerLeaveAt (Other true) in
  activeItem (menu Examples.pointer_left) = Some 1%nat /\
  In Examples.pending_deactivation (timers Examples.pointer_left) /\
  dispatch Examples.quiet_dom entering Examples.pointer_left
    = Some Examples.pointer_left /\
  (exists s',
     run [(Examples.quiet_dom, Elapse 350); (Examples.quiet_dom, Fire 1%nat)]
       Examples.pointer_left = Some s' /\
     In Examples.pending_deactivation (fired s') /\
     activeItem (menu s') = None) /\
  dispatch Examples.quiet_dom leaving Examples.first_item_open
    = Some Examples.first_item_open /\
  timers Examples.first_item_open = [].
Proof.
  intros entering leaving.
  split; [reflexivity|]. split; [left; reflexivity|]. split; [reflexivity|].
  split; [|split; reflexivity].
  eexists. split; [reflexivity|]. split; [left; reflexivity|reflexivity].
Qed.

End PointerDispatchFacts.

(** ** Header menu: nested lists *)

Section NestedMenuFacts.
Import NestedMenu.

(** X19: positioning an open nested list whose link has an [li]
    ancestor writes all seven positioning properties.  The list gets
    [position: fixed]; a [min-width] of at least 220 px and at least its
    measured width; a [top] of at least 8 px which, when the list with
    8 px above and below fits into the window height, leaves the whole
    list inside the window; a [left] that is the rounded right edge of
    the [li] when the width and the margin then fit into the window, and
    otherwise, flipped to the left, at least 8 px; and as [max-height]
    the window height less 16 px, or 200 px when that is less. *)
Theorem positionOpenNested_keeps_list_in_viewport
    (layout : Layout) (s : State) (link : Link) (id : string)
    (rect : Rect) (l : ListElement) :
  openNested s = Some (link, id) ->
  li_rect layout link = Some rect ->
  lists s !! id = Some l ->
  exists left top width maxH : Z,
    lists (positionOpenNested layout s) !! id
    = Some {| hidden := hidden l;
              style := {| position := "fixed"; left := px left; top := px top;
                          minWidth := px width; zIndex := "9999";
                          maxHeight := px maxH; overflow := "auto";
                          display := EmptyString; visibility := EmptyString |} |} /\
    220 <= width /\ offsetWidth layout id <= width /\
    8 <= top /\
    (offsetHeight layout id + 16 <= innerHeight layout ->
     top + offsetHeight layout id + 8 <= innerHeight layout) /\
    (left = round (rect_right rect) /\ left + width + 8 <= innerWidth layout \/
     8 <= left /\ innerWidth layout < round (rect_right rect) + width + 8) /\
    maxH = Z.max 200 (innerHeight layout - 16).
Proof.
  intros Hopen Hrect Hl. unfold positionOpenNested. rewrite Hopen, Hrect, Hl.
  eexists _, _, _, _. cbn [lists]. rewrite lookup_insert_eq.
  split; [reflexivity|].
  unfold nestedWidth_of, top_of, left_of, margin.
  set (w := Z.max (Z.max (offsetWidth layout id) _) 220).
  destruct (innerWidth layout <? round (rect_right rect) + w + 8) eqn:Hflip.
  - apply Z.ltb_lt in Hflip. repeat split; lia.
  - apply Z.ltb_ge in Hflip. repeat split; lia.
Qed.

Lemma px_not_empty (n : Z) : String.eqb (px n) EmptyString = false.
Proof.
  unfold px. destruct (JS.string_of_Z n) as [|c r]; reflexivity.
Qed.

(** The width read back from a [min-width] the component wrote. *)
Lemma nestedWidth_of_px (layout : Layout) (id : string) (l : ListElement) (w : Z) :
  minWidth (style l) = px w ->
  nestedWidth_of layout id l = Z.max (Z.max (offsetWidth layout id) w) 220.
Proof.
  intros Hw. unfold nestedWidth_of. rewrite Hw, px_not_empty.
  unfold px. rewrite (parseInt_radix_string_of_Z true w "px"); [reflexivity| |auto].
  reflexivity.
Qed.

Lemma positionOpenNested_width
    (layout : Layout) (s : State) (link : Link) (id : string)
    (l : ListElement) (w : Z) :
  openNested s = Some (link, id) ->
  lists s !! id = Some l -> minWidth (style l) = px w ->
  openNested (positionOpenNested layout s) = Some (link, id) /\
  exists l' w', lists (positionOpenNested layout s) !! id = Some l' /\
                minWidth (style l') = px w' /\ w <= w' /\
                (is_Some (li_rect layout link) ->
                 220 <= w' /\ offsetWidth layout id <= w').
Proof.
  intros Hopen Hl Hw. unfold positionOpenNested. rewrite Hopen, Hl.
  destruct (li_rect layout link) as [rect|].
  - cbn [openNested lists]. split; [reflexivity|].
    rewrite lookup_insert_eq. eexists _, _. split; [reflexivity|].
    cbn [style minWidth]. split; [reflexivity|].
    rewrite (nestedWidth_of_px layout id l w Hw). lia.
  - split; [exact Hopen|]. exists l, w. split; [exact Hl|]. split; [exact Hw|].
    split; [lia|]. intros [? [=]].
Qed.

(** X20: while a nested list stays open, scrolling and resizing never
    make it narrower: the component reads back the [min-width] it wrote
    and takes the largest of that, the measured width and 220 px, so
    after any series of scroll and resize events the [min-width] is a
    pixel width that is at least the one before, whatever the layout
    has become. *)
Theorem nested_width_never_shrinks
    (inputs : list (Layout * Input)) (s : State) (link : Link) (id : string)
    (l : ListElement) (w : Z) :
  openNested s = Some (link, id) ->
  lists s !! id = Some l ->
  minWidth (style l) = px w ->
  Forall (fun li => li.2 = Scroll \/ li.2 = Resize) inputs ->
  exists l' w',
    lists (run inputs s) !! id = Some l' /\
    minWidth (style l') = px w' /\ w <= w'.
Proof.
  intros Hopen Hl Hw Hall. revert s l w Hopen Hl Hw.
  induction Hall as [|[layout i] rest Hi _ IH]; intros s l w Hopen Hl Hw.
  - exists l, w. simpl. split; [exact Hl|]. split; [exact Hw|lia].
  - assert (Hstep : step layout i s = positionOpenNested layout s).
    { simpl in Hi. destruct Hi as [-> | ->]; reflexivity. }
    destruct (positionOpenNested_width layout s link id l w Hopen Hl Hw)
      as (Hopen1 & l1 & w1 & Hl1 & Hw1 & Hle & _).
    unfold run. cbn [fold_left fst snd]. rewrite Hstep.
    destruct (IH _ l1 w1 Hopen1 Hl1 Hw1) as (l2 & w2 & Hl2 & Hw2 & Hle2).
    exists l2, w2. split; [exact Hl2|]. split; [exact Hw2|lia].
Qed.

Lemma positionOpenNested_ok (layout : Layout) (s : State) :
  nested_ok s -> nested_ok (positionOpenNested layout s).
Proof.
  intros [Hhidden Hopen]. unfold positionOpenNested.
  destruct (openNested s) as [[link id]|] eqn:Ho; [|split; [exact Hhidden|]].
  2: { intros link id. rewrite Ho. discriminate. }
  destruct (Hopen link id eq_refl) as (l & a & Hl & Hshown & Ha & Hexp & Hctl).
  rewrite Hl. destruct (li_rect layout link) as [rect|].
  2: { split; [exact Hhidden|]. intros link' id'. rewrite Ho. apply Hopen. }
  split; cbn [lists links openNested].
  - intros id' l'. destruct (decide (id = id')) as [<-|Hne].
    + rewrite lookup_insert_eq. intros [= <-]. simpl. congruence.
    + rewrite lookup_insert_ne by exact Hne. apply Hhidden.
  - intros link' id' [= <- <-]. rewrite lookup_insert_eq.
    eexists _, a. split; [reflexivity|]. simpl. auto.
Qed.

Lemma click_ok (layout : Layout) (nestedParent : option Link) (s : State) :
  nested_ok s -> nested_ok (click layout nestedParent s).
Proof.
  intros Hok. unfold click.
  destruct nestedParent as [link|]; [|exact Hok].
  destruct (links s !! link) as [a|] eqn:Ha; [|exact Hok].
  destruct (aria_controls a) as [controlsId|] eqn:Hctl; [|exact Hok].
  destruct (String.eqb controlsId EmptyString); [exact Hok|].
  destruct (lists s !! controlsId) as [nestedList|] eqn:Hl; [|exact Hok].
  destruct Hok as [Hhidden Hopen].
  match goal with |- context [if ?c then _ else _] => destruct c end.
  - split; cbn [lists links openNested].
    + intros id' l'. destruct (decide (controlsId = id')) as [<-|Hne].
      * rewrite lookup_insert_eq. intros [= <-] _. repeat split.
      * rewrite lookup_insert_ne by exact Hne. apply Hhidden.
    + discriminate.
  - apply positionOpenNested_ok. split; cbn [lists links openNested].
    + intros id' l'. destruct (decide (controlsId = id')) as [<-|Hne].
      * rewrite lookup_insert_eq. intros [= <-]. discriminate.
      * rewrite lookup_insert_ne by exact Hne. apply Hhidden.
    + intros link' id' [= <- <-]. rewrite !lookup_insert_eq.
      eexists _, _. split; [reflexivity|]. split; [reflexivity|].
      split; [reflexivity|]. simpl. auto.
Qed.

(** X21: from a menu in which every hidden nested list is without
    positioning and no list is tracked, any series of clicks on nested
    parent links, scrolls and resizes keeps that: a list that carries
    [hidden] has its [position], [left], [top], [min-width], [z-index],
    [max-height] and [overflow] empty, and the list that is tracked for
    repositioning is shown and is the one controlled by the tracked
    link, whose [aria-expanded] is ['true']. *)
Theorem hidden_nested_list_is_unpositioned
    (inputs : list (Layout * Input)) (s : State) :
  openNested s = None ->
  (forall id l, lists s !! id = Some l -> hidden l = true -> unpositioned l) ->
  nested_ok (run inputs s).
Proof.
  intros Hnone Hhidden.
  assert (Hok : nested_ok s).
  { split; [exact Hhidden|]. intros link id. rewrite Hnone. discriminate. }
  clear Hnone Hhidden. revert s Hok.
  induction inputs as [|[layout i] rest IH]; intros s Hok; [exact Hok|].
  unfold run. cbn [fold_left fst snd]. apply IH.
  destruct i; simpl; [apply click_ok|apply positionOpenNested_ok..]; exact Hok.
Qed.

Lemma positionOpenNested_frame (layout : Layout) (s : State) (link : Link) (id : string) :
  openNested s = Some (link, id) ->
  links (positionOpenNested layout s) = links s /\
  openNested (positionOpenNested layout s) = Some (link, id) /\
  prevented (positionOpenNested layout s) = prevented s /\
  (forall id', id' <> id -> lists (positionOpenNested layout s) !! id' = lists s !! id') /\
  (forall l, lists s !! id = Some l ->
     exists l', lists (positionOpenNested layout s) !! id = Some l' /\
                hidden l' = hidden l).
Proof.
  intros Hopen. unfold positionOpenNested. rewrite Hopen.
  destruct (li_rect layout link) as [rect|]; [|].
  2: { repeat split; try assumption; try reflexivity. intros l Hl. exists l. auto. }
  destruct (lists s !! id) as [l|] eqn:Hl.
  2: { repeat split; try assumption; try reflexivity. intros l Hl'. discriminate. }
  cbn [links lists openNested prevented]. repeat split.
  - intros id' Hne. apply lookup_insert_ne. congruence.
  - intros l0 [= <-]. rewrite lookup_insert_eq. eexists. split; reflexivity.
Qed.

(** A click on a link that is not expanded opens its list and tracks
    it. *)
Lemma click_opens (layout : Layout) (s : State) (link : Link) (a : LinkElement)
    (id : string) (l : ListElement) :
  links s !! link = Some a -> aria_controls a = Some id -> id <> EmptyString ->
  lists s !! id = Some l -> aria_expanded a <> Some "true" ->
  let s' := click layout (Some link) s in
  links s' = <[link := {| aria_controls := Some id; aria_expanded := Some "true" |}]>
               (links s) /\
  openNested s' = Some (link, id) /\
  prevented s' = S (prevented s) /\
  (forall id', id' <> id -> lists s' !! id' = lists s !! id') /\
  exists l', lists s' !! id = Some l' /\ hidden l' = false.
Proof.
  intros Ha Hctl Hid Hl Hexp s'. unfold s', click.
  rewrite Ha, Hctl. apply String.eqb_neq in Hid. rewrite Hid, Hl.
  assert (Hfalse : match aria_expanded a with
                   | Some v => String.eqb v "true"
                   | None => false
                   end = false).
  { destruct (aria_expanded a) as [v|]; [|reflexivity].
    apply String.eqb_neq. congruence. }
  rewrite Hfalse. cbn [negb SubmenuToggle.string_of_bool].
  match goal with |- context [positionOpenNested layout ?s0] =>
    destruct (positionOpenNested_frame layout s0 link id eq_refl)
      as (Hlinks & Hopen & Hprev & Hother & Hsame)
  end.
  cbn [links lists openNested prevented] in *.
  split; [exact Hlinks|]. split; [exact Hopen|]. split; [exact Hprev|]. split.
  - intros id' Hne. rewrite (Hother id' Hne). apply lookup_insert_ne. congruence.
  - destruct (Hsame _ (lookup_insert_eq _ _ _)) as (l' & Hl' & Hh).
    exists l'. split; [exact Hl'|exact Hh].
Qed.

(** A click on an expanded link closes its list and tracks none. *)
Lemma click_closes (layout : Layout) (s : State) (link : Link) (a : LinkElement)
    (id : string) (l : ListElement) :
  links s !! link = Some a -> aria_controls a = Some id -> id <> EmptyString ->
  lists s !! id = Some l -> aria_expanded a = Some "true" ->
  let s' := click layout (Some link) s in
  links s' = <[link := {| aria_controls := Some id; aria_expanded := Some "false" |}]>
               (links s) /\
  openNested s' = None /\
  prevented s' = S (prevented s) /\
  (forall id', id' <> id -> lists s' !! id' = lists s !! id') /\
  exists l', lists s' !! id = Some l' /\ hidden l' = true /\ unpositioned l'.
Proof.
  intros Ha Hctl Hid Hl Hexp s'. unfold s', click.
  rewrite Ha, Hctl. apply String.eqb_neq in Hid. rewrite Hid, Hl, Hexp.
  cbn [String.eqb Ascii.eqb Bool.eqb negb SubmenuToggle.string_of_bool
       links lists openNested prevented].
  repeat split.
  - intros id' Hne. apply lookup_insert_ne. congruence.
  - rewrite lookup_insert_eq. eexists. repeat split.
Qed.

(** X22: only the list opened last is tracked, and closing any list
    untracks it.  With two links for two lists, both closed: after the
    first is opened, the second is opened and the first is closed, the
    second list is still shown and its link is expanded, but no list is
    tracked, so scrolling and resizing no longer reposition it. *)
Theorem closing_one_nested_list_untracks_the_other
    (layout1 layout2 layout3 layout : Layout) (s : State)
    (link1 link2 : Link) (a1 a2 : LinkElement) (id1 id2 : string)
    (l1 l2 : ListElement) :
  link1 <> link2 -> id1 <> id2 ->
  links s !! link1 = Some a1 -> links s !! link2 = Some a2 ->
  aria_controls a1 = Some id1 -> aria_controls a2 = Some id2 ->
  id1 <> EmptyString -> id2 <> EmptyString ->
  lists s !! id1 = Some l1 -> lists s !! id2 = Some l2 ->
  aria_expanded a1 <> Some "true" -> aria_expanded a2 <> Some "true" ->
  let s' := run [(layout1, Click (Some link1)); (layout2, Click (Some link2));
                 (layout3, Click (Some link1))] s in
  (exists a l, links s' !! link2 = Some a /\ aria_expanded a = Some "true" /\
               lists s' !! id2 = Some l /\ hidden l = false) /\
  openNested s' = None /\
  step layout Scroll s' = s' /\ step layout Resize s' = s'.
Proof.
  intros Hlink Hid Ha1 Ha2 Hc1 Hc2 Hn1 Hn2 Hl1 Hl2 He1 He2 s'.
  unfold s', run. cbn [fold_left fst snd step].
  destruct (click_opens layout1 s link1 a1 id1 l1 Ha1 Hc1 Hn1 Hl1 He1)
    as (Hlinks1 & Hopen1 & _ & Hother1 & l1' & Hl1' & Hh1).
  set (s1 := click layout1 (Some link1) s) in *.
  assert (Ha2' : links s1 !! link2 = Some a2).
  { rewrite Hlinks1, lookup_insert_ne by exact Hlink. exact Ha2. }
  assert (Hl2' : lists s1 !! id2 = Some l2).
  { rewrite Hother1 by congruence. exact Hl2. }
  destruct (click_opens layout2 s1 link2 a2 id2 l2 Ha2' Hc2 Hn2 Hl2' He2)
    as (Hlinks2 & Hopen2 & _ & Hother2 & l2' & Hl2'' & Hh2).
  set (s2 := click layout2 (Some link2) s1) in *.
  assert (Ha1' : links s2 !! link1
                 = Some {| aria_controls := Some id1; aria_expanded := Some "true" |}).
  { rewrite Hlinks2, lookup_insert_ne by congruence.
    rewrite Hlinks1, lookup_insert_eq. reflexivity. }
  assert (Hl1'' : lists s2 !! id1 = Some l1').
  { rewrite Hother2 by exact Hid. exact Hl1'. }
  destruct (click_closes layout3 s2 link1 _ id1 l1' Ha1' eq_refl Hn1 Hl1'' eq_refl)
    as (Hlinks3 & Hopen3 & _ & Hother3 & _).
  set (s3 := click layout3 (Some link1) s2) in *.
  split; [|split; [exact Hopen3|]].
  - eexists _, l2'. rewrite Hlinks3, lookup_insert_ne by exact Hlink.
    rewrite Hlinks2, lookup_insert_eq. split; [reflexivity|]. split; [reflexivity|].
    rewrite Hother3 by congruence. split; [exact Hl2''|exact Hh2].
  - unfold positionOpenNested. rewrite Hopen3. split; reflexivity.
Qed.

End NestedMenuFacts.

Section NestedMenuExamples.
Import NestedMenu.

Lemma nested_open_tracked :
  openNested MoreExamples.nested_open = Some (1%nat, "nested-1").
Proof. reflexivity. Qed.

(** The open list is positioned again after the window became narrow:
    its maximal height is 624 px. *)
Lemma positionOpenNested_keeps_list_in_viewport_witness :
  exists left top width : Z,
    lists (positionOpenNested MoreExamples.narrow_window MoreExamples.nested_open)
      !! "nested-1"
    = Some {| hidden := false;
              style := {| position := "fixed"; left := px left; top := px top;
                          minWidth := px width; zIndex := "9999";
                          maxHeight := px 624; overflow := "auto";
                          display := EmptyString; visibility := EmptyString |} |} /\
    220 <= width /\ 8 <= top.
Proof.
  destruct (lists MoreExamples.nested_open !! "nested-1") as [l|] eqn:Hl;
    [|discriminate Hl].
  destruct (positionOpenNested_keeps_list_in_viewport MoreExamples.narrow_window
              MoreExamples.nested_open 1%nat "nested-1" _ l
              nested_open_tracked eq_refl Hl)
    as (left & top & width & maxH & Hlist & Hwidth & _ & Htop & _ & _ & HmaxH).
  exists left, top, width.
  assert (Hshown : hidden l = false).
  { vm_compute in Hl. injection Hl as <-. reflexivity. }
  rewrite Hshown, HmaxH in Hlist. repeat split; assumption.
Defined.

(** The list was 300 px wide in the wide window and stays so in the
    narrow one. *)
Lemma nested_width_never_shrinks_witness :
  exists l' w',
    lists (run [(MoreExamples.narrow_window, Resize);
                (MoreExamples.narrow_window, Scroll)] MoreExamples.nested_open)
      !! "nested-1" = Some l' /\
    minWidth (style l') = px w' /\ 300 <= w'.
Proof.
  destruct (lists MoreExamples.nested_open !! "nested-1") as [l|] eqn:Hl;
    [|discriminate Hl].
  apply (nested_width_never_shrinks
           [(MoreExamples.narrow_window, Resize); (MoreExamples.narrow_window, Scroll)]
           MoreExamples.nested_open 1%nat "nested-1" l 300 nested_open_tracked Hl).
  - vm_compute in Hl. injection Hl as <-. reflexivity.
  - constructor; [right; reflexivity|].
    constructor; [left; reflexivity|constructor].
Defined.

Lemma nested_closed_hidden_unpositioned (id : string) (l : ListElement) :
  lists MoreExamples.nested_closed !! id = Some l -> hidden l = true -> unpositioned l.
Proof.
  intros Hl _. unfold MoreExamples.nested_closed in Hl. cbn [lists] in Hl.
  apply lookup_insert_Some in Hl as [[_ <-]|[_ Hl]]; [repeat split|].
  apply lookup_singleton_Some in Hl as [_ <-]. repeat split.
Qed.

Lemma hidden_nested_list_is_unpositioned_witness :
  nested_ok (run [(MoreExamples.wide_window, Click (Some 1%nat));
                  (MoreExamples.narrow_window, Resize);
                  (MoreExamples.narrow_window, Click (Some 1%nat))]
               MoreExamples.nested_closed).
Proof.
  apply (hidden_nested_list_is_unpositioned _ MoreExamples.nested_closed eq_refl
           nested_closed_hidden_unpositioned).
Defined.

Lemma closing_one_nested_list_untracks_the_other_witness :
  let s' := run [(MoreExamples.wide_window, Click (Some 1%nat));
                 (MoreExamples.wide_window, Click (Some 2%nat));
                 (MoreExamples.wide_window, Click (Some 1%nat))]
              MoreExamples.nested_closed in
  openNested s' = None /\ step MoreExamples.narrow_window Scroll s' = s'.
Proof.
  destruct (closing_one_nested_list_untracks_the_other
              MoreExamples.wide_window MoreExamples.wide_window MoreExamples.wide_window
              MoreExamples.narrow_window MoreExamples.nested_closed 1%nat 2%nat
              (MoreExamples.closed_link "nested-1") (MoreExamples.closed_link "nested-2")
              "nested-1" "nested-2" MoreExamples.closed_list MoreExamples.closed_list)
    as (_ & Hnone & Hscroll & _);
    try reflexivity; try discriminate.
  split; [exact Hnone|exact Hscroll].
Defined.

End NestedMenuExamples.

(** ** Quick-view drawer: adding to the cart *)

Section AddToCartFacts.
Import JS VariantPicker VariantPickerDom AddToCart.

Lemma getSelectedVariant_in (groups : list (list OptionButton))
    (product : QuickView.ProductData) (vs : list jsval) :
  QuickView.variants product = JArr vs -> vs <> [] -> Forall well_formed vs ->
  exists v, getSelectedVariant groups product = Ok v /\ In v vs.
Proof.
  intros Hvariants Hne Hwf. unfold getSelectedVariant. rewrite Hvariants.
  destruct (find_variant_spec (selectedOptions groups) vs Hwf)
    as [(pre & v & post & Hvs & Hv & Hpre & Hfind)|[Hall Hfind]];
    rewrite Hfind; simpl.
  - assert (Hin : In v vs) by (rewrite Hvs; apply in_elt).
    exists v. unfold or_else.
    rewrite (well_formed_truthy v); [auto|].
    rewrite List.Forall_forall in Hwf. apply Hwf, Hin.
  - destruct vs as [|v0 vs']; [congruence|]. exists v0.
    split; [reflexivity|left; reflexivity].
Qed.

(** The button after a click on an option, for a product with variant
    objects. *)
Lemma option_click_button
    (product : QuickView.ProductData) (vs : list jsval) (g k : nat) (s : State) :
  QuickView.variants product = JArr vs -> vs <> [] -> Forall well_formed vs ->
  exists v available,
    getSelectedVariant (click_option g k (variantGroups s)) product = Ok v /\
    In v vs /\
    get_prop v "available" = Ok available /\
    option_click product g k s
    = set_addToCartBtn
        {| disabled := negb (truthy available);
           text := if truthy available then "Add to Cart" else "Sold Out" |}
        (set_variantGroups (click_option g k (variantGroups s)) s).
Proof.
  intros Hvariants Hne Hwf.
  destruct (getSelectedVariant_in (click_option g k (variantGroups s)) product vs
              Hvariants Hne Hwf) as (v & Hget & Hin).
  assert (Htruthy : truthy v = true).
  { apply well_formed_truthy. rewrite List.Forall_forall in Hwf. apply Hwf, Hin. }
  destruct (get_prop_truthy v "available" Htruthy) as [available Havail].
  exists v, available. split; [exact Hget|]. split; [exact Hin|].
  split; [exact Havail|].
  unfold option_click, updateSelectedVariant.
  cbn [variantGroups set_variantGroups addToCartBtn].
  rewrite Hget. cbn [mbind result_bind]. rewrite Htruthy, Havail. reflexivity.
Qed.

(** X23: a click on a variant option brings the add-to-cart button in
    line with the variant that is then selected, for a product with
    variant objects: the button is disabled and reads [Sold Out] when
    that variant is not available, and is enabled and reads
    [Add to Cart] when it is, whatever the button showed before, also
    while a request is awaited; requests and timers stay as they are. *)
Theorem option_click_syncs_button
    (product : QuickView.ProductData) (vs : list jsval) (g k : nat) (s : State) :
  QuickView.variants product = JArr vs -> vs <> [] -> Forall well_formed vs ->
  let s' := option_click product g k s in
  exists v available,
    variantGroups s' = click_option g k (variantGroups s) /\
    getSelectedVariant (variantGroups s') product = Ok v /\
    get_prop v "available" = Ok available /\
    disabled (addToCartBtn s') = negb (truthy available) /\
    text (addToCartBtn s')
    = (if truthy available then "Add to Cart" else "Sold Out") /\
    awaiting s' = awaiting s /\ timers s' = timers s /\ calls s' = calls s.
Proof.
  intros Hvariants Hne Hwf s'.
  destruct (option_click_button product vs g k s Hvariants Hne Hwf)
    as (v & available & Hget & _ & Havail & Hs').
  exists v, available. unfold s'. rewrite Hs'. repeat split; assumption.
Qed.

(** A click on the enabled button, for a product with variant objects:
    the form is posted and the button shows the loading state. *)
Lemma handleAddToCart_posts
    (product : QuickView.ProductData) (vs : list jsval) (s : State) :
  QuickView.variants product = JArr vs -> vs <> [] -> Forall well_formed vs ->
  exists v variant_id,
    getSelectedVariant (variantGroups s) product = Ok v /\ In v vs /\
    get_prop v "id" = Ok variant_id /\
    handleAddToCart product s
    = {| variantGroups := variantGroups s; quantityInput := quantityInput s;
         addToCartBtn := {| disabled := true; text := "Adding..." |};
         awaiting := (awaiting s ++ [text (addToCartBtn s)])%list;
         timers := timers s; now := now s;
         calls := PostCartAdd variant_id (or_one (parseInt (quantityInput s)))
                  :: calls s |}.
Proof.
  intros Hvariants Hne Hwf.
  destruct (getSelectedVariant_in (variantGroups s) product vs Hvariants Hne Hwf)
    as (v & Hget & Hin).
  assert (Htruthy : truthy v = true).
  { apply well_formed_truthy. rewrite List.Forall_forall in Hwf. apply Hwf, Hin. }
  destruct (get_prop_truthy v "id" Htruthy) as [variant_id Hid].
  exists v, variant_id. split; [exact Hget|]. split; [exact Hin|].
  split; [exact Hid|].
  unfold handleAddToCart. rewrite Hget, Htruthy, Hid. reflexivity.
Qed.

Lemma delete_split {A : Type} (l : list A) (n : nat) (x : A) :
  l !! n = Some x ->
  l = (take n l ++ x :: drop (S n) l)%list /\
  delete n l = (take n l ++ drop (S n) l)%list.
Proof.
  intros Hx. split.
  - symmetry. apply take_drop_middle, Hx.
  - apply delete_take_drop.
Qed.

Lemma count_app {A : Type} (p : A -> bool) (l1 l2 : list A) :
  count p (l1 ++ l2) = (count p l1 + count p l2)%nat.
Proof. unfold count. rewrite List.filter_app, length_app. reflexivity. Qed.

Lemma count_cons {A : Type} (p : A -> bool) (x : A) (l : list A) :
  count p (x :: l) = ((if p x then 1 else 0) + count p l)%nat.
Proof. unfold count. simpl. destruct (p x); reflexivity. Qed.

Lemma count_delete {A : Type} (p : A -> bool) (l : list A) (n : nat) (x : A) :
  l !! n = Some x ->
  count p l = ((if p x then 1 else 0) + count p (delete n l))%nat.
Proof.
  intros Hx. destruct (delete_split l n x Hx) as [Hl Hd].
  rewrite Hd. rewrite Hl at 1. rewrite !count_app, count_cons. lia.
Qed.

Lemma in_delete {A : Type} (l : list A) (n : nat) (x y : A) :
  l !! n = Some x -> In y l -> y <> x -> In y (delete n l).
Proof.
  intros Hx Hy Hne. destruct (delete_split l n x Hx) as [Hl Hd].
  rewrite Hd. rewrite Hl in Hy. rewrite in_app_iff in *. simpl in Hy.
  destruct Hy as [Hy|[Hy|Hy]]; [auto|congruence|auto].
Qed.

Lemma in_delete_inv {A : Type} (l : list A) (n : nat) (y : A) :
  In y (delete n l) -> In y l.
Proof.
  rewrite <- !list_elem_of_In. apply list_elem_of_delete_inv.
Qed.

(** What every step keeps. *)
Record step_keeps (s : State) : Prop := {
  keeps_recovers : recovers s;
  keeps_due : forall t, In t (timers s) -> due t <= now s + 2000;
  keeps_closings :
    (count is_CloseDialogCall (calls s) + count is_close (timers s))%nat
    = count is_CartUpdated (calls s)
}.

(** A change that sets no timer and makes none of the counted calls. *)
Lemma keeps_frame (s s' : State) :
  step_keeps s ->
  timers s' = timers s -> now s <= now s' ->
  count is_CloseDialogCall (calls s') = count is_CloseDialogCall (calls s) ->
  count is_CartUpdated (calls s') = count is_CartUpdated (calls s) ->
  recovers s' -> step_keeps s'.
Proof.
  intros [Hrec Hdue Hclose] Ht Hnow Hc1 Hc2 Hrec'. split.
  - exact Hrec'.
  - rewrite Ht. intros t Hin. apply Hdue in Hin. lia.
  - rewrite Ht, Hc1, Hc2. exact Hclose.
Qed.

Lemma handleAddToCart_catch_keeps (originalText : string) (s0 s : State) :
  step_keeps s0 ->
  timers s = timers s0 -> now s = now s0 -> calls s = calls s0 ->
  step_keeps (handleAddToCart_catch originalText s).
Proof.
  intros [Hrec Hdue Hclose] Ht Hnow Hcalls. split.
  - intros _. right. right. eexists.
    split; [simpl; rewrite in_app_iff; right; left; reflexivity|reflexivity].
  - simpl. rewrite Ht, Hnow. intros t. rewrite in_app_iff. intros [Hin|[<-|[]]].
    + apply Hdue, Hin.
    + simpl. lia.
  - simpl. rewrite Ht, Hcalls, count_app, !count_cons. simpl.
    unfold count at 3. simpl. lia.
Qed.

Lemma handleAddToCart_keeps (product : QuickView.ProductData) (s : State) :
  step_keeps s -> step_keeps (handleAddToCart product s).
Proof.
  intros Hk. unfold handleAddToCart.
  destruct (getSelectedVariant (variantGroups s) product) as [v|]; [|exact Hk].
  destruct (negb (truthy v)).
  { apply (keeps_frame s); [exact Hk|reflexivity|simpl; lia|reflexivity..|].
    exact (keeps_recovers s Hk). }
  destruct (get_prop v "id") as [variant_id|].
  - apply (keeps_frame s); [exact Hk|reflexivity|simpl; lia|reflexivity..|].
    intros _. right. left. simpl. destruct (awaiting s); discriminate.
  - apply (handleAddToCart_catch_keeps _ s); [exact Hk|reflexivity..].
Qed.

Lemma handleAddToCart_resume_keeps (originalText : string) (r : Response)
    (s0 s : State) :
  step_keeps s0 ->
  timers s = timers s0 -> now s = now s0 -> calls s = calls s0 ->
  step_keeps (handleAddToCart_resume originalText r s).
Proof.
  intros Hk Ht Hnow Hcalls. destruct r as [result|]; simpl.
  2: { apply (handleAddToCart_catch_keeps _ s0); assumption. }
  destruct Hk as [Hrec Hdue Hclose]. split.
  - intros _. right. right. eexists.
    split; [simpl; rewrite !in_app_iff; left; right; left; reflexivity|reflexivity].
  - simpl. rewrite Ht, Hnow. intros t. rewrite !in_app_iff.
    intros [[Hin|[<-|[]]]|[<-|[]]]; [apply Hdue, Hin|simpl; lia..].
  - simpl. rewrite Ht, Hcalls, !count_app, !count_cons. simpl.
    unfold count at 3 4. simpl. lia.
Qed.

Lemma option_click_keeps (product : QuickView.ProductData) (g k : nat) (s : State) :
  step_keeps s -> step_keeps (option_click product g k s).
Proof.
  intros Hk. unfold option_click, updateSelectedVariant.
  cbn [variantGroups set_variantGroups addToCartBtn].
  set (s1 := set_variantGroups (click_option g k (variantGroups s)) s).
  assert (Hk1 : step_keeps s1).
  { apply (keeps_frame s); [exact Hk|reflexivity|simpl; lia|reflexivity..|].
    exact (keeps_recovers s Hk). }
  destruct (getSelectedVariant _ product) as [v|]; [|exact Hk1].
  cbn [mbind result_bind]. destruct (truthy v).
  - destruct (get_prop v "available") as [available|]; [|exact Hk1].
    cbn [mbind result_bind].
    apply (keeps_frame s); [exact Hk|reflexivity|simpl; lia|reflexivity..|].
    intros Hdis. left. simpl in *. apply negb_true_iff in Hdis. rewrite Hdis.
    reflexivity.
  - apply (keeps_frame s); [exact Hk|reflexivity|simpl; lia|reflexivity..|].
    exact (keeps_recovers s Hk).
Qed.

Lemma step_keeps_step (product : QuickView.ProductData) (i : Input) (s s' : State) :
  step product i s = Some s' -> step_keeps s -> step_keeps s'.
Proof.
  intros Hstep Hk. destruct i as [g k|c| |n r|ms|n]; simpl in Hstep.
  - destruct (has_option g k (variantGroups s)); [|discriminate].
    injection Hstep as <-. apply option_click_keeps, Hk.
  - injection Hstep as <-.
    apply (keeps_frame s); [exact Hk|reflexivity|simpl; lia|reflexivity..|].
    exact (keeps_recovers s Hk).
  - destruct (disabled (addToCartBtn s)); [discriminate|].
    injection Hstep as <-. apply handleAddToCart_keeps, Hk.
  - destruct (awaiting s !! n) as [originalText|]; [|discriminate].
    injection Hstep as <-.
    apply (handleAddToCart_resume_keeps _ _ s); [exact Hk|reflexivity..].
  - destruct (0 <=? ms) eqn:Hms; [|discriminate]. injection Hstep as <-.
    apply Z.leb_le in Hms.
    apply (keeps_frame s); [exact Hk|reflexivity|simpl; lia|reflexivity..|].
    exact (keeps_recovers s Hk).
  - destruct (timers s !! n) as [t|] eqn:Ht; [|discriminate].
    destruct (due t <=? now s); [|discriminate]. injection Hstep as <-.
    destruct Hk as [Hrec Hdue Hclose].
    assert (Hcount : count is_close (timers s)
                     = ((if is_close t then 1 else 0)
                        + count is_close (delete n (timers s)))%nat)
      by apply (count_delete is_close (timers s) n t Ht).
    unfold is_close at 2 in Hcount. unfold is_restore in Hcount.
    destruct (callback t) as [originalText|] eqn:Hcb; cbn [negb] in Hcount;
      cbn [run_callback]; split.
    + intros Hdis. discriminate Hdis.
    + cbn [timers set_addToCartBtn set_timers now].
      intros t' Hin. apply Hdue, (in_delete_inv _ n), Hin.
    + cbn [timers set_addToCartBtn set_timers calls]. lia.
    + intros Hdis. destruct (Hrec Hdis) as [Htext|[Hwait|(t' & Hin & Hres)]];
        [left; exact Htext|right; left; exact Hwait|].
      right. right. exists t'. split; [|exact Hres].
      cbn [timers call set_timers]. apply (in_delete _ n t); [exact Ht|exact Hin|].
      intros ->. unfold is_restore in Hres. rewrite Hcb in Hres. discriminate.
    + cbn [timers call set_timers now].
      intros t' Hin. apply Hdue, (in_delete_inv _ n), Hin.
    + cbn [timers call set_timers calls]. rewrite !count_cons.
      cbn [is_CloseDialogCall is_CartUpdated]. lia.
Qed.

Lemma run_keeps (product : QuickView.ProductData) (inputs : list Input) (s s' : State) :
  run product inputs s = Some s' -> step_keeps s -> step_keeps s'.
Proof.
  revert s. induction inputs as [|i rest IH]; intros s Hrun Hk; simpl in Hrun.
  - injection Hrun as <-. exact Hk.
  - destruct (step product i s) as [s1|] eqn:Hstep; [|discriminate].
    apply (IH s1 Hrun), (step_keeps_step product i s s1 Hstep Hk).
Qed.

Lemma rendered_keeps (groups : list (list OptionButton)) : step_keeps (rendered groups).
Proof.
  split.
  - intros Hdis. discriminate Hdis.
  - intros t [].
  - reflexivity.
Qed.

(** X24: in one rendering of the drawer, whatever is clicked, however
    the requests end and whenever the timers run, the add-to-cart button
    is never left disabled for good: when it is disabled, it reads
    [Sold Out], or a request awaits its response, or a timer that
    enables it again is pending; and every pending timer is due within
    2000 ms. *)
Theorem add_to_cart_button_recovers
    (product : QuickView.ProductData) (groups : list (list OptionButton))
    (inputs : list Input) (s : State) :
  run product inputs (rendered groups) = Some s ->
  (disabled (addToCartBtn s) = true ->
   text (addToCartBtn s) = "Sold Out" \/ awaiting s <> [] \/
   exists t originalText,
     In t (timers s) /\ callback t = Restore originalText) /\
  (forall t, In t (timers s) -> due t <= now s + 2000).
Proof.
  intros Hrun.
  destruct (run_keeps product inputs _ s Hrun (rendered_keeps groups))
    as [Hrec Hdue _].
  split; [|exact Hdue].
  intros Hdis. destruct (Hrec Hdis) as [Htext|[Hwait|(t & Hin & Hres)]]; [auto..|].
  right. right. exists t. unfold is_restore in Hres.
  destruct (callback t) as [originalText|] eqn:Hcb; [|discriminate].
  exists originalText. auto.
Qed.

(** X25: the drawer is closed once for each successful add and never
    after a failed one: in every state of a rendering, the calls of
    [closeDialog] made so far and the pending timers that will call it
    are together as many as the [cart:updated] events dispatched. *)
Theorem close_dialog_once_per_successful_add
    (product : QuickView.ProductData) (groups : list (list OptionButton))
    (inputs : list Input) (s : State) :
  run product inputs (rendered groups) = Some s ->
  (count is_CloseDialogCall (calls s) + count is_close (timers s))%nat
  = count is_CartUpdated (calls s).
Proof.
  intros Hrun.
  apply (keeps_closings s (run_keeps product inputs _ s Hrun (rendered_keeps groups))).
Qed.

(** X26: the loading state does not keep a second request from being
    posted: for a product whose variants are all available, a click on
    the enabled button, then a click on a variant option, which enables
    the button again while the request is still awaited, then another
    click on the button post two requests, the second before the first
    is answered. *)
Theorem option_click_allows_second_request
    (product : QuickView.ProductData) (vs : list jsval) (g k : nat) (s : State) :
  QuickView.variants product = JArr vs -> vs <> [] -> Forall well_formed vs ->
  Forall (fun v => exists available,
            get_prop v "available" = Ok available /\ truthy available = true) vs ->
  has_option g k (variantGroups s) = true ->
  disabled (addToCartBtn s) = false ->
  exists s',
    run product [AddToCartClick; OptionClick g k; AddToCartClick] s = Some s' /\
    awaiting s' = (awaiting s ++ [text (addToCartBtn s); "Add to Cart"])%list /\
    count is_PostCartAdd (calls s') = (2 + count is_PostCartAdd (calls s))%nat /\
    addToCartBtn s' = {| disabled := true; text := "Adding..." |}.
Proof.
  intros Hvariants Hne Hwf Havailable Hoption Henabled.
  destruct (handleAddToCart_posts product vs s Hvariants Hne Hwf)
    as (v1 & id1 & _ & _ & _ & Hs1).
  set (s1 := handleAddToCart product s) in *.
  destruct (option_click_button product vs g k s1 Hvariants Hne Hwf)
    as (v2 & available & _ & Hin2 & Havail & Hs2).
  set (s2 := option_click product g k s1) in *.
  assert (Htruthy : truthy available = true).
  { rewrite List.Forall_forall in Havailable.
    destruct (Havailable v2 Hin2) as (a & Ha & Hta). congruence. }
  rewrite Htruthy in Hs2. cbn [negb] in Hs2.
  destruct (handleAddToCart_posts product vs s2 Hvariants Hne Hwf)
    as (v3 & id3 & _ & _ & _ & Hs3).
  exists (handleAddToCart product s2).
  assert (Hstep1 : step product AddToCartClick s = Some s1).
  { simpl. rewrite Henabled. reflexivity. }
  assert (Hstep2 : step product (OptionClick g k) s1 = Some s2).
  { simpl. rewrite Hs1. cbn [variantGroups]. rewrite Hoption. fold s1.
    rewrite <- Hs1. reflexivity. }
  assert (Hstep3 : step product AddToCartClick s2 = Some (handleAddToCart product s2)).
  { simpl. rewrite Hs2. reflexivity. }
  split.
  { unfold run. rewrite Hstep1, Hstep2, Hstep3. reflexivity. }
  rewrite Hs3, Hs2, Hs1. cbn [awaiting set_addToCartBtn set_variantGroups
    addToCartBtn calls text].
  split; [rewrite <- app_assoc; reflexivity|].
  split; [|reflexivity].
  rewrite !count_cons. reflexivity.
Qed.

End AddToCartFacts.

Section AddToCartExamples.
Import JS VariantPicker VariantPickerDom AddToCart.

Lemma socks_well_formed :
  Forall well_formed [MoreExamples.socks_small; MoreExamples.socks_large].
Proof. repeat constructor; eexists; reflexivity. Qed.

(** A click on size L of the socks while the button reads [Adding...]. *)
Lemma option_click_syncs_button_witness :
  let s := handleAddToCart MoreExamples.socks_data
             (rendered MoreExamples.socks_groups) in
  let s' := option_click MoreExamples.socks_data 0 1 s in
  addToCartBtn s = {| disabled := true; text := "Adding..." |} /\
  exists v available,
    getSelectedVariant (variantGroups s') MoreExamples.socks_data = Ok v /\
    get_prop v "available" = Ok available /\
    disabled (addToCartBtn s') = negb (truthy available) /\
    awaiting s' = awaiting s.
Proof.
  intros s s'. split; [reflexivity|].
  destruct (option_click_syncs_button MoreExamples.socks_data
              [MoreExamples.socks_small; MoreExamples.socks_large] 0 1 s
              eq_refl ltac:(discriminate) socks_well_formed)
    as (v & available & _ & Hget & Havail & Hdis & _ & Hwait & _).
  exists v, available. repeat split; assumption.
Defined.

Lemma add_to_cart_button_recovers_witness :
  let s := default (rendered MoreExamples.socks_groups)
             (run MoreExamples.socks_data
                [AddToCartClick; Respond 0 Fails] (rendered MoreExamples.socks_groups)) in
  disabled (addToCartBtn s) = true /\
  exists t originalText, In t (timers s) /\ callback t = Restore originalText.
Proof.
  intros s.
  destruct (add_to_cart_button_recovers MoreExamples.socks_data
              MoreExamples.socks_groups [AddToCartClick; Respond 0 Fails] s eq_refl)
    as [Hrec _].
  split; [reflexivity|].
  destruct (Hrec eq_refl) as [Htext|[Hwait|Htimer]];
    [discriminate Htext|contradiction Hwait; reflexivity|exact Htimer].
Defined.

Lemma close_dialog_once_per_successful_add_witness :
  let s := default (rendered MoreExamples.socks_groups)
             (run MoreExamples.socks_data MoreExamples.socks_added
                (rendered MoreExamples.socks_groups)) in
  count is_CloseDialogCall (calls s) = 1%nat /\ count is_close (timers s) = 0%nat.
Proof.
  intros s.
  pose proof (close_dialog_once_per_successful_add MoreExamples.socks_data
                MoreExamples.socks_groups MoreExamples.socks_added s eq_refl) as Hcount.
  assert (Hnone : count is_close (timers s) = 0%nat) by reflexivity.
  rewrite Hnone in Hcount. split; [|exact Hnone].
  rewrite Nat.add_0_r in Hcount. rewrite Hcount. reflexivity.
Defined.

Lemma option_click_allows_second_request_witness :
  exists s',
    run MoreExamples.socks_data [AddToCartClick; OptionClick 0 1; AddToCartClick]
      (rendered MoreExamples.socks_groups) = Some s' /\
    awaiting s' = ["Add to Cart"; "Add to Cart"].
Proof.
  destruct (option_click_allows_second_request MoreExamples.socks_data
              [MoreExamples.socks_small; MoreExamples.socks_large] 0 1
              (rendered MoreExamples.socks_groups)
              eq_refl ltac:(discriminate) socks_well_formed)
    as (s' & Hrun & Hwait & _).
  - repeat constructor; eexists; split; reflexivity.
  - reflexivity.
  - reflexivity.
  - exists s'. split; [exact Hrun|exact Hwait].
Defined.

End AddToCartExamples.
